(** * Calibre batch tool: catalog view controller and bulk update worker

    A shallow embedding of the controller logic of [gui.py]
    ([MainWindow.refresh_table], [MainWindow.load_books], the page
    buttons, the cover cache, the filter boxes, the cache invalidation
    done by [delete_selected], [browse_trash] and the edit completion
    callback, [UpdateWorker.run], [EditDialog.setup_ui] and
    [EditDialog.get_updates]) and of [book_manager.py]
    ([BookManager.get_metadata_batch], the wrappers of the database calls
    and the pattern for the directory names of the trash), together with
    the properties the specification states about them and further
    properties of the code.

    Conventions.
    - Python [int] is [Z]; [//] on a positive divisor is [Z.div].
    - Python [str] is [string]; characters are bytes, so only the ASCII
      part of Python's whitespace and digit classes is represented:
      [strip], [strptime] and the pattern of the trash names agree with
      Python on ASCII text, and the properties that depend on them are
      stated for ASCII text.
    - A Python [dict] used as a map is a [gmap], a [set] is a [gset]; the
      ordered [updates] dict of the worker is an association list.
    - The calibre database is external.  It is an oracle: every operation
      receives the list of events that happened so far and answers with a
      value or with an exception.  Each call is recorded in that list.
    - An exception is represented by its description ([str(e)]). *)

From Stdlib Require Import ZArith List String Ascii Lia.
From Stdlib Require Import SpecFloat.
From stdpp Require Import base gmap strings list fin_maps.

Local Open Scope string_scope.
Local Open Scope Z_scope.

(** ** Python primitives *)

Module Py.

(** Outcome of a Python expression: a value, or a raised exception. *)
Inductive result (A : Type) : Type :=
| Ok (a : A)
| Raise (msg : string).
Arguments Ok {A} a.
Arguments Raise {A} msg.

Definition is_ok {A} (r : result A) : bool :=
  match r with Ok _ => true | Raise _ => false end.

(** Truth value of a [str]. *)
Definition truthy (s : string) : bool :=
  match s with EmptyString => false | String _ _ => true end.

(** [a[i:j]]: a negative index counts from the end, and both bounds are
    clipped to the list. *)
Definition slice_index (len i : Z) : Z :=
  if i <? 0 then Z.max (i + len) 0 else Z.min i len.

Definition slice {A} (a : list A) (i j : Z) : list A :=
  let len := Z.of_nat (length a) in
  let lo := slice_index len i in
  let hi := slice_index len j in
  take (Z.to_nat (hi - lo)) (drop (Z.to_nat lo) a).

(** [str.isspace] on one ASCII character; the white space beyond ASCII
    is not represented. *)
Definition isspace (c : ascii) : bool :=
  let n := N.to_nat (N_of_ascii c) in
  ((9 <=? n)%nat && (n <=? 13)%nat)
  || ((28 <=? n)%nat && (n <=? 32)%nat).

Fixpoint lstrip (s : string) : string :=
  match s with
  | EmptyString => EmptyString
  | String c s' => if isspace c then lstrip s' else s
  end.

(** [s.strip()] *)
Definition strip (s : string) : string :=
  String.rev (lstrip (String.rev (lstrip s))).

(** [sep.join(parts)] *)
Fixpoint join (sep : string) (parts : list string) : string :=
  match parts with
  | [] => EmptyString
  | [p] => p
  | p :: rest => p ++ sep ++ join sep rest
  end.

(** The double-quote character (code 34) and a string wrapped in it. *)
Definition dquote : string := String (ascii_of_nat 34) EmptyString.
Definition quoted (s : string) : string := dquote ++ s ++ dquote.

End Py.
Export Py.

(** ** Pagination ([MainWindow.refresh_table], lines 611-613) *)

Definition PAGE_SIZE : Z := 50.

(** [paginate filtered page] is the triple
    [(total_pages, current_page, page_ids)] computed from
    [self.filtered_ids] and the incoming [self.current_page]. *)
Definition paginate (filtered : list Z) (page : Z) : Z * Z * list Z :=
  let total_pages := (Z.of_nat (length filtered) + PAGE_SIZE - 1) `div` PAGE_SIZE in
  let current_page := Z.max 0 (Z.min page (total_pages - 1)) in
  let page_ids :=
    slice filtered (current_page * PAGE_SIZE) ((current_page + 1) * PAGE_SIZE) in
  (total_pages, current_page, page_ids).

Definition total_pages_of (filtered : list Z) : Z := (paginate filtered 0).1.1.
Definition page_ids_of (filtered : list Z) (page : Z) : list Z :=
  (paginate filtered page).2.

(** ** Data model ([book_manager.py]) *)

(** A [datetime] handed out by the database, seen through the two methods
    the program calls on it: [d.strftime('%Y-%m-%d')] and [d.timestamp()]. *)
Record datetime := {
  strftime_ymd : string;
  posix_timestamp : spec_float;
}.

(** An element of a [languages] value: an object with a [name] attribute,
    or anything else, which is shown through [str]. *)
Inductive lang_item :=
| LangObject (name : string)
| LangPlain (str : string).

(** [getattr(l, 'name', str(l))] *)
Definition lang_name (l : lang_item) : string :=
  match l with LangObject name => name | LangPlain str => str end.

(** The dataclass [BookMetadata]. *)
Module BookMetadata.
Record t := {
  id : Z;
  title : string;
  authors : list string;
  tags : list string;
  publisher : string;
  pubdate : string;
  languages : list string;
  timestamp : spec_float;
}.
End BookMetadata.

(** A value written by [set_field]: a string, a list of strings, or the
    [datetime] built by [strptime] (year, month, day at midnight). *)
Inductive value :=
| VStr (s : string)
| VList (l : list string)
| VDate (year month day : Z).

(** ** The external world: events and the database oracle *)

Inductive msgbox_icon := Information | Warning | Critical.

Inductive event :=
(* calls into the calibre database, through [BookManager] *)
| CMultisort (ascending : bool)
| CSearch (query : string)
| CAllFieldFor (field : string) (book_ids : list Z)
| CCover (book_id : Z)
| CGetCategories (category : string)
| CRemoveBooks (book_ids : gset Z) (permanent : bool)
| CSetField (field : string) (book_id : Z) (v : value)
| CStartBulkUpdate
| CEndBulkUpdate
(* signals of [UpdateWorker] *)
| SProgress (percent : Z)
| SFinished (success : bool) (error_msg : string)
(* dialogs shown to the user *)
| QMessageBox (icon : msgbox_icon) (text_key : string) (detail : string)
| QTrashDialog.

Definition is_search (ev : event) : bool :=
  match ev with CSearch _ => true | _ => false end.

Definition is_engine_call (ev : event) : bool :=
  match ev with
  | SProgress _ | SFinished _ _ | QMessageBox _ _ _ | QTrashDialog => false
  | _ => true
  end.

Definition is_error_report (ev : event) : bool :=
  match ev with
  | QMessageBox Critical _ _ | QMessageBox Warning _ _ => true
  | _ => false
  end.

(** The database as the program sees it.  Every operation is given the
    events so far and either answers or raises.  The two bulk-update
    brackets are optional attributes of the cache ([hasattr]); their
    events record the call of the [BookManager] method, which consults
    the cache only when the attribute exists.
    [get_categories h c] stands for the sorted names of category [c].
    [all_field_for] is split by field, with the type of value the program
    expects: where it guards against [None] (timestamp, publisher,
    pubdate) the value is optional, elsewhere it is not. *)
Module Cache.
Record Engine := {
  multisort : list event → bool → result (list Z);
  search : list event → string → result (gset Z);
  all_field_for_title : list event → list Z → result (gmap Z string);
  all_field_for_authors : list event → list Z → result (gmap Z (list string));
  all_field_for_tags : list event → list Z → result (gmap Z (list string));
  all_field_for_timestamp : list event → list Z → result (gmap Z (option datetime));
  all_field_for_publisher : list event → list Z → result (gmap Z (option string));
  all_field_for_pubdate : list event → list Z → result (gmap Z (option datetime));
  all_field_for_languages : list event → list Z → result (gmap Z (list lang_item));
  cover : list event → Z → result (option string);
  get_categories : list event → string → result (list string);
  remove_books : list event → gset Z → bool → result unit;
  set_field : list event → string → Z → value → result unit;
  start_bulk_update : option (list event → result unit);
  end_bulk_update : option (list event → result unit);
}.
End Cache.
Abbreviation Engine := Cache.Engine.

(** ** A state and exception monad

    The state is the program's own state [W] together with the trace of
    events.  An exception leaves the state as it was when it was raised. *)

Record world (W : Type) := World { win : W; trace : list event }.
Arguments World {W} win trace.
Arguments win {W} w.
Arguments trace {W} w.

Definition M (W A : Type) : Type := world W → world W * result A.

Section Monad.
Context {W : Type}.

#[export] Instance M_ret : MRet (M W) := λ A a w, (w, Ok a).

#[export] Instance M_bind : MBind (M W) := λ A B f m w,
  match m w with
  | (w', Ok a) => f a w'
  | (w', Raise msg) => (w', Raise msg)
  end.

Definition raise {A} (msg : string) : M W A := λ w, (w, Raise msg).

(** [try: body  except Exception as e: handler e] (also the bare [except:]) *)
Definition try_except {A} (body : M W A) (handler : string → M W A) : M W A :=
  λ w, match body w with
       | (w', Ok a) => (w', Ok a)
       | (w', Raise msg) => handler msg w'
       end.

(** [try: body  finally: final] *)
Definition try_finally {A} (body : M W A) (final : M W unit) : M W A :=
  λ w, match body w with
       | (w', r) =>
           match final w' with
           | (w'', Ok _) => (w'', r)
           | (w'', Raise msg) => (w'', Raise msg)
           end
       end.

(** [for x in xs: body x] *)
Fixpoint for_each {A} (body : A → M W unit) (xs : list A) : M W unit :=
  match xs with
  | [] => mret tt
  | x :: rest => body x ;; for_each body rest
  end.

Definition get_win : M W W := λ w, (w, Ok (win w)).
Definition modify (f : W → W) : M W unit :=
  λ w, (World (f (win w)) (trace w), Ok tt).

(** Record an event that cannot fail (a signal, a dialog). *)
Definition emit (ev : event) : M W unit :=
  λ w, (World (win w) (trace w ++ [ev]), Ok tt).

(** Call the database: the oracle answers from the events so far, and
    the call is recorded whether it returns or raises. *)
Definition call {A} (ev : event) (answer : list event → result A) : M W A :=
  λ w, (World (win w) (trace w ++ [ev]), answer (trace w)).

(** Lift a pure Python expression that may raise. *)
Definition lift {A} (r : result A) : M W A := λ w, (w, r).
End Monad.

(** [enumerate(xs)] *)
Fixpoint enumerate_from {A} (i : Z) (xs : list A) : list (Z * A) :=
  match xs with
  | [] => []
  | x :: rest => (i, x) :: enumerate_from (i + 1) rest
  end.
Definition enumerate {A} (xs : list A) : list (Z * A) := enumerate_from 0 xs.

(** ** [datetime.strptime(v, '%Y-%m-%d')]

    The format compiles to the regular expression
    [(\d\d\d\d)-(1[0-2]|0[1-9]|[1-9])-(3[0-1]|[1-2]\d|0[1-9]|[1-9]| [1-9])],
    matched at the start of the string; text left over after the match
    and a day that does not exist in the month are errors.  The digits
    are the ASCII digits: the other decimal digits that [\d] accepts in
    a Python [str] are not represented. *)

Module Strptime.

Definition code (c : ascii) : Z := Z.of_N (N_of_ascii c).
Definition between (lo hi : Z) (c : ascii) : bool :=
  (lo <=? code c) && (code c <=? hi).
Definition isdigit (c : ascii) : bool := between 48 57 c.
Definition digit (c : ascii) : Z := code c - 48.
Definition is_char (n : Z) (c : ascii) : bool := code c =? n.

(** A regular-expression piece: the value it reads and the rest. *)
Definition piece := string → option (Z * string).

(** Alternation followed by [k]: the first alternative after which
    [k] succeeds. *)
Fixpoint first_match {R} (alts : list piece) (s : string)
    (k : Z → string → option R) : option R :=
  match alts with
  | [] => None
  | alt :: rest =>
      match alt s with
      | Some (v, s') =>
          match k v s' with
          | Some r => Some r
          | None => first_match rest s k
          end
      | None => first_match rest s k
      end
  end.

(** Two characters [a b] with [pa a] and [pb b], read as a number. *)
Definition two (pa pb : ascii → bool) (val : ascii → ascii → Z) : piece :=
  λ s, match s with
       | String a (String b rest) =>
           if pa a && pb b then Some (val a b, rest) else None
       | _ => None
       end.
Definition one (pa : ascii → bool) : piece :=
  λ s, match s with
       | String a rest => if pa a then Some (digit a, rest) else None
       | _ => None
       end.
Definition decimal (a b : ascii) : Z := 10 * digit a + digit b.

Definition year : piece :=
  λ s, match s with
       | String a (String b (String c (String d rest))) =>
           if isdigit a && isdigit b && isdigit c && isdigit d
           then Some (1000 * digit a + 100 * digit b + 10 * digit c + digit d, rest)
           else None
       | _ => None
       end.

Definition month_alts : list piece :=
  [ two (is_char 49) (between 48 50) decimal;
    two (is_char 48) (between 49 57) decimal;
    one (between 49 57) ].

Definition day_alts : list piece :=
  [ two (is_char 51) (between 48 49) decimal;
    two (between 49 50) isdigit decimal;
    two (is_char 48) (between 49 57) decimal;
    one (between 49 57);
    two (is_char 32) (between 49 57) (λ _ b, digit b) ].

Definition dash (s : string) : option string :=
  match s with
  | String c rest => if is_char 45 c then Some rest else None
  | _ => None
  end.

(** The match of the whole expression: year, month, day and the text
    left over. *)
Definition regex_match (s : string) : option (Z * Z * Z * string) :=
  '(y, s1) ← year s;
  s2 ← dash s1;
  first_match month_alts s2 (λ m s3,
    s4 ← dash s3;
    first_match day_alts s4 (λ d s5, Some (y, m, d, s5))).

Definition is_leap (y : Z) : bool :=
  (y mod 4 =? 0) && (negb (y mod 100 =? 0) || (y mod 400 =? 0)).

Definition days_in_month (y m : Z) : Z :=
  if m =? 2 then (if is_leap y then 29 else 28)
  else if (m =? 4) || (m =? 6) || (m =? 9) || (m =? 11) then 30
  else 31.

(** [datetime.strptime(s, '%Y-%m-%d')] on a string: the date, or
    [ValueError]. *)
Definition strptime_ymd (s : string) : result (Z * Z * Z) :=
  match regex_match s with
  | None => Raise "time data does not match format"
  | Some (y, m, d, rest) =>
      if truthy rest then Raise "unconverted data remains"
      else if (1 <=? y) && (y <=? 9999) && (d <=? days_in_month y m)
      then Ok (y, m, d)
      else Raise "day is out of range for month"
  end.

(** [datetime.strptime(v, '%Y-%m-%d')] on any value: a non-string is a
    [TypeError]. *)
Definition strptime (v : value) : result value :=
  match v with
  | VStr s =>
      match strptime_ymd s with
      | Ok (y, m, d) => Ok (VDate y m d)
      | Raise msg => Raise msg
      end
  | _ => Raise "strptime() argument 1 must be str"
  end.

End Strptime.

(** ** Floating point: [int((i + 1) / total * 100)]

    Python floats are binary64; the operations are those of [SpecFloat]
    at precision 53.  The conversion of an [int] is exact below 2^53. *)

Module Float.

Definition prec : Z := 53.
Definition emax : Z := 1024.

Definition of_int (n : Z) : spec_float := binary_normalize prec emax n 0 false.

(** [a / b] on two ints *)
Definition true_div (a b : Z) : result spec_float :=
  if b =? 0 then Raise "division by zero"
  else Ok (SFdiv prec emax (of_int a) (of_int b)).

(** [x * n] with [n] an int *)
Definition mul_int (x : spec_float) (n : Z) : spec_float :=
  SFmul prec emax x (of_int n).

(** [int(x)]: truncation towards zero *)
Definition to_int (x : spec_float) : result Z :=
  match x with
  | S754_zero _ => Ok 0
  | S754_finite s m e =>
      let a := if 0 <=? e then Z.pos m * 2 ^ e else Z.pos m `div` 2 ^ (- e) in
      Ok (if s then - a else a)
  | S754_infinity _ => Raise "cannot convert float infinity to integer"
  | S754_nan => Raise "cannot convert float NaN to integer"
  end.

(** [int(k / total * 100)] *)
Definition percent (k total : Z) : result Z :=
  match true_div k total with
  | Ok q => to_int (mul_int q 100)
  | Raise msg => Raise msg
  end.

End Float.

(** ** [BookManager] *)

Module BookManager.
Section BookManager.
Context {W : Type} (cache : Engine).

(** [get_book_ids_sorted_by_timestamp]: [multisort] takes the ascending
    flag, so descending is passed negated. *)
Definition get_book_ids_sorted_by_timestamp (descending : bool) : M W (list Z) :=
  call (CMultisort (negb descending))
       (λ h, Cache.multisort cache h (negb descending)).

(** [x or default] on an optional string *)
Definition or_empty (x : option string) : string :=
  match x with
  | Some s => if truthy s then s else EmptyString
  | None => EmptyString
  end.

(** One entry of the result of [get_metadata_batch]. *)
Definition metadata_entry
    (titles : gmap Z string) (authors tags : gmap Z (list string))
    (timestamps : gmap Z (option datetime))
    (publishers : gmap Z (option string))
    (pubdates : gmap Z (option datetime))
    (languages : gmap Z (list lang_item)) (book_id : Z) : BookMetadata.t :=
  let ts := mjoin (timestamps !! book_id) in
  let pd := mjoin (pubdates !! book_id) in
  {| BookMetadata.id := book_id;
     BookMetadata.title := default EmptyString (titles !! book_id);
     BookMetadata.authors := default [] (authors !! book_id);
     BookMetadata.tags := default [] (tags !! book_id);
     BookMetadata.publisher :=
       or_empty (default (Some EmptyString) (publishers !! book_id));
     BookMetadata.pubdate :=
       match pd with Some d => strftime_ymd d | None => EmptyString end;
     BookMetadata.languages := lang_name <$> default [] (languages !! book_id);
     BookMetadata.timestamp := match ts with
                  | Some d => posix_timestamp d
                  | None => S754_zero false
                  end |}.

Definition get_metadata_batch (book_ids : list Z) : M W (gmap Z BookMetadata.t) :=
  match book_ids with
  | [] => mret ∅
  | _ =>
      titles ← call (CAllFieldFor "title" book_ids)
                    (λ h, Cache.all_field_for_title cache h book_ids);
      authors ← call (CAllFieldFor "authors" book_ids)
                     (λ h, Cache.all_field_for_authors cache h book_ids);
      tags ← call (CAllFieldFor "tags" book_ids)
                  (λ h, Cache.all_field_for_tags cache h book_ids);
      timestamps ← call (CAllFieldFor "timestamp" book_ids)
                        (λ h, Cache.all_field_for_timestamp cache h book_ids);
      publishers ← call (CAllFieldFor "publisher" book_ids)
                        (λ h, Cache.all_field_for_publisher cache h book_ids);
      pubdates ← call (CAllFieldFor "pubdate" book_ids)
                      (λ h, Cache.all_field_for_pubdate cache h book_ids);
      languages ← call (CAllFieldFor "languages" book_ids)
                       (λ h, Cache.all_field_for_languages cache h book_ids);
      mret (foldl (λ (result : gmap Z BookMetadata.t) book_id,
                     <[book_id :=
                         metadata_entry titles authors tags timestamps
                                        publishers pubdates languages book_id]>
                       result)
                  ∅ book_ids)
  end.

Definition get_cover (book_id : Z) : M W (option string) :=
  call (CCover book_id) (λ h, Cache.cover cache h book_id).

Definition search (query : string) : M W (gset Z) :=
  call (CSearch query) (λ h, Cache.search cache h query).

(** [set_field(field_name, {book_id: val})], as every caller uses it. *)
Definition set_field (field_name : string) (book_id : Z) (val : value) : M W unit :=
  call (CSetField field_name book_id val)
       (λ h, Cache.set_field cache h field_name book_id val).

Definition delete_books (book_ids : list Z) (permanent : bool) : M W unit :=
  call (CRemoveBooks (list_to_set book_ids) permanent)
       (λ h, Cache.remove_books cache h (list_to_set book_ids) permanent).

Definition start_bulk_update : M W unit :=
  call CStartBulkUpdate
       (λ h, match Cache.start_bulk_update cache with
             | Some f => f h
             | None => Ok tt
             end).

Definition end_bulk_update : M W unit :=
  call CEndBulkUpdate
       (λ h, match Cache.end_bulk_update cache with
             | Some f => f h
             | None => Ok tt
             end).

Definition get_all_languages : M W (list string) :=
  call (CGetCategories "languages") (λ h, Cache.get_categories cache h "languages").

Definition get_all_tags : M W (list string) :=
  call (CGetCategories "tags") (λ h, Cache.get_categories cache h "tags").
End BookManager.
End BookManager.

(** ** [UpdateWorker] *)

Module UpdateWorker.
Section UpdateWorker.
Context {W : Type} (manager : Engine).

(** The body of [for f, v in self.updates.items()]. *)
Definition update_field (bid : Z) (fv : string * value) : M W unit :=
  let '(f, v) := fv in
  if String.eqb f "pubdate" then
    try_except
      (dt ← lift (Strptime.strptime v);
       BookManager.set_field manager f bid dt)
      (λ _, mret tt)
  else BookManager.set_field manager f bid v.

(** The body of [for i, bid in enumerate(self.bids)]. *)
Definition update_book (updates : list (string * value)) (total : Z)
    (ib : Z * Z) : M W unit :=
  let '(i, bid) := ib in
  for_each (update_field bid) updates ;;
  p ← lift (Float.percent (i + 1) total);
  emit (SProgress p).

Definition run (bids : list Z) (updates : list (string * value)) : M W unit :=
  try_except
    (BookManager.start_bulk_update manager ;;
     try_finally
       (let total := Z.of_nat (length bids) in
        for_each (update_book updates total) (enumerate bids))
       (BookManager.end_bulk_update manager) ;;
     emit (SFinished true EmptyString))
    (λ e, emit (SFinished false e)).
End UpdateWorker.
End UpdateWorker.

(** ** [MainWindow]: the catalog view controller *)

Module MainWindow.

(** A [QComboBox], by the data of its items and the current index
    ([-1] when there is none). *)
Record ComboBox := { combo_items : list string; combo_index : Z }.

(** The attributes of [MainWindow] the controller reads and writes.
    The library is open ([self.manager] is set).  [_pixmap_cache] maps
    the key [bid] ([inl bid]) and the key [thumb_<bid>] ([inr bid]) to
    the cover the image was decoded from.  [tag_filter] is the
    [CheckableComboBox]: the data of each item and whether it is checked.
    The table widget and the labels are output only and not represented. *)
Record MainWindow := {
  books : gmap Z BookMetadata.t;
  sorted_book_ids : list Z;
  filtered_ids : list Z;
  current_page : Z;
  total_pages : Z;
  valid_tags : gset string;
  _pixmap_cache : gmap (Z + Z) string;
  _search_ids_cache : gmap string (gset Z);
  _cached_sorted_ids : option (list Z);
  search_edit : string;
  lang_filter : ComboBox;
  tag_filter : list (string * bool);
}.

Definition set_books (v : gmap Z BookMetadata.t) (w : MainWindow) : MainWindow :=
  {| books := v; sorted_book_ids := sorted_book_ids w;
     filtered_ids := filtered_ids w; current_page := current_page w;
     total_pages := total_pages w; valid_tags := valid_tags w;
     _pixmap_cache := _pixmap_cache w;
     _search_ids_cache := _search_ids_cache w;
     _cached_sorted_ids := _cached_sorted_ids w; search_edit := search_edit w;
     lang_filter := lang_filter w; tag_filter := tag_filter w |}.

Definition set_sorted_book_ids (v : list Z) (w : MainWindow) : MainWindow :=
  {| books := books w; sorted_book_ids := v; filtered_ids := filtered_ids w;
     current_page := current_page w; total_pages := total_pages w;
     valid_tags := valid_tags w; _pixmap_cache := _pixmap_cache w;
     _search_ids_cache := _search_ids_cache w;
     _cached_sorted_ids := _cached_sorted_ids w; search_edit := search_edit w;
     lang_filter := lang_filter w; tag_filter := tag_filter w |}.

Definition set_filtered_ids (v : list Z) (w : MainWindow) : MainWindow :=
  {| books := books w; sorted_book_ids := sorted_book_ids w;
     filtered_ids := v; current_page := current_page w;
     total_pages := total_pages w; valid_tags := valid_tags w;
     _pixmap_cache := _pixmap_cache w;
     _search_ids_cache := _search_ids_cache w;
     _cached_sorted_ids := _cached_sorted_ids w; search_edit := search_edit w;
     lang_filter := lang_filter w; tag_filter := tag_filter w |}.

Definition set_current_page (v : Z) (w : MainWindow) : MainWindow :=
  {| books := books w; sorted_book_ids := sorted_book_ids w;
     filtered_ids := filtered_ids w; current_page := v;
     total_pages := total_pages w; valid_tags := valid_tags w;
     _pixmap_cache := _pixmap_cache w;
     _search_ids_cache := _search_ids_cache w;
     _cached_sorted_ids := _cached_sorted_ids w; search_edit := search_edit w;
     lang_filter := lang_filter w; tag_filter := tag_filter w |}.

Definition set_total_pages (v : Z) (w : MainWindow) : MainWindow :=
  {| books := books w; sorted_book_ids := sorted_book_ids w;
     filtered_ids := filtered_ids w; current_page := current_page w;
     total_pages := v; valid_tags := valid_tags w;
     _pixmap_cache := _pixmap_cache w;
     _search_ids_cache := _search_ids_cache w;
     _cached_sorted_ids := _cached_sorted_ids w; search_edit := search_edit w;
     lang_filter := lang_filter w; tag_filter := tag_filter w |}.

Definition set_valid_tags (v : gset string) (w : MainWindow) : MainWindow :=
  {| books := books w; sorted_book_ids := sorted_book_ids w;
     filtered_ids := filtered_ids w; current_page := current_page w;
     total_pages := total_pages w; valid_tags := v;
     _pixmap_cache := _pixmap_cache w;
     _search_ids_cache := _search_ids_cache w;
     _cached_sorted_ids := _cached_sorted_ids w; search_edit := search_edit w;
     lang_filter := lang_filter w; tag_filter := tag_filter w |}.

Definition set_pixmap_cache (v : gmap (Z + Z) string) (w : MainWindow) : MainWindow :=
  {| books := books w; sorted_book_ids := sorted_book_ids w;
     filtered_ids := filtered_ids w; current_page := current_page w;
     total_pages := total_pages w; valid_tags := valid_tags w;
     _pixmap_cache := v; _search_ids_cache := _search_ids_cache w;
     _cached_sorted_ids := _cached_sorted_ids w; search_edit := search_edit w;
     lang_filter := lang_filter w; tag_filter := tag_filter w |}.

Definition set_search_ids_cache (v : gmap string (gset Z)) (w : MainWindow) : MainWindow :=
  {| books := books w; sorted_book_ids := sorted_book_ids w;
     filtered_ids := filtered_ids w; current_page := current_page w;
     total_pages := total_pages w; valid_tags := valid_tags w;
     _pixmap_cache := _pixmap_cache w; _search_ids_cache := v;
     _cached_sorted_ids := _cached_sorted_ids w; search_edit := search_edit w;
     lang_filter := lang_filter w; tag_filter := tag_filter w |}.

Definition set_cached_sorted_ids (v : option (list Z)) (w : MainWindow) : MainWindow :=
  {| books := books w; sorted_book_ids := sorted_book_ids w;
     filtered_ids := filtered_ids w; current_page := current_page w;
     total_pages := total_pages w; valid_tags := valid_tags w;
     _pixmap_cache := _pixmap_cache w;
     _search_ids_cache := _search_ids_cache w; _cached_sorted_ids := v;
     search_edit := search_edit w; lang_filter := lang_filter w;
     tag_filter := tag_filter w |}.

Definition set_lang_filter (v : ComboBox) (w : MainWindow) : MainWindow :=
  {| books := books w; sorted_book_ids := sorted_book_ids w;
     filtered_ids := filtered_ids w; current_page := current_page w;
     total_pages := total_pages w; valid_tags := valid_tags w;
     _pixmap_cache := _pixmap_cache w;
     _search_ids_cache := _search_ids_cache w;
     _cached_sorted_ids := _cached_sorted_ids w; search_edit := search_edit w;
     lang_filter := v; tag_filter := tag_filter w |}.

Definition set_tag_filter (v : list (string * bool)) (w : MainWindow) : MainWindow :=
  {| books := books w; sorted_book_ids := sorted_book_ids w;
     filtered_ids := filtered_ids w; current_page := current_page w;
     total_pages := total_pages w; valid_tags := valid_tags w;
     _pixmap_cache := _pixmap_cache w;
     _search_ids_cache := _search_ids_cache w;
     _cached_sorted_ids := _cached_sorted_ids w; search_edit := search_edit w;
     lang_filter := lang_filter w; tag_filter := v |}.

(** [QComboBox.currentData()] *)
Definition currentData (c : ComboBox) : option string :=
  if combo_index c <? 0 then None
  else combo_items c !! Z.to_nat (combo_index c).

(** [QComboBox.findData(data)]: the index of the first item carrying
    [data], or [-1]. *)
Definition findData (c : ComboBox) (data : option string) : Z :=
  match data with
  | None => -1
  | Some d =>
      match list_find (λ x, x = d) (combo_items c) with
      | Some (i, _) => Z.of_nat i
      | None => -1
      end
  end.

(** [CheckableComboBox.currentData()]: the data of the checked items. *)
Definition checkedData (c : list (string * bool)) : list string :=
  fst <$> filter (λ it, it.2 = true) c.

(** [CheckableComboBox.setCheckedItems(targets)] *)
Definition setCheckedItems (targets : list string) (c : list (string * bool))
    : list (string * bool) :=
  (λ it, (it.1, bool_decide (it.1 ∈ targets))) <$> c.

(** The three inputs of the filter: the stripped search text, the data of
    the language combo box and the checked tag items. *)
Record FilterQuery := {
  search : string;
  lang_target : option string;
  tag_targets : list string;
}.

Definition current_query (filter_text : option string) (w : MainWindow)
    : FilterQuery :=
  {| search := strip (default (search_edit w) filter_text);
     lang_target := currentData (lang_filter w);
     tag_targets := checkedData (tag_filter w) |}.

(** *** The canonical query string (lines 583-592) *)

Definition text_clause (search : string) : string :=
  "(title:" +:+ quoted ("~" +:+ search)
  +:+ " or authors:" +:+ quoted ("~" +:+ search)
  +:+ " or tags:" +:+ quoted ("~" +:+ search)
  +:+ " or publisher:" +:+ quoted ("~" +:+ search) +:+ ")".

Definition lang_clause (lang_target : option string) : list string :=
  match lang_target with
  | Some l =>
      if truthy l && negb (String.eqb l "all")
      then [if String.eqb l "none" then "languages:false"
            else "languages:" +:+ quoted ("=" +:+ l)]
      else []
  | None => []
  end.

Definition tag_clause (t : string) : list string :=
  if String.eqb t "none" then ["tags:false"]
  else if negb (String.eqb t "invalid") then ["tags:" +:+ quoted ("=" +:+ t)]
  else [].

Definition clauses (q : FilterQuery) : list string :=
  (if truthy (search q) then [text_clause (search q)] else [])
  ++ lang_clause (lang_target q)
  ++ (tag_targets q ≫= tag_clause).

Definition final_q (q : FilterQuery) : string := join " and " (clauses q).

(** *** Filtering (lines 594-609) *)

(** [[bid for bid in self.sorted_book_ids if bid in matched]] *)
Definition intersect_sorted (sorted : list Z) (matched : gset Z) : list Z :=
  filter (λ bid, bid ∈ matched) sorted.

(** [any(t not in self.valid_tags for t in tag_map.get(bid, ()))] *)
Definition has_invalid_tag (valid : gset string)
    (tag_map : gmap Z (list string)) (bid : Z) : Prop :=
  Exists (λ t, t ∉ valid) (default [] (tag_map !! bid)).

#[export] Instance has_invalid_tag_dec valid tag_map bid :
  Decision (has_invalid_tag valid tag_map bid).
Proof. unfold has_invalid_tag. apply _. Defined.

(** The reason of an invalidation, and the statements that clear the
    caches in [delete_selected] (lines 768-772), [browse_trash]
    (lines 783-784) and the edit completion callback (line 838). *)
Inductive reason := Delete (bids : list Z) | Restore | Edit.

Definition pop_covers (bids : list Z) (c : gmap (Z + Z) string)
    : gmap (Z + Z) string :=
  foldl (λ c bid, delete (inr bid) (delete (inl bid) c)) c bids.

Definition invalidate (r : reason) (w : MainWindow) : MainWindow :=
  match r with
  | Delete bids =>
      set_pixmap_cache (pop_covers bids (_pixmap_cache w))
        (set_search_ids_cache ∅ (set_cached_sorted_ids None w))
  | Restore => set_search_ids_cache ∅ (set_cached_sorted_ids None w)
  | Edit => set_search_ids_cache ∅ w
  end.

Section Controller.
Context (manager : Engine).

(** The first [if]/[elif]/[else] of the [try] block: the whole index,
    a cached match-set, or a search whose answer is cached. *)
Definition search_stage (q : FilterQuery) : M MainWindow unit :=
  let final_q := final_q q in
  w ← get_win;
  if negb (truthy final_q) then
    modify (set_filtered_ids (sorted_book_ids w))
  else
    match _search_ids_cache w !! final_q with
    | Some matched =>
        modify (set_filtered_ids (intersect_sorted (sorted_book_ids w) matched))
    | None =>
        matched ← BookManager.search manager final_q;
        modify (λ w, set_search_ids_cache
                       (<[final_q := matched]> (_search_ids_cache w)) w) ;;
        modify (set_filtered_ids (intersect_sorted (sorted_book_ids w) matched))
    end.

(** The second [if] of the [try] block: the local filter for the
    [invalid] tag item. *)
Definition invalid_stage (q : FilterQuery) : M MainWindow unit :=
  if bool_decide ("invalid" ∈ tag_targets q) then
    w ← get_win;
    tag_map ← call (CAllFieldFor "tags" (filtered_ids w))
                   (λ h, Cache.all_field_for_tags manager h (filtered_ids w));
    modify (set_filtered_ids
              (filter (has_invalid_tag (valid_tags w) tag_map) (filtered_ids w)))
  else mret tt.

Definition filter_body (q : FilterQuery) : M MainWindow unit :=
  search_stage q ;; invalid_stage q.

(** [try: ... except: self.filtered_ids = []] *)
Definition apply_filter (q : FilterQuery) : M MainWindow unit :=
  try_except (filter_body q) (λ _, modify (set_filtered_ids [])).

Definition get_cover_pixmap (bid : Z) : M MainWindow (option string) :=
  w ← get_win;
  match _pixmap_cache w !! inl bid with
  | Some pix => mret (Some pix)
  | None =>
      try_except
        (d ← BookManager.get_cover manager bid;
         match d with
         | Some data =>
             if truthy data then
               modify (λ w, set_pixmap_cache (<[inl bid := data]> (_pixmap_cache w)) w) ;;
               mret (Some data)
             else mret None
         | None => mret None
         end)
        (λ _, mret None)
  end.

(** The cache effects of drawing one row (lines 618-642). *)
Definition render_row (bid : Z) : M MainWindow unit :=
  w ← get_win;
  match books w !! bid with
  | None => mret tt
  | Some _ =>
      pix ← get_cover_pixmap bid;
      match pix with
      | Some data =>
          modify (λ w, match _pixmap_cache w !! inr bid with
                       | Some _ => w
                       | None => set_pixmap_cache
                                   (<[inr bid := data]> (_pixmap_cache w)) w
                       end)
      | None => mret tt
      end
  end.

Definition refresh_table (filter_text : option string) : M MainWindow unit :=
  w ← get_win;
  apply_filter (current_query filter_text w) ;;
  w ← get_win;
  let '(total, page, page_ids) := paginate (filtered_ids w) (current_page w) in
  modify (set_total_pages total) ;;
  modify (set_current_page page) ;;
  metas ← BookManager.get_metadata_batch manager page_ids;
  modify (set_books metas) ;;
  for_each render_row page_ids.

(** [_update_filter_options].  A combo box that was cleared selects its
    first item again when that item is added. *)
Definition _update_filter_options : M MainWindow unit :=
  w ← get_win;
  let curr_l := currentData (lang_filter w) in
  let curr_t := checkedData (tag_filter w) in
  modify (set_lang_filter {| combo_items := ["all"; "none"]; combo_index := 0 |}) ;;
  langs ← BookManager.get_all_languages manager;
  modify (set_lang_filter
            {| combo_items := ["all"; "none"] ++ langs; combo_index := 0 |}) ;;
  modify (set_tag_filter []) ;;
  all_tags ← BookManager.get_all_tags manager;
  modify (set_valid_tags (list_to_set all_tags)) ;;
  modify (set_tag_filter ((λ t, (t, false)) <$> ("none" :: "invalid" :: all_tags))) ;;
  modify (λ w, let idx := findData (lang_filter w) curr_l in
               if 0 <=? idx
               then set_lang_filter
                      {| combo_items := combo_items (lang_filter w);
                         combo_index := idx |} w
               else w) ;;
  match curr_t with
  | [] => mret tt
  | _ => modify (λ w, set_tag_filter (setCheckedItems curr_t (tag_filter w)) w)
  end.

(** The first block of [load_books] (lines 541-546): the index is
    fetched again unless one is kept and [keep_page] asks to reuse it. *)
Definition refresh_index (keep_page : bool) : M MainWindow unit :=
  w ← get_win;
  match _cached_sorted_ids w with
  | Some cached =>
      if keep_page then modify (set_sorted_book_ids cached)
      else
        ids ← BookManager.get_book_ids_sorted_by_timestamp manager true;
        modify (set_sorted_book_ids ids) ;;
        modify (set_cached_sorted_ids (Some ids)) ;;
        modify (set_search_ids_cache ∅)
  | None =>
      ids ← BookManager.get_book_ids_sorted_by_timestamp manager true;
      modify (set_sorted_book_ids ids) ;;
      modify (set_cached_sorted_ids (Some ids)) ;;
      modify (set_search_ids_cache ∅)
  end.

Definition load_books (keep_page : bool) : M MainWindow unit :=
  try_except
    (refresh_index keep_page ;;
     modify (λ w, set_filtered_ids (sorted_book_ids w) w) ;;
     (if keep_page then mret tt else modify (set_current_page 0)) ;;
     _update_filter_options ;;
     refresh_table None)
    (λ e, emit (QMessageBox Critical "msg_load_failed" e)).

Definition prev_page : M MainWindow unit :=
  w ← get_win;
  if 0 <? current_page w
  then modify (set_current_page (current_page w - 1)) ;; refresh_table None
  else mret tt.

Definition next_page : M MainWindow unit :=
  w ← get_win;
  if current_page w <? total_pages w - 1
  then modify (set_current_page (current_page w + 1)) ;; refresh_table None
  else mret tt.

(** [delete_selected], given the selected books and the answer to the
    confirmation dialog. *)
Definition delete_selected (sel : list BookMetadata.t) (reply_yes : bool)
    : M MainWindow unit :=
  match sel with
  | [] => emit (QMessageBox Warning "msg_no_selection" EmptyString)
  | _ =>
      if reply_yes then
        try_except
          (let bids := BookMetadata.id <$> sel in
           BookManager.delete_books manager bids false ;;
           modify (invalidate (Delete bids)) ;;
           emit (QMessageBox Information "msg_delete_success" EmptyString) ;;
           load_books false)
          (λ e, emit (QMessageBox Critical "msg_delete_failed" e))
      else mret tt
  end.

(** [browse_trash], as the window sees it.  The dialog ([TrashDialog],
    which lists the trash of the library and restores books from it) is
    one event: what it asks of the library and what it writes there is
    not followed in this file.  When the dialog has closed the caches
    are dropped and the books are loaded again. *)
Definition browse_trash : M MainWindow unit :=
  emit QTrashDialog ;;
  modify (invalidate Restore) ;;
  load_books false.

(** The callback [on_finished] of [_do_edit]. *)
Definition on_finished (success : bool) (error_msg : string)
    : M MainWindow unit :=
  if success then
    modify (invalidate Edit) ;;
    load_books true ;;
    emit (QMessageBox Information "msg_update_success" EmptyString)
  else emit (QMessageBox Critical "msg_update_failed" error_msg).
End Controller.

End MainWindow.

(** ** [EditDialog]

    The dialog by the widgets [get_updates] reads.  [setup_ui] gives
    their state when the dialog opens; texts are taken to fit a line
    edit.  What the user does to the dialog is a change of that state. *)

Module EditDialog.
Import MainWindow.

Definition LANGUAGE_MAP : list (string * string) :=
  [("英语", "eng"); ("中文", "zho"); ("法语", "fra"); ("日语", "jpn");
   ("德语", "deu")].

(** [s.split(',')] *)
Fixpoint split_comma (s : string) : list string :=
  match s with
  | EmptyString => [EmptyString]
  | String c rest =>
      if Ascii.eqb c ","%char then EmptyString :: split_comma rest
      else match split_comma rest with
           | p :: ps => String c p :: ps
           | [] => [String c EmptyString]
           end
  end.

(** The language box of the dialog: a [QComboBox] whose first item
    carries no data. *)
Record DataCombo := { data_items : list (option string); data_index : Z }.

Definition currentData (c : DataCombo) : option string :=
  if data_index c <? 0 then None
  else mjoin (data_items c !! Z.to_nat (data_index c)).

Definition findData (c : DataCombo) (data : string) : Z :=
  match list_find (λ x, x = Some data) (data_items c) with
  | Some (i, _) => Z.of_nat i
  | None => -1
  end.

(** The widgets of the dialog that [get_updates] reads.  [tags_changed]
    is the flag [_changed] of the tag box. *)
Record t := {
  books : list BookMetadata.t;
  title_edit : string;
  authors_edit : string;
  publisher_edit : string;
  pubdate_edit : string;
  lang_combo : DataCombo;
  tags_combo : list (string * bool);
  tags_changed : bool;
}.

(** The items of the language box: no change, the five languages of
    [LANGUAGE_MAP], and the languages of the library that are neither a
    code nor a name of that map. *)
Definition lang_items (all_languages : list string) : list (option string) :=
  let codes := LANGUAGE_MAP.*2 in
  let names := LANGUAGE_MAP.*1 in
  None :: ((Some <$> codes)
           ++ (Some <$> filter (λ l, (l ∉ codes) ∧ (l ∉ names)) all_languages)).

Definition setup_ui (books : list BookMetadata.t)
    (all_languages all_tags : list string) : t :=
  let items := lang_items all_languages in
  let combo := {| data_items := items; data_index := 0 |} in
  let tags := (λ t, (t, false)) <$> all_tags in
  match books with
  | [book] =>
      {| books := books;
         title_edit := BookMetadata.title book;
         authors_edit := join ", " (BookMetadata.authors book);
         publisher_edit := BookMetadata.publisher book;
         pubdate_edit := EmptyString;
         lang_combo :=
           match BookMetadata.languages book with
           | current_lang :: _ =>
               if truthy current_lang then
                 let index := findData combo current_lang in
                 if 0 <=? index
                 then {| data_items := items; data_index := index |}
                 else {| data_items := items ++ [Some current_lang];
                         data_index :=
                           Z.of_nat (length (items ++ [Some current_lang])) - 1 |}
               else combo
           | [] => combo
           end;
         tags_combo := setCheckedItems (BookMetadata.tags book) tags;
         tags_changed := false |}
  | _ =>
      {| books := books;
         title_edit := EmptyString;
         authors_edit := EmptyString;
         publisher_edit := EmptyString;
         pubdate_edit := EmptyString;
         lang_combo := combo;
         tags_combo := tags;
         tags_changed := false |}
  end.

(** [CheckableComboBox.eventFilter] on the tag box, for a mouse release
    on the item at row [i]: the check state flips, and the change of the
    item sets the flag ([_on_item_changed], [_update_text]). *)
Definition eventFilter (i : nat) (d : t) : t :=
  match tags_combo d !! i with
  | Some (data, checked) =>
      {| books := books d; title_edit := title_edit d;
         authors_edit := authors_edit d; publisher_edit := publisher_edit d;
         pubdate_edit := pubdate_edit d; lang_combo := lang_combo d;
         tags_combo := <[i := (data, negb checked)]> (tags_combo d);
         tags_changed := true |}
  | None => d
  end.

(** [get_updates]: the dict, as the list of its items in insertion
    order. *)
Definition get_updates (d : t) : list (string * value) :=
  let title := strip (title_edit d) in
  let authors := strip (authors_edit d) in
  let publisher := strip (publisher_edit d) in
  let pubdate := strip (pubdate_edit d) in
  (if truthy title then [("title", VStr title)] else [])
  ++ (if truthy authors
      then [("authors", VList (strip <$> split_comma authors))] else [])
  ++ (if truthy publisher then [("publisher", VStr publisher)] else [])
  ++ (if truthy pubdate then [("pubdate", VStr pubdate)] else [])
  ++ match currentData (lang_combo d) with
     | Some lang => if truthy lang then [("languages", VList [lang])] else []
     | None => []
     end
  ++ (if (length (books d) =? 1)%nat || tags_changed d
      then [("tags", VList (checkedData (tags_combo d)))] else []).

End EditDialog.

(** ** The names of the directories of the trash ([list_trash], lines
    195-203, and [restore_books], lines 269-270)

    The name of a book directory is matched against
    [^(.+)\s+\((\d+)\)$]: a title, white space, and the id in
    parentheses.  The title is the longest one for which the rest
    matches.  White space and digits are those of ASCII. *)

Module Trash.

Definition is_newline (c : ascii) : bool := Strptime.code c =? 10.

(** [$]: the end of the string, or a newline that ends it. *)
Definition at_end (s : string) : bool :=
  match s with
  | EmptyString => true
  | String c EmptyString => is_newline c
  | _ => false
  end.

(** [\d+] read as a number, and the rest. *)
Fixpoint read_digits (acc : Z) (s : string) : Z * string :=
  match s with
  | String c rest =>
      if Strptime.isdigit c then read_digits (10 * acc + Strptime.digit c) rest
      else (acc, s)
  | EmptyString => (acc, s)
  end.

(** [\((\d+)\)$] *)
Definition id_in_parentheses (s : string) : option Z :=
  match s with
  | String "(" (String c rest as digits) =>
      if Strptime.isdigit c then
        match read_digits 0 digits with
        | (n, String ")" rest') => if at_end rest' then Some n else None
        | _ => None
        end
      else None
  | _ => None
  end.

(** [\s+\((\d+)\)$] *)
Definition name_tail (s : string) : option Z :=
  match s with
  | String c rest => if isspace c then id_in_parentheses (lstrip rest) else None
  | EmptyString => None
  end.

(** The whole expression: the groups of the match with the longest
    title. *)
Fixpoint name_match (s : string) : option (string * Z) :=
  match s with
  | EmptyString => None
  | String c rest =>
      if is_newline c then None
      else match name_match rest with
           | Some (title, n) => Some (String c title, n)
           | None =>
               match name_tail rest with
               | Some n => Some (String c EmptyString, n)
               | None => None
               end
           end
  end.

(** The title and the id that [list_trash] takes from the name of a book
    directory, before it looks at the metadata file. *)
Definition title_and_id (name : string) : string * Z :=
  match name_match name with
  | Some (title, n) => (title, n)
  | None => (name, 0)
  end.

End Trash.

(** ** Vocabulary of the properties *)

Import MainWindow.
Local Close Scope string_scope.

(** Events added between two states. *)
Definition new_events {W} (w w' : world W) : list event :=
  drop (length (trace w)) (trace w').

Definition is_multisort (ev : event) : bool :=
  match ev with CMultisort _ => true | _ => false end.

(** The values of the [progress] signals of a trace, in order. *)
Definition progress_values (t : list event) : list Z :=
  omap (λ ev, match ev with SProgress p => Some p | _ => None end) t.

(** The ceiling of [n / d], in the words of the specification: the least
    number [k] of [d]-wide pages that hold [n] items. *)
Definition is_ceil_div (n d k : Z) : Prop := d * (k - 1) < n ≤ d * k.

(** The seven field calls of one metadata batch, in order. *)
Definition batch_calls (ids : list Z) : list event :=
  (λ f, CAllFieldFor f ids) <$>
    ["title"; "authors"; "tags"; "timestamp"; "publisher"; "pubdate";
     "languages"]%string.

(** An entry of the [updates] dict for the date-valued field. *)
Definition is_pubdate (fv : string * value) : Prop := fv.1 = "pubdate"%string.

#[export] Instance is_pubdate_dec fv : Decision (is_pubdate fv).
Proof. unfold is_pubdate. apply _. Defined.

(** The answers of the two bulk-update brackets at history [h]. *)
Definition begin_answer (m : Engine) (h : list event) : result unit :=
  match Cache.start_bulk_update m with Some f => f h | None => Ok tt end.

Definition commit_answer (m : Engine) (h : list event) : result unit :=
  match Cache.end_bulk_update m with Some f => f h | None => Ok tt end.

(** The final signal of the worker, from the outcome of the loop and the
    answer of the commit bracket. *)
Definition report (loop commit : result unit) : event :=
  match commit, loop with
  | Raise e, _ => SFinished false e
  | Ok _, Raise e => SFinished false e
  | Ok _, Ok _ => SFinished true EmptyString
  end.

(** The loop of [UpdateWorker.run], started after the opening bracket. *)
Definition worker_loop {W} (m : Engine) (bids : list Z)
    (updates : list (string * value)) (w : world W) : world W * result unit :=
  for_each (UpdateWorker.update_book m updates (Z.of_nat (length bids)))
           (enumerate bids) (World (win w) (trace w ++ [CStartBulkUpdate])).

(** The result of the local filter for the [invalid] item on the ids left
    by the first stage, when the tags are fetched at history [h]. *)
Definition after_invalid_stage (m : Engine) (q : FilterQuery)
    (valid : gset string) (h : list event) (ids : list Z) : list Z :=
  if bool_decide ("invalid"%string ∈ tag_targets q) then
    match Cache.all_field_for_tags m h ids with
    | Ok tag_map => filter (has_invalid_tag valid tag_map) ids
    | Raise _ => []
    end
  else ids.

(** What follows the index block in [load_books]. *)
Definition after_index (m : Engine) (keep_page : bool) : M MainWindow unit :=
  modify (λ w, set_filtered_ids (sorted_book_ids w) w) ;;
  (if keep_page then mret tt else modify (set_current_page 0)) ;;
  _update_filter_options m ;;
  refresh_table m None.

(** *** Frames and traces of commands *)

(** [frame R m]: every run of [m] leaves the program state related by
    [R] to the one it started from. *)
Definition frame {W A} (R : relation W) (m : M W A) : Prop :=
  ∀ w, R (win w) (win (m w).1).

(** [emits P m]: every run of [m] only appends events, all satisfying [P]. *)
Definition emits {W A} (P : event → Prop) (m : M W A) : Prop :=
  ∀ w, ∃ evs, trace (m w).1 = trace w ++ evs ∧ Forall P evs.

(** Two windows with the same index, kept and working copy. *)
Definition same_index : relation MainWindow := λ w w',
  sorted_book_ids w' = sorted_book_ids w
  ∧ _cached_sorted_ids w' = _cached_sorted_ids w.

(** The index is kept: provided the kept index and the working copy
    agree, neither changes. *)
Definition keeps_index : relation MainWindow := λ w w',
  _cached_sorted_ids w = Some (sorted_book_ids w) → same_index w w'.

(** What the filter reads stays: the index, the tag vocabulary and every
    entry of the search cache.  This is what the absence of an
    invalidation between two calls means. *)
Definition filter_inputs_kept : relation MainWindow := λ w w',
  sorted_book_ids w' = sorted_book_ids w
  ∧ valid_tags w' = valid_tags w
  ∧ ∀ k v, _search_ids_cache w !! k = Some v →
           _search_ids_cache w' !! k = Some v.

Abbreviation no_multisort := (λ ev, is_multisort ev = false).
Abbreviation not_progress :=
  (λ ev, match ev with SProgress _ => False | _ => True end).

(** *** The statements of the specification that the code does not meet,
    at one input *)

(** Two calls with the same canonical query string: the second issues no
    search and gives the same result. *)
Definition C2_as_stated_at (m : Engine) (q1 q2 : FilterQuery)
    (w : world MainWindow) : Prop :=
  final_q q2 = final_q q1 →
  let w1 := (apply_filter m q1 w).1 in
  let w2 := (apply_filter m q2 w1).1 in
  Forall (λ ev, is_search ev = false) (new_events w1 w2)
  ∧ filtered_ids (win w2) = filtered_ids (win w1).

(** The result is the index restricted to the match-set, whatever the
    query. *)
Definition C3_as_stated_at (m : Engine) (q : FilterQuery)
    (w : world MainWindow) (matched : gset Z) : Prop :=
  final_q q ≠ EmptyString →
  _search_ids_cache (win w) !! final_q q = None →
  Cache.search m (trace w) (final_q q) = Ok matched →
  filtered_ids (win (apply_filter m q w).1)
  = filter (λ bid, bid ∈ matched) (sorted_book_ids (win w)).

(** A failing query gives the empty result, reports an error to the user
    and leaves index and caches as they were. *)
Definition C5_as_stated_at (m : Engine) (q : FilterQuery)
    (w : world MainWindow) : Prop :=
  ∀ w1 msg,
    filter_body m q w = (w1, Raise msg) →
    let '(w', r) := apply_filter m q w in
    r = Ok tt
    ∧ filtered_ids (win w') = []
    ∧ Exists (λ ev, is_error_report ev = true) (new_events w w')
    ∧ sorted_book_ids (win w') = sorted_book_ids (win w)
    ∧ _cached_sorted_ids (win w') = _cached_sorted_ids (win w)
    ∧ _search_ids_cache (win w') = _search_ids_cache (win w)
    ∧ _pixmap_cache (win w') = _pixmap_cache (win w).

(** An error that leaves the loop is reported with its own description,
    after the commit bracket was called. *)
Definition C7_as_stated_at {W} (m : Engine) (bids : list Z)
    (updates : list (string * value)) (w : world W) : Prop :=
  ∀ w1 msg,
    begin_answer m (trace w) = Ok tt →
    worker_loop m bids updates w = (w1, Raise msg) →
    trace (UpdateWorker.run m bids updates w).1
    = trace w1 ++ [CEndBulkUpdate; SFinished false msg].

(** ** Sample databases, windows and queries *)

Module Sample.

(** A database with fixed answers to the search, to the tag fetch, to the
    write of a field of a given book and to the commit bracket; everything
    else is empty. *)
Definition database
    (search_answer : result (gset Z))
    (tags_answer : result (gmap Z (list string)))
    (write_answer : Z → result unit)
    (commit_answer : result unit) : Engine := {|
  Cache.multisort := λ _ _, Ok [];
  Cache.search := λ _ _, search_answer;
  Cache.all_field_for_title := λ _ _, Ok ∅;
  Cache.all_field_for_authors := λ _ _, Ok ∅;
  Cache.all_field_for_tags := λ _ _, tags_answer;
  Cache.all_field_for_timestamp := λ _ _, Ok ∅;
  Cache.all_field_for_publisher := λ _ _, Ok ∅;
  Cache.all_field_for_pubdate := λ _ _, Ok ∅;
  Cache.all_field_for_languages := λ _ _, Ok ∅;
  Cache.cover := λ _ _, Ok None;
  Cache.get_categories := λ _ _, Ok [];
  Cache.remove_books := λ _ _ _, Ok tt;
  Cache.set_field := λ _ _ bid _, write_answer bid;
  Cache.start_bulk_update := Some (λ _, Ok tt);
  Cache.end_bulk_update := Some (λ _, commit_answer);
|}.

Definition quiet : Engine := database (Ok ∅) (Ok ∅) (λ _, Ok tt) (Ok tt).

(** The search matches books 3 and 1; book 3 carries a known tag, book 1
    an unknown one. *)
Definition matching : Engine :=
  database (Ok {[3; 1]})
           (Ok {[3 := ["ok"%string]; 1 := ["bad"%string]]})
           (λ _, Ok tt) (Ok tt).

(** The same search, with a tag fetch that raises. *)
Definition failing_tags : Engine :=
  database (Ok {[3; 1]}) (Raise "tags unavailable") (λ _, Ok tt) (Ok tt).

Definition failing_search : Engine :=
  database (Raise "search failed") (Ok ∅) (λ _, Ok tt) (Ok tt).

Definition failing_write : Engine :=
  database (Ok ∅) (Ok ∅) (λ _, Raise "write failed") (Ok tt).

(** Only the writes to book 8 raise. *)
Definition failing_on_8 : Engine :=
  database (Ok ∅) (Ok ∅)
           (λ bid, if bid =? 8 then Raise "record is locked" else Ok tt)
           (Ok tt).

Definition failing_write_and_commit : Engine :=
  database (Ok ∅) (Ok ∅) (λ _, Raise "write failed") (Raise "commit failed").

(** A window over the index [5, 3, 9, 1], with empty caches. *)
Definition window : MainWindow := {|
  books := ∅;
  sorted_book_ids := [5; 3; 9; 1];
  filtered_ids := [5; 3; 9; 1];
  current_page := 0;
  total_pages := 1;
  valid_tags := {["ok"%string]};
  _pixmap_cache := ∅;
  _search_ids_cache := ∅;
  _cached_sorted_ids := Some [5; 3; 9; 1];
  search_edit := EmptyString;
  lang_filter := {| combo_items := ["all"; "none"]%string; combo_index := 0 |};
  tag_filter := [("none", false); ("invalid", false); ("ok", false)]%string;
|}.

Definition start : world MainWindow := World window [].

Definition by_text : FilterQuery :=
  {| search := "a"; lang_target := Some "all"%string; tag_targets := [] |}.

Definition by_text_invalid : FilterQuery :=
  {| search := "a"; lang_target := Some "all"%string;
     tag_targets := ["invalid"%string] |}.

Definition by_language : FilterQuery :=
  {| search := EmptyString; lang_target := Some "eng"%string;
     tag_targets := [] |}.

(** The same window with an entry for [by_text] left in the search cache. *)
Definition stale : world MainWindow :=
  World (set_search_ids_cache {[final_q by_text := {[9]}]} window) [].

Definition title_update : list (string * value) :=
  [("title"%string, VStr "X")].

Definition title_and_bad_date : list (string * value) :=
  [("title"%string, VStr "X"); ("pubdate"%string, VStr "2024-13-40")].

End Sample.

(** ** Vocabulary of the further properties *)

(** A search is needed: the query string is not empty and has no entry
    in the search cache. *)
Definition needs_search (q : FilterQuery) (w : MainWindow) : bool :=
  truthy (final_q q) && bool_decide (_search_ids_cache w !! final_q q = None).

(** The book a key of the cover cache belongs to. *)
Definition cover_key_book (k : Z + Z) : Z :=
  match k with inl bid => bid | inr bid => bid end.

(** The language shown after the options were rebuilt over [items]: the
    earlier one when it is still offered, else the first item. *)
Definition kept_language (earlier : option string) (items : list string)
    : option string :=
  match earlier with
  | Some d => if decide (d ∈ items) then Some d else head items
  | None => head items
  end.

(** The page counters agree with the filtered list: the number of pages
    is the one of the list and the page lies within it. *)
Definition paged (w : MainWindow) : Prop :=
  total_pages w = total_pages_of (filtered_ids w)
  ∧ current_page w = Z.max 0 (Z.min (current_page w) (total_pages w - 1)).

(** What drawing the rows leaves alone: everything but the cover cache. *)
Definition same_table : relation MainWindow := λ w w',
  books w' = books w
  ∧ filtered_ids w' = filtered_ids w
  ∧ current_page w' = current_page w
  ∧ total_pages w' = total_pages w.

(** Events that change the database. *)
Definition is_write (ev : event) : bool :=
  match ev with
  | CRemoveBooks _ _ | CSetField _ _ _ | CStartBulkUpdate | CEndBulkUpdate => true
  | _ => false
  end.

(** The handlers of the window that are followed here.  The start of an
    edit ([_do_edit], which opens the dialog and starts the worker) is
    not among them; the callback that completes it is. *)
Inductive action :=
| Refresh (filter_text : option string)
| PrevPage
| NextPage
| Reload (keep_page : bool)
| DeleteSelected (sel : list BookMetadata.t) (reply_yes : bool)
| BrowseTrash
| EditFinished (success : bool) (error_msg : string).

(** The handler an action runs. *)
Definition handler (manager : Engine) (a : action) : M MainWindow unit :=
  match a with
  | Refresh filter_text => refresh_table manager filter_text
  | PrevPage => prev_page manager
  | NextPage => next_page manager
  | Reload keep_page => load_books manager keep_page
  | DeleteSelected sel reply_yes => delete_selected manager sel reply_yes
  | BrowseTrash => browse_trash manager
  | EditFinished success error_msg => on_finished manager success error_msg
  end.

(** The events a handler may add to the trace: a confirmed delete may
    move exactly the selected books to the trash, a declined one calls
    nothing, and the other handlers do not change the database. *)
Definition allowed (a : action) (ev : event) : Prop :=
  match a, ev with
  | DeleteSelected sel true, CRemoveBooks ids permanent =>
      ids = list_to_set (BookMetadata.id <$> sel) ∧ permanent = false
  | DeleteSelected _ false, _ => is_engine_call ev = false
  | _, _ => is_write ev = false
  end.

(** The handlers all of whose calls to the database are followed here:
    every one but the trash browser, whose dialog reads the trash and
    restores books on its own. *)
Definition calls_followed (a : action) : bool :=
  match a with BrowseTrash => false | _ => true end.

(** The handlers that contain their own errors: the reload, the delete
    and the completion of an edit. *)
Definition contains_errors (a : action) : bool :=
  match a with
  | Reload _ | DeleteSelected _ _ | EditFinished _ _ => true
  | _ => false
  end.

(** The kept index, when there is one, is the working copy. *)
Definition index_consistent (w : MainWindow) : Prop :=
  ∀ ids, _cached_sorted_ids w = Some ids → sorted_book_ids w = ids.

(** The state of the lists of a sound window: the kept index is the
    working copy and the filtered list is a subsequence of it. *)
Definition window_ok (w : MainWindow) : Prop :=
  index_consistent w ∧ filtered_ids w `sublist_of` sorted_book_ids w.

(** A command keeps a sound window sound. *)
Definition keeps_ok : relation MainWindow := λ w w', window_ok w → window_ok w'.

(** Neither the index nor the filtered list changes. *)
Definition same_lists : relation MainWindow := λ w w',
  same_index w w' ∧ filtered_ids w' = filtered_ids w.

(** Events that leave the database as it is. *)
Abbreviation reads_only := (λ ev, is_write ev = false).

(** The decimal digit [n] as a character, and numbers padded with zeros
    to two and to four digits. *)
Definition digit_char (n : Z) : ascii := ascii_of_N (Z.to_N (48 + n)).

Definition pad2 (n : Z) (rest : string) : string :=
  String (digit_char (n `div` 10)) (String (digit_char (n `mod` 10)) rest).

Definition pad4 (n : Z) (rest : string) : string :=
  String (digit_char (n `div` 1000))
    (String (digit_char ((n `div` 100) `mod` 10)) (pad2 (n `mod` 100) rest)).

(** A date written as [YYYY-MM-DD]. *)
Definition iso_date (y m d : Z) : string :=
  pad4 y (String "-" (pad2 m (String "-" (pad2 d EmptyString)))).

(** The part of the regular expression after the year, without the year. *)
Definition month_day_match (s1 : string) : option (Z * Z * string) :=
  match Strptime.dash s1 with
  | Some s2 =>
      Strptime.first_match Strptime.month_alts s2 (λ m s3,
        match Strptime.dash s3 with
        | Some s4 =>
            Strptime.first_match Strptime.day_alts s4 (λ d s5, Some (m, d, s5))
        | None => None
        end)
  | None => None
  end.

(** The call by which the worker writes one entry of the update to one
    book: the value as it is, the date parsed, and no call for a date
    that does not parse. *)
Definition field_write (bid : Z) (fv : string * value) : option event :=
  if String.eqb fv.1 "pubdate" then
    match Strptime.strptime fv.2 with
    | Ok dt => Some (CSetField fv.1 bid dt)
    | Raise _ => None
    end
  else Some (CSetField fv.1 bid fv.2).

(** The calls that write a whole update to one book. *)
Definition book_writes (updates : list (string * value)) (bid : Z)
    : list event :=
  omap (field_write bid) updates.

Definition is_set_field (ev : event) : bool :=
  match ev with CSetField _ _ _ => true | _ => false end.

(** A date of the calendar. *)
Definition calendar_date (v : value) : Prop :=
  ∃ y m d, v = VDate y m d
           ∧ 1 ≤ y ≤ 9999 ∧ 1 ≤ m ≤ 12 ∧ 1 ≤ d ≤ Strptime.days_in_month y m.

(** What the worker may add to the trace for the books [bids] and the
    update [updates]: writes of an entry of the update to one of the
    books, a date only as a date of the calendar, the two brackets and
    its two signals. *)
Definition asked (bids : list Z) (updates : list (string * value))
    (ev : event) : Prop :=
  match ev with
  | CSetField f bid v =>
      bid ∈ bids
      ∧ (∃ fv, fv ∈ updates ∧ field_write bid fv = Some ev)
      ∧ (f = "pubdate"%string → calendar_date v)
  | CStartBulkUpdate | CEndBulkUpdate | SProgress _ | SFinished _ _ => True
  | _ => False
  end.

(** The events of the loop of the worker. *)
Definition is_loop_event (ev : event) : bool :=
  match ev with CSetField _ _ _ | SProgress _ => true | _ => false end.

(** The progress value after [k] of [n] books as the worker computes it
    for a page of books: the whole percentage, except 57 after the 29th
    of 50 books; and the values of a whole run. *)
Definition percent_entry (k n : Z) : Z :=
  if (k =? 29) && (n =? 50) then 57 else (100 * k) `div` n.

Definition percent_table (n : Z) : list Z :=
  (λ k, percent_entry k n) <$> seqZ 1 n.

(** The value a dict of updates holds for a field. *)
Fixpoint update_of (f : string) (updates : list (string * value))
    : option value :=
  match updates with
  | [] => None
  | (f', v) :: rest => if String.eqb f' f then Some v else update_of f rest
  end.

(** A text of decimal digits, most significant first, and its value. *)
Definition digits_string (ds : list Z) : string :=
  string_of_list_ascii (digit_char <$> ds).

Definition digits_value (ds : list Z) : Z := foldl (λ acc d, 10 * acc + d) 0 ds.

(** ** Vocabulary of the search cache and of the reload *)

(** Every entry of the search cache is an answer the database gave: at
    some point of the trace it was asked for that very query string and
    answered with that match-set. *)
Definition cache_grounded (manager : Engine) (w : world MainWindow) : Prop :=
  ∀ k v, _search_ids_cache (win w) !! k = Some v →
         ∃ h rest, trace w = h ++ CSearch k :: rest
                   ∧ Cache.search manager h k = Ok v.

(** [keeps I m]: every run of [m] from a state with [I] ends in a state
    with [I]. *)
Definition keeps {W A} (I : world W → Prop) (m : M W A) : Prop :=
  ∀ w, I w → I (m w).1.

(** The search cache stays or is emptied. *)
Definition cache_shrinks (f : MainWindow → MainWindow) : Prop :=
  ∀ x, _search_ids_cache (f x) = _search_ids_cache x
       ∨ _search_ids_cache (f x) = ∅.

(** The page and the index stay. *)
Definition same_page : relation MainWindow := λ w w',
  current_page w' = current_page w ∧ same_index w w'.

(** ** Vocabulary of the authors of the edit dialog *)

(** A name that [strip] leaves as it is, and a name without a comma. *)
Definition stripped_name (a : string) : Prop :=
  a ≠ EmptyString ∧ strip a = a.

Definition comma_free (a : string) : Prop :=
  ","%char ∉ list_ascii_of_string a.

(** [[p.strip() for p in a.split(',')]] *)
Definition pieces (a : string) : list string :=
  strip <$> EditDialog.split_comma a.

(** A text that ends with a character that is not white space. *)
Definition ends_well (s : string) : Prop :=
  ∃ p c, s = p +:+ String c EmptyString ∧ isspace c = false.

(** ** Vocabulary of texts, answers and calls *)

(** A text of ASCII characters only.  On such a text the bytes of the
    model are the characters of the Python [str], and the white space of
    [strip] and the digits of [strptime] are those of Python. *)
Definition ascii_text (s : string) : bool :=
  forallb (λ c, (N_of_ascii c <? 128)%N) (list_ascii_of_string s).

Definition ascii_value (v : value) : Prop :=
  match v with VStr s => ascii_text s = true | _ => True end.

(** The date texts of an update are ASCII. *)
Definition ascii_dates (updates : list (string * value)) : Prop :=
  ∀ v, ("pubdate"%string, v) ∈ updates → ascii_value v.

(** Of the trace [t], which extends [h0], every write to a field made
    after [h0] was answered by the database. *)
Definition no_write_refused (m : Engine) (h0 t : list event) : Prop :=
  ∀ pre f bid v rest,
    t = h0 ++ pre ++ CSetField f bid v :: rest →
    Cache.set_field m (h0 ++ pre) f bid v = Ok tt.

(** The description of the error of an answer, if it is one. *)
Definition error_of {A} (r : result A) : option string :=
  match r with Ok _ => None | Raise e => Some e end.

(** The seven field calls of a metadata batch, each with the error the
    database answers it with at a given history. *)
Definition batch_probes (m : Engine) (ids : list Z)
    : list (event * (list event → option string)) :=
  [ (CAllFieldFor "title" ids, λ h, error_of (Cache.all_field_for_title m h ids));
    (CAllFieldFor "authors" ids,
     λ h, error_of (Cache.all_field_for_authors m h ids));
    (CAllFieldFor "tags" ids, λ h, error_of (Cache.all_field_for_tags m h ids));
    (CAllFieldFor "timestamp" ids,
     λ h, error_of (Cache.all_field_for_timestamp m h ids));
    (CAllFieldFor "publisher" ids,
     λ h, error_of (Cache.all_field_for_publisher m h ids));
    (CAllFieldFor "pubdate" ids,
     λ h, error_of (Cache.all_field_for_pubdate m h ids));
    (CAllFieldFor "languages" ids,
     λ h, error_of (Cache.all_field_for_languages m h ids)) ]%string.

(** Calls made one after the other from history [h], up to and including
    the first that is answered with an error: how many are made, and
    that error. *)
Fixpoint stops_at (h : list event)
    (probes : list (event * (list event → option string)))
    : nat * option string :=
  match probes with
  | [] => (0%nat, None)
  | (ev, probe) :: rest =>
      match probe h with
      | Some e => (1%nat, Some e)
      | None => let '(n, r) := stops_at (h ++ [ev]) rest in (S n, r)
      end
  end.

(** ** Further sample data *)

Module Scenario.

(** A database that cannot be reached: every call raises. *)
Definition offline : Engine := {|
  Cache.multisort := λ _ _, Raise "offline";
  Cache.search := λ _ _, Raise "offline";
  Cache.all_field_for_title := λ _ _, Raise "offline";
  Cache.all_field_for_authors := λ _ _, Raise "offline";
  Cache.all_field_for_tags := λ _ _, Raise "offline";
  Cache.all_field_for_timestamp := λ _ _, Raise "offline";
  Cache.all_field_for_publisher := λ _ _, Raise "offline";
  Cache.all_field_for_pubdate := λ _ _, Raise "offline";
  Cache.all_field_for_languages := λ _ _, Raise "offline";
  Cache.cover := λ _ _, Raise "offline";
  Cache.get_categories := λ _ _, Raise "offline";
  Cache.remove_books := λ _ _ _, Raise "offline";
  Cache.set_field := λ _ _ _ _, Raise "offline";
  Cache.start_bulk_update := Some (λ _, Raise "offline");
  Cache.end_bulk_update := Some (λ _, Raise "offline");
|}.

(** A library of the four books 5, 3, 9 and 1 with one language and the
    tags [new] and [ok]; [read_only] is the same library refusing every
    removal. *)
Definition library (removal : result unit) : Engine := {|
  Cache.multisort := λ _ _, Ok [5; 3; 9; 1];
  Cache.search := λ _ _, Ok {[3; 1]};
  Cache.all_field_for_title := λ _ _, Ok ∅;
  Cache.all_field_for_authors := λ _ _, Ok ∅;
  Cache.all_field_for_tags := λ _ _, Ok ∅;
  Cache.all_field_for_timestamp := λ _ _, Ok ∅;
  Cache.all_field_for_publisher := λ _ _, Ok ∅;
  Cache.all_field_for_pubdate := λ _ _, Ok ∅;
  Cache.all_field_for_languages := λ _ _, Ok ∅;
  Cache.cover := λ _ _, Ok None;
  Cache.get_categories := λ _ category,
    Ok (if String.eqb category "languages" then ["eng"%string]
        else ["new"; "ok"]%string);
  Cache.remove_books := λ _ _ _, removal;
  Cache.set_field := λ _ _ _ _, Ok tt;
  Cache.start_bulk_update := None;
  Cache.end_bulk_update := None;
|}.

Definition stocked : Engine := library (Ok tt).
Definition read_only : Engine := library (Raise "the library is read-only").

Definition dune : BookMetadata.t := {|
  BookMetadata.id := 9;
  BookMetadata.title := "Dune";
  BookMetadata.authors := ["Frank Herbert"%string];
  BookMetadata.tags := ["ok"; "old"]%string;
  BookMetadata.publisher := "Ace";
  BookMetadata.pubdate := "1965-08-01";
  BookMetadata.languages := ["eng"; "fra"]%string;
  BookMetadata.timestamp := S754_zero false;
|}.

Definition emma : BookMetadata.t := {|
  BookMetadata.id := 3;
  BookMetadata.title := "Emma";
  BookMetadata.authors := ["Jane Austen"%string];
  BookMetadata.tags := ["new"%string];
  BookMetadata.publisher := EmptyString;
  BookMetadata.pubdate := EmptyString;
  BookMetadata.languages := [];
  BookMetadata.timestamp := S754_zero false;
|}.

(** A book whose first author is filed with the family name first. *)
Definition anthology : BookMetadata.t := {|
  BookMetadata.id := 5;
  BookMetadata.title := "Two Novels";
  BookMetadata.authors := ["Herbert, Frank"; "Jane Austen"]%string;
  BookMetadata.tags := [];
  BookMetadata.publisher := EmptyString;
  BookMetadata.pubdate := EmptyString;
  BookMetadata.languages := [];
  BookMetadata.timestamp := S754_zero false;
|}.

(** The sample window with the items [invalid], [ok] and [old] of the tag
    box checked. *)
Definition checked : world MainWindow :=
  World (set_tag_filter
           [("none", false); ("invalid", true); ("ok", true); ("old", true)]%string
           Sample.window) [].

(** The database of [Sample.matching] after the tag of book 3 was
    changed from outside once its tags had been fetched: from the second
    fetch on, book 3 carries an unknown tag as well. *)
Definition retagged : Engine := {|
  Cache.multisort := λ _ _, Ok [];
  Cache.search := λ _ _, Ok {[3; 1]};
  Cache.all_field_for_title := λ _ _, Ok ∅;
  Cache.all_field_for_authors := λ _ _, Ok ∅;
  Cache.all_field_for_tags := λ h _,
    if existsb (λ ev, match ev with CAllFieldFor _ _ => true | _ => false end) h
    then Ok {[3 := ["bad"%string]; 1 := ["bad"%string]]}
    else Ok {[3 := ["ok"%string]; 1 := ["bad"%string]]};
  Cache.all_field_for_timestamp := λ _ _, Ok ∅;
  Cache.all_field_for_publisher := λ _ _, Ok ∅;
  Cache.all_field_for_pubdate := λ _ _, Ok ∅;
  Cache.all_field_for_languages := λ _ _, Ok ∅;
  Cache.cover := λ _ _, Ok None;
  Cache.get_categories := λ _ _, Ok [];
  Cache.remove_books := λ _ _ _, Ok tt;
  Cache.set_field := λ _ _ _ _, Ok tt;
  Cache.start_bulk_update := Some (λ _, Ok tt);
  Cache.end_bulk_update := Some (λ _, Ok tt);
|}.

(** A window over an index of 120 books, on the second of its three
    pages. *)
Definition second_page : world MainWindow :=
  World (set_current_page 1
           (set_total_pages 3
              (set_filtered_ids (seqZ 1 120)
                 (set_cached_sorted_ids (Some (seqZ 1 120))
                    (set_sorted_book_ids (seqZ 1 120) Sample.window))))) [].

End Scenario.

(** * Properties *)

Ltac unfold_monad :=
  unfold mbind, M_bind, mret, M_ret, get_win, modify, call, emit, lift,
         try_except, try_finally, raise in *.

(** ** Pagination *)

(** A slice with a non-negative start is a [drop] followed by a [take]. *)
Lemma slice_nonneg {A} (a : list A) (i : Z) (k : nat) :
  0 ≤ i → slice a i (i + Z.of_nat k) = take k (drop (Z.to_nat i) a).
Proof.
  intros Hi. unfold slice, slice_index.
  destruct (Z.ltb_spec i 0) as [|_]; [lia|].
  destruct (Z.ltb_spec (i + Z.of_nat k) 0) as [|_]; [lia|].
  set (n := Z.of_nat (length a)).
  destruct (decide (i ≤ n)) as [Hle|Hgt].
  - rewrite (Z.min_l i n) by lia.
    apply list_eq. intros j.
    rewrite !lookup_take.
    repeat case_decide; try done; try lia.
    rewrite lookup_ge_None_2; [done|]. rewrite length_drop. subst n. lia.
  - rewrite (Z.min_r i n), (Z.min_r (i + Z.of_nat k) n) by lia.
    rewrite Z.sub_diag. simpl.
    rewrite (drop_ge a (Z.to_nat i)) by (unfold n in *; lia).
    by rewrite take_nil.
Qed.

Lemma total_pages_ceil (filtered : list Z) :
  is_ceil_div (Z.of_nat (length filtered)) PAGE_SIZE (total_pages_of filtered).
Proof.
  unfold is_ceil_div, total_pages_of, paginate, PAGE_SIZE. simpl.
  set (n := Z.of_nat (length filtered)).
  pose proof (Z.div_mod (n + 50 - 1) 50 ltac:(lia)).
  pose proof (Z.mod_pos_bound (n + 50 - 1) 50 ltac:(lia)).
  lia.
Qed.

(** A page number within range is not clamped. *)
Lemma page_ids_in_range (filtered : list Z) (p : Z) :
  0 ≤ p < total_pages_of filtered →
  page_ids_of filtered p = take 50 (drop (Z.to_nat (p * PAGE_SIZE)) filtered).
Proof.
  intros Hp. unfold page_ids_of, paginate. cbn [snd].
  change ((Z.of_nat (length filtered) + PAGE_SIZE - 1) `div` PAGE_SIZE)
    with (total_pages_of filtered).
  replace (Z.max 0 (Z.min p (total_pages_of filtered - 1))) with p by lia.
  replace ((p + 1) * PAGE_SIZE) with (p * PAGE_SIZE + Z.of_nat 50)
    by (unfold PAGE_SIZE; lia).
  apply slice_nonneg. unfold PAGE_SIZE. lia.
Qed.

(** The first [k] pages, one after the other, are the first [50 k] ids. *)
Lemma concat_pages (l : list Z) (k : nat) :
  concat ((λ p : Z, take 50 (drop (Z.to_nat (p * PAGE_SIZE)) l))
            <$> seqZ 0 (Z.of_nat k))
  = take (50 * k) l.
Proof.
  induction k as [|k IH].
  - by rewrite take_0.
  - rewrite seqZ_S.
    rewrite fmap_app, concat_app, IH. simpl. rewrite app_nil_r.
    replace (Z.to_nat ((0 + Z.of_nat k) * PAGE_SIZE)) with (50 * k)%nat
      by (unfold PAGE_SIZE; lia).
    rewrite take_take_drop. f_equal. lia.
Qed.

(** C1.  For every filtered sequence and requested page, [paginate]
    returns the number of pages [ceil(len / 50)], the page clamped to
    [max(0, min(page, total_pages - 1))] and the 50-wide slice at that
    page; for a non-empty sequence the pages [0 .. total_pages - 1], one
    after the other, are the sequence itself; for the empty sequence there
    are no pages and the slice is empty. *)
Theorem C1_paginate (filtered : list Z) (page : Z) :
  let n := Z.of_nat (length filtered) in
  let '(total, cur, page_ids) := paginate filtered page in
  is_ceil_div n PAGE_SIZE total
  ∧ cur = Z.max 0 (Z.min page (total - 1))
  ∧ page_ids = take 50 (drop (Z.to_nat (cur * PAGE_SIZE)) filtered)
  ∧ (filtered ≠ [] →
     concat (page_ids_of filtered <$> seqZ 0 total) = filtered)
  ∧ (filtered = [] → total = 0 ∧ page_ids = []).
Proof.
  intros n.
  destruct (paginate filtered page) as [[total cur] page_ids] eqn:E.
  pose proof (total_pages_ceil filtered) as Hceil. unfold is_ceil_div in *.
  assert (total = total_pages_of filtered) as Htot
    by (unfold total_pages_of, paginate in *; simpl; congruence).
  assert (cur = Z.max 0 (Z.min page (total - 1))) as Hcur
    by (unfold paginate in E; rewrite Htot; unfold total_pages_of, paginate;
        simpl; congruence).
  assert (0 ≤ total) as Htotal0 by (unfold PAGE_SIZE in *; lia).
  fold n in Hceil. rewrite <- Htot in Hceil.
  split; [exact Hceil|]. split; [exact Hcur|]. split; [|split].
  - unfold paginate in E. injection E as _ E2 E3.
    rewrite <- E3, E2.
    replace ((cur + 1) * PAGE_SIZE) with (cur * PAGE_SIZE + Z.of_nat 50)
      by (unfold PAGE_SIZE; lia).
    apply slice_nonneg. unfold PAGE_SIZE. lia.
  - intros _.
    rewrite (list_fmap_ext (page_ids_of filtered)
               (λ p, take 50 (drop (Z.to_nat (p * PAGE_SIZE)) filtered))
               (seqZ 0 total)).
    + rewrite <- (Z2Nat.id total) by lia. rewrite concat_pages.
      apply take_ge. unfold PAGE_SIZE, n in *. lia.
    + intros i p Hp. apply lookup_seqZ in Hp.
      apply page_ids_in_range. lia.
  - intros ->. unfold paginate, slice in E.
    injection E as _ _ E3. rewrite drop_nil, take_nil in E3.
    split; [unfold PAGE_SIZE, n in *; simpl in *; lia | done].
Qed.

(** The example of the specification: 120 ids make 3 pages; page 0 holds
    the ids at positions 0 to 49 and page 2 the 20 ids from position 100. *)
Example paginate_120 :
  let ids := seqZ 1 120 in
  total_pages_of ids = 3
  ∧ page_ids_of ids 0 = seqZ 1 50
  ∧ page_ids_of ids 2 = seqZ 101 20
  ∧ page_ids_of ids 7 = seqZ 101 20
  ∧ page_ids_of ids (-1) = seqZ 1 50.
Proof. by vm_compute. Qed.

(** ** Batched metadata *)

(** Building a dict in a loop [for k in ks: result[k] = f k]. *)
Lemma lookup_foldl_insert {V} (f : Z → V) (ks : list Z) (m0 : gmap Z V) (k : Z) :
  foldl (λ m k, <[k := f k]> m) m0 ks !! k
  = if decide (k ∈ ks) then Some (f k) else m0 !! k.
Proof.
  revert m0. induction ks as [|k' ks IH]; intros m0.
  - by destruct (decide (k ∈ [])) as [?%elem_of_nil|].
  - cbn [foldl]. rewrite IH. destruct (decide (k ∈ ks)) as [Hin|Hnin].
    + rewrite decide_True by (by right). done.
    + destruct (decide (k = k')) as [->|Hne].
      * rewrite decide_True by (by left). by rewrite lookup_insert_eq.
      * rewrite decide_False by (by intros [?|?]%elem_of_cons).
        by rewrite lookup_insert_ne.
Qed.

Lemma dom_foldl_insert {V} (f : Z → V) (ks : list Z) :
  dom (foldl (λ m k, <[k := f k]> m) (∅ : gmap Z V) ks) = list_to_set ks.
Proof.
  apply set_eq. intros k. rewrite elem_of_dom, lookup_foldl_insert.
  rewrite elem_of_list_to_set.
  case_decide; [by split; eauto|].
  rewrite lookup_empty. split; [by intros [? ?]|done].
Qed.

(** C10.  For the empty id list [get_metadata_batch] returns the empty
    mapping and calls nothing.  For a non-empty list whose seven field
    calls answer, it returns, after exactly those seven calls, a mapping
    whose keys are the given ids; the entry of each id carries the values
    the database gave, and the defaults (empty string, empty list,
    timestamp 0.0) where it gave none. *)
Theorem C10_get_metadata_batch {W} (cache : Engine) (w : world W) (ids : list Z) :
  (ids = [] → BookManager.get_metadata_batch cache ids w = (w, Ok ∅))
  ∧ ∀ titles authors tags timestamps publishers pubdates languages,
      let h k := trace w ++ take k (batch_calls ids) in
      ids ≠ [] →
      Cache.all_field_for_title cache (h 0%nat) ids = Ok titles →
      Cache.all_field_for_authors cache (h 1%nat) ids = Ok authors →
      Cache.all_field_for_tags cache (h 2%nat) ids = Ok tags →
      Cache.all_field_for_timestamp cache (h 3%nat) ids = Ok timestamps →
      Cache.all_field_for_publisher cache (h 4%nat) ids = Ok publishers →
      Cache.all_field_for_pubdate cache (h 5%nat) ids = Ok pubdates →
      Cache.all_field_for_languages cache (h 6%nat) ids = Ok languages →
      ∃ m, BookManager.get_metadata_batch cache ids w
           = (World (win w) (trace w ++ batch_calls ids), Ok m)
         ∧ dom m = list_to_set ids
         ∧ ∀ bid, bid ∈ ids →
             ∃ b, m !! bid = Some b
                ∧ BookMetadata.id b = bid
                ∧ BookMetadata.title b = default EmptyString (titles !! bid)
                ∧ BookMetadata.authors b = default [] (authors !! bid)
                ∧ BookMetadata.tags b = default [] (tags !! bid)
                ∧ BookMetadata.languages b
                  = lang_name <$> default [] (languages !! bid)
                ∧ (publishers !! bid = None ∨ publishers !! bid = Some None →
                   BookMetadata.publisher b = EmptyString)
                ∧ (∀ s, publishers !! bid = Some (Some s) →
                   BookMetadata.publisher b = s)
                ∧ (pubdates !! bid = None ∨ pubdates !! bid = Some None →
                   BookMetadata.pubdate b = EmptyString)
                ∧ (∀ d, pubdates !! bid = Some (Some d) →
                   BookMetadata.pubdate b = strftime_ymd d)
                ∧ (timestamps !! bid = None ∨ timestamps !! bid = Some None →
                   BookMetadata.timestamp b = S754_zero false)
                ∧ (∀ d, timestamps !! bid = Some (Some d) →
                   BookMetadata.timestamp b = posix_timestamp d).
Proof.
  split; [by intros ->|].
  intros titles authors tags timestamps publishers pubdates languages h
         Hne H0 H1 H2 H3 H4 H5 H6.
  destruct ids as [|i0 ids']; [done|].
  unfold BookManager.get_metadata_batch.
  remember (i0 :: ids') as ids eqn:Hids in *. clear Hids Hne i0 ids'.
  eexists. split; [|split].
  - unfold mbind, M_bind, call, mret, M_ret. cbn [trace win].
    unfold h, batch_calls in *. cbn [take fmap list_fmap] in *.
    rewrite app_nil_r in H0. rewrite H0.
    rewrite H1. rewrite <- !app_assoc. cbn [app].
    rewrite H2, H3, H4, H5, H6. reflexivity.
  - apply (dom_foldl_insert
             (BookManager.metadata_entry titles authors tags timestamps
                                         publishers pubdates languages)).
  - intros bid Hin.
    rewrite (lookup_foldl_insert
               (BookManager.metadata_entry titles authors tags timestamps
                                           publishers pubdates languages)).
    rewrite decide_True by done. eexists. split; [reflexivity|].
    unfold BookManager.metadata_entry. cbn.
    repeat split; try done.
    + by intros [-> | ->].
    + intros s ->. cbn. by destruct s.
    + by intros [-> | ->].
    + by intros d ->.
    + by intros [-> | ->].
    + by intros d ->.
Qed.

(** C10 at the page [5, 3] of a database without field values: both ids
    are keys of the result. *)
Lemma C10_witness :
  ∃ m, BookManager.get_metadata_batch Sample.quiet [5; 3] Sample.start
       = (World Sample.window (batch_calls [5; 3]), Ok m)
     ∧ dom m = {[5; 3]}.
Proof.
  destruct (C10_get_metadata_batch Sample.quiet Sample.start [5; 3])
    as [_ H].
  destruct (H ∅ ∅ ∅ ∅ ∅ ∅ ∅ ltac:(discriminate)
              eq_refl eq_refl eq_refl eq_refl eq_refl eq_refl eq_refl)
    as (m & Hrun & Hdom & _).
  exists m. split; [exact Hrun|].
  rewrite Hdom. apply set_eq. intros x. set_solver.
Defined.

(** [get_metadata_batch] has no handler of its own: a field call that
    raises ends it, and the exception goes to the caller. *)
Lemma get_metadata_batch_raises {W} (cache : Engine) (w : world W)
    (ids : list Z) (msg : string) :
  ids ≠ [] →
  Cache.all_field_for_title cache (trace w) ids = Raise msg →
  BookManager.get_metadata_batch cache ids w
  = (World (win w) (trace w ++ [CAllFieldFor "title" ids]), Raise msg).
Proof.
  intros Hne Ht. destruct ids as [|i0 ids']; [done|].
  unfold BookManager.get_metadata_batch, mbind, M_bind, call. cbn [win trace].
  by rewrite Ht.
Qed.

(** ** Frames and traces of commands *)

Section Frame.
Context {W : Type} (R : relation W) `{!Reflexive R} `{!Transitive R}.

Lemma frame_ret {A} (a : A) : frame R (mret a).
Proof. intros w. reflexivity. Qed.

Lemma frame_bind {A B} (m : M W A) (f : A → M W B) :
  frame R m → (∀ a, frame R (f a)) → frame R (m ≫= f).
Proof.
  intros Hm Hf w. unfold mbind, M_bind.
  specialize (Hm w). destruct (m w) as [w1 [a|msg]]; [|done].
  etrans; [exact Hm|]. apply Hf.
Qed.

Lemma frame_try_except {A} (m : M W A) (h : string → M W A) :
  frame R m → (∀ e, frame R (h e)) → frame R (try_except m h).
Proof.
  intros Hm Hh w. unfold try_except.
  specialize (Hm w). destruct (m w) as [w1 [a|msg]]; [done|].
  etrans; [exact Hm|]. apply Hh.
Qed.

Lemma frame_for_each {A} (body : A → M W unit) (xs : list A) :
  (∀ x, frame R (body x)) → frame R (for_each body xs).
Proof.
  intros Hb. induction xs as [|x xs IH]; [apply frame_ret|].
  cbn [for_each]. apply frame_bind; auto.
Qed.

Lemma frame_call {A} (ev : event) (answer : list event → result A) :
  frame R (call ev answer).
Proof. intros w. reflexivity. Qed.

Lemma frame_emit (ev : event) : frame R (emit ev).
Proof. intros w. reflexivity. Qed.

Lemma frame_get_win : frame R get_win.
Proof. intros w. reflexivity. Qed.

Lemma frame_modify (f : W → W) : (∀ x, R x (f x)) → frame R (modify f).
Proof. intros Hf w. apply Hf. Qed.
End Frame.

Section Emits.
Context {W : Type} (P : event → Prop).

Lemma emits_ret {A} (a : A) : emits (W:=W) P (mret a).
Proof. intros w. exists []. by rewrite app_nil_r. Qed.

Lemma emits_get_win : emits (W:=W) P get_win.
Proof. intros w. exists []. by rewrite app_nil_r. Qed.

Lemma emits_modify (f : W → W) : emits P (modify f).
Proof. intros w. exists []. by rewrite app_nil_r. Qed.

Lemma emits_call {A} (ev : event) (answer : list event → result A) :
  P ev → emits (W:=W) P (call ev answer).
Proof. intros Hev w. exists [ev]. by repeat constructor. Qed.

Lemma emits_emit (ev : event) : P ev → emits (W:=W) P (emit ev).
Proof. intros Hev w. exists [ev]. by repeat constructor. Qed.

Lemma emits_bind {A B} (m : M W A) (f : A → M W B) :
  emits P m → (∀ a, emits P (f a)) → emits P (m ≫= f).
Proof.
  intros Hm Hf w. unfold mbind, M_bind.
  destruct (Hm w) as (evs & Ht & HP).
  destruct (m w) as [w1 [a|msg]]; cbn [fst] in *; [|by exists evs].
  destruct (Hf a w1) as (evs' & Ht' & HP').
  exists (evs ++ evs'). split.
  - by rewrite Ht', Ht, app_assoc.
  - by apply Forall_app.
Qed.

Lemma emits_try_except {A} (m : M W A) (h : string → M W A) :
  emits P m → (∀ e, emits P (h e)) → emits P (try_except m h).
Proof.
  intros Hm Hh w. unfold try_except.
  destruct (Hm w) as (evs & Ht & HP).
  destruct (m w) as [w1 [a|msg]]; cbn [fst] in *; [by exists evs|].
  destruct (Hh msg w1) as (evs' & Ht' & HP').
  exists (evs ++ evs'). split.
  - by rewrite Ht', Ht, app_assoc.
  - by apply Forall_app.
Qed.

Lemma emits_for_each {A} (body : A → M W unit) (xs : list A) :
  (∀ x, emits P (body x)) → emits P (for_each body xs).
Proof.
  intros Hb. induction xs as [|x xs IH]; [apply emits_ret|].
  cbn [for_each]. apply emits_bind; auto.
Qed.

Lemma emits_new_events {A} (m : M W A) (w : world W) :
  emits P m → Forall P (new_events w (m w).1).
Proof.
  intros Hm. destruct (Hm w) as (evs & Ht & HP).
  unfold new_events. rewrite Ht. by rewrite drop_app_length.
Qed.
End Emits.

#[export] Instance same_index_refl : Reflexive same_index.
Proof. by intros w. Qed.

#[export] Instance same_index_trans : Transitive same_index.
Proof. intros a b c [? ?] [? ?]. split; congruence. Qed.

#[export] Instance keeps_index_refl : Reflexive keeps_index.
Proof. by intros w _. Qed.

#[export] Instance keeps_index_trans : Transitive keeps_index.
Proof.
  intros a b c Hab Hbc Ha. destruct (Hab Ha) as [Hs Hc].
  destruct Hbc as [Hs' Hc']; [congruence|]. split; congruence.
Qed.

#[export] Instance filter_inputs_kept_refl : Reflexive filter_inputs_kept.
Proof. by intros w. Qed.

#[export] Instance filter_inputs_kept_trans : Transitive filter_inputs_kept.
Proof.
  intros a b c (? & ? & Hab) (? & ? & Hbc).
  split; [congruence|]. split; [congruence|]. auto.
Qed.

Lemma frame_same_keeps {A} (m : M MainWindow A) :
  frame same_index m → frame keeps_index m.
Proof. intros Hm w _. apply Hm. Qed.

(** One step of a frame proof, following the shape of the command. *)
Ltac frame_step :=
  first
    [ apply frame_ret; apply _ | apply frame_call; apply _
    | apply frame_emit; apply _ | apply frame_get_win; apply _
    | apply frame_modify; intros ?; by repeat split
    | apply frame_bind; try apply _; [|intros ?]
    | apply frame_try_except; try apply _; [|intros ?]
    | apply frame_for_each; try apply _; intros ?
    | match goal with
      | |- frame _ (match ?x with _ => _ end) => destruct x
      | |- frame _ (if ?x then _ else _) => destruct x
      | |- frame _ (let '(_, _) := ?x in _) => destruct x
      end ].

(** One step of a trace proof, following the shape of the command. *)
Ltac emits_step :=
  first
    [ apply emits_ret | apply emits_get_win | apply emits_modify
    | apply emits_call; done | apply emits_emit; done
    | apply emits_bind; [|intros ?]
    | apply emits_try_except; [|intros ?]
    | apply emits_for_each; intros ?
    | match goal with
      | |- emits _ (match ?x with _ => _ end) => destruct x
      | |- emits _ (if ?x then _ else _) => destruct x
      | |- emits _ (let '(_, _) := ?x in _) => destruct x
      end ].

(** ** Filtering *)

Lemma new_events_app {W} (w : world W) (x : W) (evs : list event) :
  new_events w (World x (trace w ++ evs)) = evs.
Proof. unfold new_events. cbn. by rewrite drop_app_length. Qed.

Lemma new_events_of_trace {W} (w w' : world W) (evs : list event) :
  trace w' = trace w ++ evs → new_events w w' = evs.
Proof. intros Ht. unfold new_events. by rewrite Ht, drop_app_length. Qed.

Lemma new_events_same {W} (w : world W) (x : W) :
  new_events w (World x (trace w)) = [].
Proof. unfold new_events. cbn. by rewrite drop_all. Qed.

Lemma truthy_ne (s : string) : truthy s = true ↔ s ≠ EmptyString.
Proof. by destruct s. Qed.

Section Filter.
Context (manager : Engine).

Lemma search_stage_spec (q : FilterQuery) (w : world MainWindow) :
  search_stage manager q w =
  let W := win w in
  if negb (truthy (final_q q)) then
    (World (set_filtered_ids (sorted_book_ids W) W) (trace w), Ok tt)
  else
    match _search_ids_cache W !! final_q q with
    | Some matched =>
        (World (set_filtered_ids (intersect_sorted (sorted_book_ids W) matched) W)
               (trace w), Ok tt)
    | None =>
        match Cache.search manager (trace w) (final_q q) with
        | Ok matched =>
            (World (set_filtered_ids (intersect_sorted (sorted_book_ids W) matched)
                      (set_search_ids_cache
                         (<[final_q q := matched]> (_search_ids_cache W)) W))
                   (trace w ++ [CSearch (final_q q)]), Ok tt)
        | Raise msg => (World W (trace w ++ [CSearch (final_q q)]), Raise msg)
        end
    end.
Proof.
  unfold search_stage, BookManager.search. unfold_monad. cbn.
  destruct (negb (truthy (final_q q))); [done|].
  destruct (_search_ids_cache (win w) !! final_q q); [done|].
  by destruct (Cache.search manager (trace w) (final_q q)).
Qed.

Lemma invalid_stage_spec (q : FilterQuery) (w : world MainWindow) :
  invalid_stage manager q w =
  let W := win w in
  if bool_decide ("invalid"%string ∈ tag_targets q) then
    match Cache.all_field_for_tags manager (trace w) (filtered_ids W) with
    | Ok tag_map =>
        (World (set_filtered_ids
                  (filter (has_invalid_tag (valid_tags W) tag_map) (filtered_ids W)) W)
               (trace w ++ [CAllFieldFor "tags" (filtered_ids W)]), Ok tt)
    | Raise msg =>
        (World W (trace w ++ [CAllFieldFor "tags" (filtered_ids W)]), Raise msg)
    end
  else (w, Ok tt).
Proof.
  unfold invalid_stage. unfold_monad. cbn.
  destruct (bool_decide _); [|done].
  by destruct (Cache.all_field_for_tags manager (trace w) (filtered_ids (win w))).
Qed.

Lemma apply_filter_spec (q : FilterQuery) (w : world MainWindow) :
  apply_filter manager q w =
  match search_stage manager q w with
  | (w1, Ok _) =>
      match invalid_stage manager q w1 with
      | (w2, Ok _) => (w2, Ok tt)
      | (w2, Raise _) => (World (set_filtered_ids [] (win w2)) (trace w2), Ok tt)
      end
  | (w1, Raise _) => (World (set_filtered_ids [] (win w1)) (trace w1), Ok tt)
  end.
Proof.
  unfold apply_filter, filter_body. unfold_monad.
  destruct (search_stage manager q w) as [w1 [[]|msg]]; [|done].
  by destruct (invalid_stage manager q w1) as [w2 [[]|msg]].
Qed.

(** With no text and no facet the query string is empty. *)
Lemma final_q_empty (text : string) (lang : option string) :
  strip text = EmptyString →
  lang = None ∨ lang = Some EmptyString ∨ lang = Some "all"%string →
  final_q {| search := strip text; lang_target := lang; tag_targets := [] |}
  = EmptyString.
Proof.
  intros -> Hl. unfold final_q, clauses. cbn.
  by destruct Hl as [-> | [-> | ->]].
Qed.

(** C4.  When the search text is empty after stripping, no language is
    selected (no item, or the item for all languages) and no tag item is
    checked, [apply_filter] returns the index as it is, in its order, and
    records no event: no call reaches the database. *)
Theorem C4_no_filter_returns_index (text : string) (lang : option string)
    (w : world MainWindow) :
  strip text = EmptyString →
  lang = None ∨ lang = Some EmptyString ∨ lang = Some "all"%string →
  let q := {| search := strip text; lang_target := lang; tag_targets := [] |} in
  let '(w', r) := apply_filter manager q w in
  r = Ok tt
  ∧ filtered_ids (win w') = sorted_book_ids (win w)
  ∧ trace w' = trace w.
Proof.
  intros Htext Hlang q.
  unfold apply_filter, filter_body, try_except, mbind, M_bind.
  rewrite search_stage_spec.
  unfold q. rewrite (final_q_empty text lang Htext Hlang). cbn.
  done.
Qed.

(** C3, amended.  When the query string is not empty and the match-set
    comes from the cache or from a search that answers, the first stage
    leaves exactly the ids of the index that belong to the match-set, in
    index order.  That is the result of [apply_filter] unless the
    [invalid] tag item is checked; when it is checked and the tag fetch
    answers, the result keeps, in the same order, those of these ids that
    carry a tag outside the known vocabulary. *)
Theorem C3_filter_keeps_index_order (q : FilterQuery) (w : world MainWindow)
    (matched : gset Z) :
  final_q q ≠ EmptyString →
  _search_ids_cache (win w) !! final_q q = Some matched
  ∨ (_search_ids_cache (win w) !! final_q q = None
     ∧ Cache.search manager (trace w) (final_q q) = Ok matched) →
  let sorted := sorted_book_ids (win w) in
  let w1 := (search_stage manager q w).1 in
  let w' := (apply_filter manager q w).1 in
  filtered_ids (win w1) = filter (λ bid, bid ∈ matched) sorted
  ∧ ("invalid"%string ∉ tag_targets q →
     filtered_ids (win w') = filter (λ bid, bid ∈ matched) sorted)
  ∧ (∀ tag_map,
       "invalid"%string ∈ tag_targets q →
       Cache.all_field_for_tags manager (trace w1) (filtered_ids (win w1))
       = Ok tag_map →
       filtered_ids (win w')
       = filter (has_invalid_tag (valid_tags (win w)) tag_map)
                (filter (λ bid, bid ∈ matched) sorted)).
Proof.
  intros Hq Hm sorted w1 w'.
  assert (search_stage manager q w
          = (w1, Ok tt) ∧ filtered_ids (win w1) = intersect_sorted sorted matched
            ∧ valid_tags (win w1) = valid_tags (win w)) as (Hs & Hf & Hv).
  { subst w1. rewrite search_stage_spec. cbn zeta.
    apply truthy_ne in Hq. rewrite Hq. cbn [negb].
    destruct Hm as [-> | [-> ->]]; done. }
  split; [exact Hf|].
  subst w'. rewrite apply_filter_spec, Hs, invalid_stage_spec. cbn zeta.
  split.
  - intros Hni. rewrite bool_decide_eq_false_2 by done. done.
  - intros tag_map Hi Ht. rewrite bool_decide_eq_true_2 by done.
    rewrite Ht. cbn. by rewrite Hv, Hf.
Qed.

(** C5, amended.  When a database call of the filter raises,
    [apply_filter] still returns normally, with the empty result; the
    only events are the database calls themselves, so nothing is reported
    to the user; index, kept index, cover cache and tag vocabulary are
    unchanged; the search cache is unchanged, or holds in addition the
    answer of the search that had completed before the tag fetch raised. *)
Theorem C5_failure_gives_empty_result (q : FilterQuery)
    (w w1 : world MainWindow) (msg : string) :
  filter_body manager q w = (w1, Raise msg) →
  let '(w', r) := apply_filter manager q w in
  r = Ok tt
  ∧ filtered_ids (win w') = []
  ∧ Forall (λ ev, is_engine_call ev = true) (new_events w w')
  ∧ sorted_book_ids (win w') = sorted_book_ids (win w)
  ∧ _cached_sorted_ids (win w') = _cached_sorted_ids (win w)
  ∧ _pixmap_cache (win w') = _pixmap_cache (win w)
  ∧ valid_tags (win w') = valid_tags (win w)
  ∧ (_search_ids_cache (win w') = _search_ids_cache (win w)
     ∨ ∃ matched,
         _search_ids_cache (win w) !! final_q q = None
         ∧ Cache.search manager (trace w) (final_q q) = Ok matched
         ∧ _search_ids_cache (win w')
           = <[final_q q := matched]> (_search_ids_cache (win w))).
Proof.
  intros Hfail.
  unfold filter_body in Hfail. unfold mbind, M_bind in Hfail.
  rewrite apply_filter_spec.
  rewrite search_stage_spec in *. cbn zeta in *.
  destruct (negb (truthy (final_q q))).
  { rewrite invalid_stage_spec in *. cbn zeta in *. cbn [win trace] in *.
    destruct (bool_decide _); [|done].
    destruct (Cache.all_field_for_tags _ _ _); [done|].
    cbn. rewrite new_events_app. repeat split; auto. }
  destruct (_search_ids_cache (win w) !! final_q q) as [matched|] eqn:Hc.
  { rewrite invalid_stage_spec in *. cbn zeta in *. cbn [win trace] in *.
    destruct (bool_decide _); [|done].
    destruct (Cache.all_field_for_tags _ _ _); [done|].
    cbn. rewrite new_events_app. repeat split; auto. }
  destruct (Cache.search manager (trace w) (final_q q)) as [matched|e] eqn:Hs.
  - rewrite invalid_stage_spec in *. cbn zeta in *. cbn [win trace] in *.
    destruct (bool_decide _); [|done].
    destruct (Cache.all_field_for_tags _ _ _); [done|].
    cbn. rewrite <- app_assoc, new_events_app.
    repeat split; auto.
    + by repeat constructor.
    + right. by exists matched.
  - cbn. rewrite new_events_app. repeat split; auto.
Qed.
End Filter.

(** C4 at the index [5, 3, 9, 1] with a blank search text: the result is
    the index and the trace stays empty. *)
Lemma C4_witness :
  let q := {| search := strip "  "; lang_target := Some "all"%string;
              tag_targets := [] |} in
  let '(w', r) := apply_filter Sample.quiet q Sample.start in
  r = Ok tt ∧ filtered_ids (win w') = [5; 3; 9; 1] ∧ trace w' = [].
Proof.
  exact (C4_no_filter_returns_index Sample.quiet "  " (Some "all"%string)
           Sample.start eq_refl (or_intror (or_intror eq_refl))).
Defined.

(** C3 at the example of the specification: match-set [{3, 1}] over the
    index [5, 3, 9, 1] gives [3, 1]. *)
Lemma C3_witness :
  filtered_ids (win (apply_filter Sample.matching Sample.by_text Sample.start).1)
  = [3; 1].
Proof.
  destruct (C3_filter_keeps_index_order Sample.matching Sample.by_text
              Sample.start {[3; 1]}
              ltac:(vm_compute; discriminate)
              ltac:(right; split; vm_compute; reflexivity))
    as (_ & H & _).
  rewrite H.
  - vm_compute. reflexivity.
  - intros Hin. by apply elem_of_nil in Hin.
Defined.

(** With the [invalid] item checked the same search gives [1] only: book
    3 is in the match-set but all its tags are known. *)
Lemma C3_counterexample :
  ¬ C3_as_stated_at Sample.matching Sample.by_text_invalid Sample.start {[3; 1]}.
Proof.
  intros H. unfold C3_as_stated_at in H.
  specialize (H ltac:(vm_compute; discriminate)
                ltac:(vm_compute; reflexivity)
                ltac:(vm_compute; reflexivity)).
  vm_compute in H. discriminate H.
Qed.

(** C5 at a search that raises: the result is empty, the index is
    untouched and only the search call is recorded. *)
Lemma C5_witness :
  let w' := (apply_filter Sample.failing_search Sample.by_text Sample.start).1 in
  filtered_ids (win w') = []
  ∧ sorted_book_ids (win w') = [5; 3; 9; 1]
  ∧ Forall (λ ev, is_engine_call ev = true) (new_events Sample.start w').
Proof.
  pose proof (C5_failure_gives_empty_result Sample.failing_search
                Sample.by_text Sample.start _ _
                ltac:(vm_compute; reflexivity)) as H.
  cbn zeta.
  destruct (apply_filter Sample.failing_search Sample.by_text Sample.start)
    as [w' r].
  destruct H as (_ & Hf & Hev & Hs & _).
  split; [exact Hf|]. split; [exact Hs|exact Hev].
Defined.

(** A search that raises is reported nowhere: the only new event is the
    search call. *)
Lemma C5_counterexample :
  ¬ C5_as_stated_at Sample.failing_search Sample.by_text Sample.start.
Proof.
  intros H. unfold C5_as_stated_at in H.
  pose proof (H _ _ ltac:(vm_compute; reflexivity)) as H'.
  vm_compute in H'. destruct H' as (_ & _ & HE & _).
  apply Exists_cons in HE as [HE|HE]; [discriminate HE|].
  by apply Exists_nil in HE.
Qed.

(** When the search answers and the tag fetch raises, the result is empty
    but the answer of the search stays in the cache. *)
Example tag_fetch_failure_keeps_search_entry :
  let w' :=
    (apply_filter Sample.failing_tags Sample.by_text_invalid Sample.start).1 in
  filtered_ids (win w') = []
  ∧ _search_ids_cache (win w') !! final_q Sample.by_text_invalid = Some {[3; 1]}
  ∧ trace w'
    = [CSearch (final_q Sample.by_text_invalid); CAllFieldFor "tags" [3; 1]].
Proof. by vm_compute. Qed.

(** ** The search cache across calls *)

Section SearchCache.
Context (manager : Engine).

(** What one call leaves unchanged, and what it may add to the cache. *)
Lemma apply_filter_frame (q : FilterQuery) (w : world MainWindow) :
  let w' := (apply_filter manager q w).1 in
  sorted_book_ids (win w') = sorted_book_ids (win w)
  ∧ valid_tags (win w') = valid_tags (win w)
  ∧ (∀ k v, _search_ids_cache (win w) !! k = Some v →
            _search_ids_cache (win w') !! k = Some v).
Proof.
  cbn zeta. rewrite apply_filter_spec, search_stage_spec. cbn zeta.
  destruct (negb (truthy (final_q q))).
  { rewrite invalid_stage_spec. cbn zeta. cbn [win trace].
    destruct (bool_decide _); [|done].
    by destruct (Cache.all_field_for_tags _ _ _). }
  destruct (_search_ids_cache (win w) !! final_q q) as [matched|] eqn:Hc.
  { rewrite invalid_stage_spec. cbn zeta. cbn [win trace].
    destruct (bool_decide _); [|done].
    by destruct (Cache.all_field_for_tags _ _ _). }
  assert (∀ matched k v,
            _search_ids_cache (win w) !! k = Some v →
            <[final_q q := matched]> (_search_ids_cache (win w)) !! k = Some v)
    as Hmono.
  { intros matched k v Hk. rewrite lookup_insert_ne; [done|]. congruence. }
  destruct (Cache.search manager (trace w) (final_q q)) as [matched|e]; [|done].
  rewrite invalid_stage_spec. cbn zeta. cbn [win trace].
  destruct (bool_decide _); [|by cbn; auto].
  destruct (Cache.all_field_for_tags _ _ _); cbn; auto.
Qed.

(** A call whose query string is cached issues no search. *)
Lemma apply_filter_hit (q : FilterQuery) (w : world MainWindow)
    (matched : gset Z) :
  final_q q ≠ EmptyString →
  _search_ids_cache (win w) !! final_q q = Some matched →
  let w' := (apply_filter manager q w).1 in
  Forall (λ ev, is_search ev = false) (new_events w w')
  ∧ filtered_ids (win w')
    = after_invalid_stage manager q (valid_tags (win w)) (trace w)
        (intersect_sorted (sorted_book_ids (win w)) matched).
Proof.
  intros Hq%truthy_ne Hc. cbn zeta.
  rewrite apply_filter_spec, search_stage_spec. cbn zeta.
  rewrite Hq, Hc. cbn [negb].
  rewrite invalid_stage_spec. cbn zeta. cbn [win trace].
  unfold after_invalid_stage.
  destruct (bool_decide _).
  - cbn. destruct (Cache.all_field_for_tags _ _ _);
      cbn; rewrite new_events_app; split; auto.
  - cbn. rewrite new_events_same. split; auto.
Qed.

(** A call without text and facets issues no search either. *)
Lemma apply_filter_no_query (q : FilterQuery) (w : world MainWindow) :
  final_q q = EmptyString →
  let w' := (apply_filter manager q w).1 in
  Forall (λ ev, is_search ev = false) (new_events w w')
  ∧ filtered_ids (win w')
    = after_invalid_stage manager q (valid_tags (win w)) (trace w)
        (sorted_book_ids (win w)).
Proof.
  intros Hq. cbn zeta.
  rewrite apply_filter_spec, search_stage_spec. cbn zeta.
  rewrite Hq. cbn [negb truthy].
  rewrite invalid_stage_spec. cbn zeta. cbn [win trace].
  unfold after_invalid_stage.
  destruct (bool_decide _).
  - cbn. destruct (Cache.all_field_for_tags _ _ _);
      cbn; rewrite new_events_app; split; auto.
  - cbn. rewrite new_events_same. split; auto.
Qed.

(** A miss whose search answers stores the answer. *)
Lemma apply_filter_miss (q : FilterQuery) (w : world MainWindow)
    (matched : gset Z) :
  final_q q ≠ EmptyString →
  _search_ids_cache (win w) !! final_q q = None →
  Cache.search manager (trace w) (final_q q) = Ok matched →
  let w' := (apply_filter manager q w).1 in
  _search_ids_cache (win w') !! final_q q = Some matched
  ∧ filtered_ids (win w')
    = after_invalid_stage manager q (valid_tags (win w))
        (trace w ++ [CSearch (final_q q)])
        (intersect_sorted (sorted_book_ids (win w)) matched).
Proof.
  intros Hq%truthy_ne Hc Hs. cbn zeta.
  rewrite apply_filter_spec, search_stage_spec. cbn zeta.
  rewrite Hq, Hc, Hs. cbn [negb].
  rewrite invalid_stage_spec. cbn zeta. cbn [win trace].
  unfold after_invalid_stage.
  destruct (bool_decide _).
  - cbn. destruct (Cache.all_field_for_tags _ _ _);
      cbn; by rewrite lookup_insert_eq.
  - cbn. by rewrite lookup_insert_eq.
Qed.

(** [apply_filter] never raises. *)
Lemma apply_filter_returns (q : FilterQuery) (w : world MainWindow) :
  (apply_filter manager q w).2 = Ok tt.
Proof.
  rewrite apply_filter_spec.
  destruct (search_stage manager q w) as [? [[]|?]];
    [destruct (invalid_stage manager q _) as [? [[]|?]]|]; done.
Qed.

Lemma apply_filter_keeps_inputs (q : FilterQuery) :
  frame filter_inputs_kept (apply_filter manager q).
Proof. intros w. apply apply_filter_frame. Qed.

Lemma get_metadata_batch_keeps_inputs ids :
  frame filter_inputs_kept (BookManager.get_metadata_batch manager ids).
Proof. unfold BookManager.get_metadata_batch. repeat frame_step. Qed.

Lemma render_row_keeps_inputs bid :
  frame filter_inputs_kept (render_row manager bid).
Proof.
  unfold render_row, get_cover_pixmap, BookManager.get_cover.
  repeat frame_step.
  apply frame_modify. intros x. by destruct (_pixmap_cache x !! inr bid).
Qed.

(** A whole refresh of the table (another filter, another page, covers
    drawn) keeps what the filter reads. *)
Lemma refresh_table_keeps_inputs ft :
  frame filter_inputs_kept (refresh_table manager ft).
Proof.
  unfold refresh_table.
  frame_step; [frame_step|].
  frame_step; [apply apply_filter_keeps_inputs|].
  frame_step; [frame_step|].
  destruct (paginate _ _) as [[total page] page_ids].
  do 2 (frame_step; [frame_step|]).
  frame_step; [apply get_metadata_batch_keeps_inputs|].
  frame_step; [frame_step|].
  frame_step. apply render_row_keeps_inputs.
Qed.

Lemma prev_page_keeps_inputs : frame filter_inputs_kept (prev_page manager).
Proof.
  unfold prev_page. frame_step; [frame_step|]. frame_step; [|frame_step].
  frame_step; [frame_step|]. apply refresh_table_keeps_inputs.
Qed.

Lemma next_page_keeps_inputs : frame filter_inputs_kept (next_page manager).
Proof.
  unfold next_page. frame_step; [frame_step|]. frame_step; [|frame_step].
  frame_step; [frame_step|]. apply refresh_table_keeps_inputs.
Qed.

(** The first call in full: the ids its first stage leaves, the history at
    which the local filter fetches the tags, and the fetch as the last
    event when the [invalid] item is checked. *)
Lemma apply_filter_call (q : FilterQuery) (w : world MainWindow) :
  (final_q q ≠ EmptyString →
   _search_ids_cache (win w) !! final_q q = None →
   is_ok (Cache.search manager (trace w) (final_q q)) = true) →
  let w1 := (apply_filter manager q w).1 in
  ∃ h ids,
    filtered_ids (win w1)
    = after_invalid_stage manager q (valid_tags (win w)) h ids
    ∧ ("invalid"%string ∈ tag_targets q →
       trace w1 = h ++ [CAllFieldFor "tags" ids])
    ∧ (final_q q = EmptyString → ids = sorted_book_ids (win w))
    ∧ (final_q q ≠ EmptyString →
       ∃ matched,
         _search_ids_cache (win w1) !! final_q q = Some matched
         ∧ ids = intersect_sorted (sorted_book_ids (win w)) matched).
Proof.
  intros Hsearch. cbn zeta.
  rewrite apply_filter_spec, search_stage_spec. cbn zeta.
  unfold after_invalid_stage.
  destruct (truthy (final_q q)) eqn:Hq; cbn [negb].
  - apply truthy_ne in Hq.
    destruct (_search_ids_cache (win w) !! final_q q) as [matched|] eqn:Hc.
    + rewrite invalid_stage_spec. cbn zeta. cbn [win trace filtered_ids
        set_filtered_ids valid_tags].
      exists (trace w), (intersect_sorted (sorted_book_ids (win w)) matched).
      destruct (bool_decide _) eqn:Hi.
      * destruct (Cache.all_field_for_tags _ _ _); cbn;
          (split_and!; [done|done|done|]); intros _; by exists matched.
      * cbn. apply bool_decide_eq_false in Hi.
        split_and!; [done|done|done|]. intros _. by exists matched.
    + specialize (Hsearch Hq eq_refl).
      destruct (Cache.search manager (trace w) (final_q q)) as [matched|e];
        [|done].
      rewrite invalid_stage_spec. cbn zeta. cbn [win trace filtered_ids
        set_filtered_ids valid_tags].
      exists (trace w ++ [CSearch (final_q q)]),
        (intersect_sorted (sorted_book_ids (win w)) matched).
      destruct (bool_decide _) eqn:Hi.
      * destruct (Cache.all_field_for_tags _ _ _); cbn;
          (split_and!; [done|done|done|]); intros _; exists matched;
          by rewrite lookup_insert_eq.
      * cbn. apply bool_decide_eq_false in Hi.
        split_and!; [done|done|done|]. intros _. exists matched.
        by rewrite lookup_insert_eq.
  - assert (final_q q = EmptyString) as Hq' by (by destruct (final_q q)).
    rewrite invalid_stage_spec. cbn zeta. cbn [win trace filtered_ids
      set_filtered_ids valid_tags].
    exists (trace w), (sorted_book_ids (win w)).
    destruct (bool_decide _) eqn:Hi.
    + destruct (Cache.all_field_for_tags _ _ _); cbn; by split_and!.
    + cbn. apply bool_decide_eq_false in Hi. by split_and!.
Qed.

(** C2, amended.  Take two queries with the same canonical query string,
    the first of which does not end in a failed search: the string is
    empty, or cached, or the search answers.  After the first call and
    anything that keeps what the filter reads (other filter calls, page
    changes, table refreshes: no invalidation), the second query issues
    no search.  It returns the same ids in the same order, provided that
    the two queries agree on the [invalid] item, which is not part of the
    query string, and that, when it is checked, the tag fetch of the
    first call gets the same answer at the moment of the second. *)
Theorem C2_second_call_hits_cache {A} (q1 q2 : FilterQuery)
    (between : M MainWindow A) (w : world MainWindow) :
  final_q q2 = final_q q1 →
  (final_q q1 ≠ EmptyString →
   _search_ids_cache (win w) !! final_q q1 = None →
   is_ok (Cache.search manager (trace w) (final_q q1)) = true) →
  frame filter_inputs_kept between →
  let w1 := (apply_filter manager q1 w).1 in
  let w2 := (between w1).1 in
  let w3 := (apply_filter manager q2 w2).1 in
  Forall (λ ev, is_search ev = false) (new_events w2 w3)
  ∧ (("invalid"%string ∈ tag_targets q1 ↔ "invalid"%string ∈ tag_targets q2) →
     (∀ h ids,
        "invalid"%string ∈ tag_targets q1 →
        trace w1 = h ++ [CAllFieldFor "tags" ids] →
        Cache.all_field_for_tags manager (trace w2) ids
        = Cache.all_field_for_tags manager h ids) →
     filtered_ids (win w3) = filtered_ids (win w1)).
Proof.
  intros Hq12 Hsearch Hbetween w1 w2 w3.
  pose proof (apply_filter_frame q1 w) as (Hs1 & Hv1 & _).
  pose proof (Hbetween w1) as (Hs2 & Hv2 & Hc2).
  destruct (apply_filter_call q1 w Hsearch) as (h & ids & H1 & Htr & Hno & Hyes).
  cbn zeta in *. fold w1 in Hs1, Hv1, H1, Htr, Hyes.
  fold w2 in Hs2, Hv2, Hc2.
  assert (Forall (λ ev, is_search ev = false) (new_events w2 w3)
          ∧ filtered_ids (win w3)
            = after_invalid_stage manager q2 (valid_tags (win w2)) (trace w2) ids)
    as [Hn H3].
  { destruct (decide (final_q q1 = EmptyString)) as [Hq|Hq].
    - rewrite (Hno Hq), <- Hs1, <- Hs2. apply apply_filter_no_query. congruence.
    - destruct (Hyes Hq) as (matched & Hc1 & ->).
      rewrite <- Hs1, <- Hs2.
      apply apply_filter_hit; [congruence|]. rewrite Hq12. by apply Hc2. }
  split; [exact Hn|]. intros Hsame Htags.
  rewrite H3, H1, Hv2, Hv1. unfold after_invalid_stage.
  destruct (decide ("invalid"%string ∈ tag_targets q1)) as [Hi|Hi].
  - rewrite !bool_decide_eq_true_2 by tauto.
    by rewrite (Htags h ids Hi (Htr Hi)).
  - rewrite !bool_decide_eq_false_2 by tauto. done.
Qed.
End SearchCache.

(** C2 at the search for [a] with the [invalid] item checked, over the
    index [5, 3, 9, 1], with a refresh of the table in between: the
    second call adds no search and returns the same ids again. *)
Lemma C2_witness :
  let w1 := (apply_filter Sample.matching Sample.by_text_invalid Sample.start).1 in
  let w2 := (refresh_table Sample.matching None w1).1 in
  let w3 := (apply_filter Sample.matching Sample.by_text_invalid w2).1 in
  Forall (λ ev, is_search ev = false) (new_events w2 w3)
  ∧ filtered_ids (win w3) = filtered_ids (win w1).
Proof.
  destruct (C2_second_call_hits_cache Sample.matching
              Sample.by_text_invalid Sample.by_text_invalid
              (refresh_table Sample.matching None) Sample.start)
    as [Hn Hsame].
  - reflexivity.
  - intros _ _. reflexivity.
  - apply refresh_table_keeps_inputs.
  - split; [exact Hn|]. apply Hsame; [done|].
    intros h ids _ _. reflexivity.
Defined.

(** The ids of that example: book 1 alone carries an unknown tag, and the
    refresh in between shows the whole index. *)
Example second_call_sample :
  let w1 := (apply_filter Sample.matching Sample.by_text_invalid Sample.start).1 in
  let w2 := (refresh_table Sample.matching None w1).1 in
  let w3 := (apply_filter Sample.matching Sample.by_text_invalid w2).1 in
  filtered_ids (win w1) = [1]
  ∧ filtered_ids (win w2) = [5; 3; 9; 1]
  ∧ filtered_ids (win w3) = [1]
  ∧ new_events w2 w3 = [CAllFieldFor "tags" [3; 1]].
Proof. by vm_compute. Qed.

(** Where the claim as stated fails.  A search that raises is not cached:
    the second call searches again.  The [invalid] item is not part of
    the query string: the search for [a] with and without it are the same
    string and give [1] and [3, 1].  And with that item checked the
    result follows the tags: when the tag of book 3 has changed between
    the two calls, the same query gives [1] and then [3, 1]. *)
Lemma C2_counterexample :
  ¬ C2_as_stated_at Sample.failing_search Sample.by_text Sample.by_text
      Sample.start
  ∧ ¬ C2_as_stated_at Sample.matching Sample.by_text Sample.by_text_invalid
        Sample.start
  ∧ ¬ C2_as_stated_at Scenario.retagged Sample.by_text_invalid
        Sample.by_text_invalid Sample.start.
Proof.
  split_and!.
  - intros H. destruct (H eq_refl) as [H1 _]. vm_compute in H1.
    apply Forall_cons in H1 as [H1 _]. discriminate H1.
  - intros H. destruct (H eq_refl) as [_ H2]. vm_compute in H2.
    discriminate H2.
  - intros H. destruct (H eq_refl) as [_ H2]. vm_compute in H2.
    discriminate H2.
Qed.

(** ** Invalidation and the index *)

Section Index.
Context (manager : Engine).

Lemma apply_filter_same_index q : frame same_index (apply_filter manager q).
Proof.
  unfold apply_filter, filter_body, search_stage, invalid_stage,
    BookManager.search.
  repeat frame_step.
Qed.

Lemma get_metadata_batch_same_index ids :
  frame same_index (BookManager.get_metadata_batch manager ids).
Proof. unfold BookManager.get_metadata_batch. repeat frame_step. Qed.

Lemma render_row_same_index bid : frame same_index (render_row manager bid).
Proof.
  unfold render_row, get_cover_pixmap, BookManager.get_cover.
  repeat frame_step.
  apply frame_modify. intros x. by destruct (_pixmap_cache x !! inr bid).
Qed.

Lemma refresh_table_same_index ft : frame same_index (refresh_table manager ft).
Proof.
  unfold refresh_table.
  frame_step; [frame_step|].
  frame_step; [apply apply_filter_same_index|].
  frame_step; [frame_step|].
  destruct (paginate _ _) as [[total page] page_ids].
  do 2 (frame_step; [frame_step|]).
  frame_step; [apply get_metadata_batch_same_index|].
  frame_step; [frame_step|].
  frame_step. apply render_row_same_index.
Qed.

Lemma update_filter_options_same_index :
  frame same_index (_update_filter_options manager).
Proof.
  unfold _update_filter_options, BookManager.get_all_languages,
    BookManager.get_all_tags.
  repeat frame_step.
  apply frame_modify. intros x. by destruct (0 <=? findData _ _).
Qed.

Lemma after_index_same_index keep_page :
  frame same_index (after_index manager keep_page).
Proof.
  unfold after_index.
  frame_step; [frame_step|].
  frame_step; [repeat frame_step|].
  frame_step; [apply update_filter_options_same_index|].
  apply refresh_table_same_index.
Qed.

Lemma apply_filter_no_multisort q : emits no_multisort (apply_filter manager q).
Proof.
  unfold apply_filter, filter_body, search_stage, invalid_stage,
    BookManager.search.
  repeat emits_step.
Qed.

Lemma refresh_table_no_multisort ft :
  emits no_multisort (refresh_table manager ft).
Proof.
  unfold refresh_table.
  emits_step; [emits_step|].
  emits_step; [apply apply_filter_no_multisort|].
  emits_step; [emits_step|].
  destruct (paginate _ _) as [[total page] page_ids].
  do 2 (emits_step; [emits_step|]).
  emits_step.
  { unfold BookManager.get_metadata_batch. repeat emits_step. }
  emits_step; [emits_step|].
  emits_step.
  unfold render_row, get_cover_pixmap, BookManager.get_cover.
  repeat emits_step.
Qed.

Lemma after_index_no_multisort keep_page :
  emits no_multisort (after_index manager keep_page).
Proof.
  unfold after_index.
  emits_step; [emits_step|].
  emits_step; [repeat emits_step|].
  emits_step.
  { unfold _update_filter_options, BookManager.get_all_languages,
      BookManager.get_all_tags.
    repeat emits_step. }
  apply refresh_table_no_multisort.
Qed.

Lemma load_books_eq (keep_page : bool) :
  load_books manager keep_page
  = try_except (refresh_index manager keep_page ;; after_index manager keep_page)
               (λ e, emit (QMessageBox Critical "msg_load_failed" e)).
Proof. reflexivity. Qed.

(** The kept index is reused: no database call, and the working copy is
    set from it. *)
Lemma refresh_index_reuse (w : world MainWindow) (cached : list Z) :
  _cached_sorted_ids (win w) = Some cached →
  refresh_index manager true w
  = (World (set_sorted_book_ids cached (win w)) (trace w), Ok tt).
Proof. intros Hc. unfold refresh_index. unfold_monad. cbn. by rewrite Hc. Qed.

(** Without a kept index, or when [keep_page] is not set, the index is
    fetched, and the search cache is dropped with it. *)
Lemma refresh_index_rebuild (keep_page : bool) (w : world MainWindow) :
  _cached_sorted_ids (win w) = None ∨ keep_page = false →
  refresh_index manager keep_page w
  = match Cache.multisort manager (trace w) false with
    | Ok ids =>
        (World (set_search_ids_cache ∅
                  (set_cached_sorted_ids (Some ids)
                     (set_sorted_book_ids ids (win w))))
               (trace w ++ [CMultisort false]), Ok tt)
    | Raise msg => (World (win w) (trace w ++ [CMultisort false]), Raise msg)
    end.
Proof.
  intros Hc. unfold refresh_index, BookManager.get_book_ids_sorted_by_timestamp.
  unfold_monad. cbn.
  destruct (_cached_sorted_ids (win w)) as [cached|] eqn:E.
  - destruct Hc as [?| ->]; [done|].
    by destruct (Cache.multisort manager (trace w) false).
  - by destruct (Cache.multisort manager (trace w) false).
Qed.

Lemma load_books_keep_page_keeps_index :
  frame keeps_index (load_books manager true).
Proof.
  rewrite load_books_eq.
  apply frame_try_except; try apply _;
    [|intros e; apply frame_emit; apply _].
  apply frame_bind; try apply _.
  - intros w Hcons. rewrite (refresh_index_reuse w _ Hcons). by split.
  - intros _. apply frame_same_keeps, after_index_same_index.
Qed.

(** After an invalidation that dropped the kept index, [load_books]
    starts by asking the database for the index. *)
Lemma load_books_rebuilds (keep_page : bool) (w : world MainWindow) :
  _cached_sorted_ids (win w) = None →
  ∃ evs, trace (load_books manager keep_page w).1
         = trace w ++ CMultisort false :: evs.
Proof.
  intros Hc. rewrite load_books_eq. unfold try_except, mbind, M_bind.
  rewrite refresh_index_rebuild by auto.
  destruct (Cache.multisort manager (trace w) false) as [ids|msg].
  - match goal with
    | |- context [after_index manager keep_page ?w0] =>
        destruct (after_index_no_multisort keep_page w0) as (evs & Ht & _);
        destruct (after_index manager keep_page w0) as [w1 [[]|e]]
    end; cbn [fst trace] in *.
    + exists evs. by rewrite Ht, <- app_assoc.
    + eexists. unfold emit. cbn [fst trace]. by rewrite Ht, <- !app_assoc.
  - eexists. unfold emit. cbn [fst trace]. by rewrite <- !app_assoc.
Qed.

(** [load_books] shows its own failures and never raises. *)
Lemma load_books_returns (keep_page : bool) (w : world MainWindow) :
  (load_books manager keep_page w).2 = Ok tt.
Proof.
  rewrite load_books_eq. unfold try_except.
  by destruct ((refresh_index manager keep_page ;; after_index manager keep_page) w)
    as [? [[]|?]].
Qed.

(** With the kept index in place, [load_books(keep_page=True)] does not
    ask the database for the index. *)
Lemma load_books_reuses (w : world MainWindow) (cached : list Z) :
  _cached_sorted_ids (win w) = Some cached →
  Forall no_multisort (new_events w (load_books manager true w).1).
Proof.
  intros Hc.
  assert (load_books manager true w
          = try_except
              (modify (set_sorted_book_ids cached) ;; after_index manager true)
              (λ e, emit (QMessageBox Critical "msg_load_failed" e)) w) as ->.
  { rewrite load_books_eq. unfold try_except, mbind, M_bind.
    by rewrite (refresh_index_reuse w cached Hc). }
  apply emits_new_events.
  emits_step; [|emits_step].
  emits_step; [emits_step|]. apply after_index_no_multisort.
Qed.

(** On an empty search cache a query with text or facets starts with a
    search. *)
Lemma apply_filter_on_empty_cache (q : FilterQuery) (w : world MainWindow) :
  final_q q ≠ EmptyString →
  _search_ids_cache (win w) = ∅ →
  ∃ evs, new_events w (apply_filter manager q w).1 = CSearch (final_q q) :: evs.
Proof.
  intros Hq%truthy_ne Hc.
  rewrite apply_filter_spec, search_stage_spec. cbn zeta.
  rewrite Hq, Hc, lookup_empty. cbn [negb].
  destruct (Cache.search manager (trace w) (final_q q)) as [matched|msg].
  - rewrite invalid_stage_spec. cbn zeta. cbn [win trace].
    destruct (bool_decide _).
    + destruct (Cache.all_field_for_tags _ _ _); cbn [fst win trace];
        rewrite <- app_assoc, new_events_app; eauto.
    + cbn [fst win trace]. rewrite new_events_app. eauto.
  - cbn [fst win trace]. rewrite new_events_app. eauto.
Qed.

(** C6.  Whatever the reason, the invalidation empties the search cache
    and leaves the working copy of the index alone.  After a delete or a
    restore the kept index is dropped, so that the following [load_books]
    starts by fetching the index from the database.  After an edit the
    kept index stays, and when it agrees with the working copy the
    following [load_books(keep_page=True)] fetches no index and leaves
    the index as it was.  In every case the next [apply_filter] with a
    non-empty query string starts with a search: no earlier cache entry
    is used. *)
Theorem C6_invalidate_clears_caches (r : reason) (w : world MainWindow) :
  let w' := World (invalidate r (win w)) (trace w) in
  _search_ids_cache (win w') = ∅
  ∧ sorted_book_ids (win w') = sorted_book_ids (win w)
  ∧ match r with
    | Edit =>
        _cached_sorted_ids (win w') = _cached_sorted_ids (win w)
        ∧ (_cached_sorted_ids (win w) = Some (sorted_book_ids (win w)) →
           let w'' := (load_books manager true w').1 in
           sorted_book_ids (win w'') = sorted_book_ids (win w)
           ∧ Forall no_multisort (new_events w' w''))
    | _ =>
        _cached_sorted_ids (win w') = None
        ∧ ∀ keep_page,
            ∃ evs, new_events w' (load_books manager keep_page w').1
                   = CMultisort false :: evs
    end
  ∧ ∀ q, final_q q ≠ EmptyString →
         ∃ evs, new_events w' (apply_filter manager q w').1
                = CSearch (final_q q) :: evs.
Proof.
  cbn zeta. split; [by destruct r|]. split; [by destruct r|]. split.
  - destruct r as [bids| |].
    + split; [done|]. intros keep_page.
      destruct (load_books_rebuilds keep_page
                  (World (invalidate (Delete bids) (win w)) (trace w)) eq_refl)
        as (evs & Ht).
      exists evs. by apply new_events_of_trace.
    + split; [done|]. intros keep_page.
      destruct (load_books_rebuilds keep_page
                  (World (invalidate Restore (win w)) (trace w)) eq_refl)
        as (evs & Ht).
      exists evs. by apply new_events_of_trace.
    + split; [done|]. intros Hcons. split.
      * by destruct (load_books_keep_page_keeps_index
                       (World (invalidate Edit (win w)) (trace w)) Hcons).
      * by eapply load_books_reuses.
  - intros q Hq. apply apply_filter_on_empty_cache; [done|]. by destruct r.
Qed.
End Index.

(** C6 at a delete of book 9 while the search cache holds an entry for
    the current query: the cache is emptied and the next filter call
    searches again. *)
Lemma C6_witness :
  let w' := World (invalidate (Delete [9]) (win Sample.stale)) [] in
  _search_ids_cache (win Sample.stale) !! final_q Sample.by_text = Some {[9]}
  ∧ _search_ids_cache (win w') = ∅
  ∧ ∃ evs, new_events w' (apply_filter Sample.matching Sample.by_text w').1
           = CSearch (final_q Sample.by_text) :: evs.
Proof.
  destruct (C6_invalidate_clears_caches Sample.matching (Delete [9])
              Sample.stale) as (H1 & _ & _ & H4).
  split; [vm_compute; reflexivity|]. split; [exact H1|].
  apply H4. vm_compute. discriminate.
Defined.

Section Handlers.
Context (manager : Engine).

(** The whole edit completion callback keeps the index. *)
Lemma on_finished_keeps_index (error_msg : string) :
  frame keeps_index (on_finished manager true error_msg).
Proof.
  unfold on_finished.
  apply frame_bind; try apply _.
  { apply frame_modify. intros x _. by split. }
  intros _. apply frame_bind; try apply _.
  - apply load_books_keep_page_keeps_index.
  - intros _. apply frame_emit. apply _.
Qed.

(** A failed edit shows the error and touches neither index nor caches. *)
Lemma on_finished_failure (error_msg : string) (w : world MainWindow) :
  on_finished manager false error_msg w
  = (World (win w)
           (trace w ++ [QMessageBox Critical "msg_update_failed" error_msg]),
     Ok tt).
Proof. reflexivity. Qed.

(** X16.  A confirmed delete that the database accepts is followed by
    the invalidation and by a fresh fetch of the index. *)
Lemma delete_selected_rebuilds_index (sel : list BookMetadata.t)
    (w : world MainWindow) :
  sel ≠ [] →
  let bids := BookMetadata.id <$> sel in
  Cache.remove_books manager (trace w) (list_to_set bids) false = Ok tt →
  ∃ evs,
    new_events w (delete_selected manager sel true w).1
    = CRemoveBooks (list_to_set bids) false
      :: QMessageBox Information "msg_delete_success" EmptyString
      :: CMultisort false :: evs.
Proof.
  intros Hsel bids Hrm. destruct sel as [|b sel']; [done|].
  unfold delete_selected, BookManager.delete_books.
  fold bids. unfold try_except, mbind, M_bind, call, modify, emit.
  cbn [win trace]. rewrite Hrm.
  match goal with
  | |- context [load_books manager false ?w0] =>
      destruct (load_books_rebuilds manager false w0 eq_refl) as (evs & Hev);
      pose proof (load_books_returns manager false w0) as Hok;
      destruct (load_books manager false w0) as [w1 r]
  end.
  cbn [snd fst trace] in *. subst r. cbn [fst].
  exists evs. apply new_events_of_trace.
  by rewrite Hev, <- !app_assoc.
Qed.

(** X17.  A delete that the database refuses invalidates nothing. *)
Lemma delete_selected_failure (sel : list BookMetadata.t)
    (w : world MainWindow) (msg : string) :
  sel ≠ [] →
  let bids := BookMetadata.id <$> sel in
  Cache.remove_books manager (trace w) (list_to_set bids) false = Raise msg →
  delete_selected manager sel true w
  = (World (win w)
           (trace w ++ [CRemoveBooks (list_to_set bids) false;
                        QMessageBox Critical "msg_delete_failed" msg]),
     Ok tt).
Proof.
  intros Hsel bids Hrm. destruct sel as [|b sel']; [done|].
  unfold delete_selected, BookManager.delete_books.
  fold bids. unfold try_except, mbind, M_bind, call, modify, emit.
  cbn [win trace]. rewrite Hrm. cbn [win trace]. by rewrite <- app_assoc.
Qed.
End Handlers.

(** ** The bulk update worker *)

Section Worker.
Context {W : Type} (manager : Engine).
Implicit Types (w : world W) (bid : Z) (v : value).


(** The first error ends a loop: the remaining iterations do not run. *)
Lemma for_each_raises {A} (body : A → M W unit) (done_ rest : list A) (x : A)
    w w1 w2 (msg : string) :
  for_each body done_ w = (w1, Ok tt) →
  body x w1 = (w2, Raise msg) →
  for_each body (done_ ++ x :: rest) w = (w2, Raise msg).
Proof.
  revert w. induction done_ as [|y ys IH]; intros w.
  - intros [= <-] Hx. cbn [app for_each]. unfold mbind, M_bind. by rewrite Hx.
  - cbn [app for_each]. unfold mbind, M_bind.
    destruct (body y w) as [w0 [[]|e]]; [|done]. apply IH.
Qed.

(** A field other than the date is written as it is; an error of the
    write leaves the loop. *)
Lemma update_field_other bid f v w :
  f ≠ "pubdate"%string →
  UpdateWorker.update_field manager bid (f, v) w
  = (World (win w) (trace w ++ [CSetField f bid v]),
     Cache.set_field manager (trace w) f bid v).
Proof.
  intros Hf. unfold UpdateWorker.update_field.
  destruct (String.eqb_spec f "pubdate"); [done|]. reflexivity.
Qed.

(** The date field: a value that parses is written as a date, a value
    that does not parse is skipped, and nothing raises either way. *)
Lemma update_field_pubdate bid v w :
  UpdateWorker.update_field manager bid ("pubdate"%string, v) w
  = match Strptime.strptime v with
    | Ok dt => (World (win w) (trace w ++ [CSetField "pubdate" bid dt]), Ok tt)
    | Raise _ => (w, Ok tt)
    end.
Proof.
  unfold UpdateWorker.update_field, BookManager.set_field.
  cbn [String.eqb Ascii.eqb Bool.eqb].
  unfold_monad. cbn.
  destruct (Strptime.strptime v) as [dt|msg]; [|done].
  by destruct (Cache.set_field manager (trace w) "pubdate" bid dt) as [[]|e].
Qed.


(** The whole of [run], from the answers of the two brackets and the
    outcome of the loop. *)
Lemma run_spec (bids : list Z) (updates : list (string * value)) w :
  UpdateWorker.run manager bids updates w
  = match begin_answer manager (trace w) with
    | Raise e =>
        (World (win w) (trace w ++ [CStartBulkUpdate; SFinished false e]), Ok tt)
    | Ok _ =>
        let '(w1, r) := worker_loop manager bids updates w in
        (World (win w1)
               (trace w1 ++ [CEndBulkUpdate;
                             report r (commit_answer manager (trace w1))]),
         Ok tt)
    end.
Proof.
  unfold UpdateWorker.run, BookManager.start_bulk_update,
    BookManager.end_bulk_update, begin_answer, commit_answer, report,
    worker_loop.
  unfold try_except, try_finally, call, emit.
  unfold mbind, M_bind at 1 2. cbn [win trace].
  destruct (match Cache.start_bulk_update manager with
            | Some f => f (trace w) | None => Ok tt end) as [[]|e].
  - destruct (for_each _ _ _) as [w1 r]. cbn [win trace].
    destruct (match Cache.end_bulk_update manager with
              | Some f => f (trace w1) | None => Ok tt end) as [[]|e'];
      destruct r as [[]|e]; cbn; by rewrite <- ?app_assoc.
  - cbn. by rewrite <- app_assoc.
Qed.

(** C7, amended.  Once the opening bracket has answered, the commit
    bracket is called after the loop, however the loop ended, and one
    final signal follows it.  When the commit bracket raises, the signal
    is a failure with the description of the error of the commit
    bracket.  When the loop ended with an error and the commit bracket
    answers, it is a failure with the description of that error.  When
    nothing went wrong, that is the loop ended without error, no write
    was refused by the database and the commit bracket answered, it is a
    success.  (Nothing is said of a run in which the database refused
    the write of a date: that error does not leave the loop.) *)
Theorem C7_commit_attempted_outcome_reported (bids : list Z)
    (updates : list (string * value)) w w1 (r : result unit) :
  begin_answer manager (trace w) = Ok tt →
  worker_loop manager bids updates w = (w1, r) →
  ∃ success error_msg,
    UpdateWorker.run manager bids updates w
    = (World (win w1)
             (trace w1 ++ [CEndBulkUpdate; SFinished success error_msg]),
       Ok tt)
    ∧ (∀ e, commit_answer manager (trace w1) = Raise e →
            success = false ∧ error_msg = e)
    ∧ (∀ e, r = Raise e → commit_answer manager (trace w1) = Ok tt →
            success = false ∧ error_msg = e)
    ∧ (r = Ok tt → commit_answer manager (trace w1) = Ok tt →
       no_write_refused manager (trace w) (trace w1) →
       success = true ∧ error_msg = EmptyString).
Proof.
  intros Hb Hloop. rewrite run_spec, Hb, Hloop. unfold report.
  destruct (commit_answer manager (trace w1)) as [[]|e'];
    destruct r as [[]|e]; eexists _, _; (split; [reflexivity|]);
    split_and!; intros; simplify_eq; done.
Qed.

Lemma update_fields_no_progress bid (updates : list (string * value)) :
  emits (W:=W) not_progress
    (for_each (UpdateWorker.update_field manager bid) updates).
Proof.
  apply emits_for_each. intros [f v].
  unfold UpdateWorker.update_field, BookManager.set_field.
  repeat emits_step.
Qed.

Lemma progress_values_app (t1 t2 : list event) :
  progress_values (t1 ++ t2) = progress_values t1 ++ progress_values t2.
Proof. apply omap_app. Qed.

Lemma progress_values_none (t : list event) :
  Forall not_progress t → progress_values t = [].
Proof.
  induction 1 as [|ev t Hev _ IH]; [done|].
  unfold progress_values in *. cbn. rewrite IH. by destruct ev.
Qed.

(** One book that completes reports once, after its fields. *)
Lemma update_book_progress (updates : list (string * value)) (total i bid : Z)
    w w1 :
  UpdateWorker.update_book manager updates total (i, bid) w = (w1, Ok tt) →
  ∃ evs p,
    trace w1 = trace w ++ evs ++ [SProgress p]
    ∧ Forall not_progress evs
    ∧ Float.percent (i + 1) total = Ok p.
Proof.
  unfold UpdateWorker.update_book. unfold mbind, M_bind, lift, emit.
  destruct (update_fields_no_progress bid updates w) as (evs & Ht & HP).
  destruct (for_each _ updates w) as [w0 [[]|msg]]; [|done].
  cbn [fst] in Ht.
  destruct (Float.percent (i + 1) total) as [p|msg]; [|done].
  intros [= <-]. exists evs, p. cbn. by rewrite Ht, <- app_assoc.
Qed.

(** Progress is reported once per identifier, in order, whatever the
    number of fields: the value after the [k]-th of [total] books is
    [int(k / total * 100)]. *)
Lemma loop_progress (updates : list (string * value)) (total : Z)
    (ibs : list (Z * Z)) w w1 :
  for_each (UpdateWorker.update_book manager updates total) ibs w = (w1, Ok tt) →
  ∃ evs,
    trace w1 = trace w ++ evs
    ∧ Forall2 (λ ib p, Float.percent (ib.1 + 1) total = Ok p)
              ibs (progress_values evs).
Proof.
  revert w. induction ibs as [|[i bid] ibs IH]; intros w.
  - intros [= <-]. exists []. by rewrite app_nil_r.
  - cbn [for_each]. unfold mbind, M_bind.
    destruct (UpdateWorker.update_book manager updates total (i, bid) w)
      as [w0 [[]|msg]] eqn:E; [|done].
    intros Hrest.
    destruct (update_book_progress _ _ _ _ _ _ E) as (evs & p & Ht & HP & Hp).
    destruct (IH _ Hrest) as (evs' & Ht' & HF).
    exists ((evs ++ [SProgress p]) ++ evs'). split.
    + by rewrite Ht', Ht, !app_assoc.
    + rewrite !progress_values_app, (progress_values_none evs HP).
      cbn. by constructor.
Qed.
End Worker.

(** C7 at one book whose title write raises while the commit bracket
    answers: the bracket is called after the failed write and the failure
    carries the description of the write error. *)
Lemma C7_witness :
  trace (UpdateWorker.run Sample.failing_write [7] Sample.title_update
           (World tt [])).1
  = [CStartBulkUpdate; CSetField "title" 7 (VStr "X"); CEndBulkUpdate;
     SFinished false "write failed"].
Proof.
  destruct (C7_commit_attempted_outcome_reported Sample.failing_write [7]
              Sample.title_update (World tt [])
              (World tt [CStartBulkUpdate; CSetField "title" 7 (VStr "X")])
              (Raise "write failed") eq_refl eq_refl)
    as (success & error_msg & Hrun & _ & Hloop & _).
  destruct (Hloop _ eq_refl eq_refl) as [-> ->].
  rewrite Hrun. reflexivity.
Defined.

(** The same update with a database that answers everything: no write is
    refused, and the run ends in success. *)
Example run_without_error :
  no_write_refused Sample.quiet []
    [CStartBulkUpdate; CSetField "title" 7 (VStr "X"); SProgress 100]
  ∧ trace (UpdateWorker.run Sample.quiet [7] Sample.title_update
             (World tt [])).1
    = [CStartBulkUpdate; CSetField "title" 7 (VStr "X"); SProgress 100;
       CEndBulkUpdate; SFinished true EmptyString].
Proof. split; [by intros pre f bid v rest _|by vm_compute]. Qed.

(** When the commit bracket raises as well, the description that is
    reported is the one of the commit bracket, not the one of the write. *)
Lemma C7_counterexample :
  ¬ C7_as_stated_at Sample.failing_write_and_commit [7] Sample.title_update
      (World tt []).
Proof.
  intros H. unfold C7_as_stated_at in H.
  specialize (H _ _ eq_refl ltac:(vm_compute; reflexivity)).
  vm_compute in H. discriminate H.
Qed.

(** An error of the database while it writes a date that parsed is caught
    with the parse errors: the run goes on and ends in success. *)
Example date_write_error_is_swallowed :
  trace (UpdateWorker.run Sample.failing_write [7]
           [("pubdate"%string, VStr "2024-01-05")] (World tt [])).1
  = [CStartBulkUpdate; CSetField "pubdate" 7 (VDate 2024 1 5); SProgress 100;
     CEndBulkUpdate; SFinished true EmptyString].
Proof. by vm_compute. Qed.

(** An error on the second of three books ends the batch there: the third
    book is not touched, and the commit bracket still follows. *)
Example error_ends_the_batch :
  trace (UpdateWorker.run Sample.failing_on_8 [7; 8; 9] Sample.title_update
           (World tt [])).1
  = [CStartBulkUpdate;
     CSetField "title" 7 (VStr "X"); SProgress 33;
     CSetField "title" 8 (VStr "X");
     CEndBulkUpdate; SFinished false "record is locked"].
Proof. by vm_compute. Qed.

(** The format accepts months and days without a leading zero, and checks
    the day against the month and the year. *)
Example strptime_samples :
  Strptime.strptime_ymd "2024-01-05" = Ok (2024, 1, 5)
  ∧ Strptime.strptime_ymd "2024-1-5" = Ok (2024, 1, 5)
  ∧ Strptime.strptime_ymd "2024-02-29" = Ok (2024, 2, 29)
  ∧ is_ok (Strptime.strptime_ymd "2023-02-29") = false
  ∧ is_ok (Strptime.strptime_ymd "2024-13-40") = false
  ∧ is_ok (Strptime.strptime_ymd "2024-12-311") = false
  ∧ is_ok (Strptime.strptime_ymd "05.01.2024") = false.
Proof. by vm_compute. Qed.

(** The example of the specification: three books report 33, 66, 100. *)
Example progress_of_three :
  progress_values
    (trace (UpdateWorker.run Sample.quiet [7; 8; 9] Sample.title_update
              (World tt [])).1)
  = [33; 66; 100].
Proof. by vm_compute. Qed.

(** C8.  With the 50 books of a full page, the progress signal after the
    29th book carries 57, although 29 of 50 books are exactly 58 percent:
    [29 / 50 * 100] is [57.99999999999999] in binary64 and [int]
    truncates it. *)
Theorem C8_progress_29_of_50 :
  progress_values
    (trace (UpdateWorker.run Sample.quiet (seqZ 1 50) Sample.title_update
              (World tt [])).1) !! 28%nat
  = Some 57
  ∧ (100 * 29) `div` 50 = 58.
Proof. by vm_compute. Qed.

(** Up to 50 books that is the only value that differs from the exact
    integer percentage [floor(100 k / n)]. *)
Lemma percent_exact_up_to_50 :
  forallb
    (λ n, forallb
            (λ k, if (k =? 29) && (n =? 50) then true
                  else match Float.percent k n with
                       | Ok p => p =? (100 * k) `div` n
                       | Raise _ => false
                       end)
            (seqZ 1 n))
    (seqZ 1 50)
  = true.
Proof. by vm_compute. Qed.

(** ** Pagination: the page as a window of the list *)

(** [paginate] in closed form. *)
Lemma paginate_eq (filtered : list Z) (page : Z) :
  paginate filtered page
  = let total := total_pages_of filtered in
    let cur := Z.max 0 (Z.min page (total - 1)) in
    (total, cur, take 50 (drop (Z.to_nat (cur * PAGE_SIZE)) filtered)).
Proof.
  cbv zeta. unfold paginate at 1.
  change ((Z.of_nat (length filtered) + PAGE_SIZE - 1) `div` PAGE_SIZE)
    with (total_pages_of filtered).
  do 2 f_equal.
  set (cur := Z.max 0 (Z.min page (total_pages_of filtered - 1))).
  replace ((cur + 1) * PAGE_SIZE) with (cur * PAGE_SIZE + Z.of_nat 50)
    by (unfold PAGE_SIZE; lia).
  apply slice_nonneg. unfold PAGE_SIZE. lia.
Qed.

(** X1.  The page that is shown is a window of the filtered list: the
    ids that follow the first [50 * page] ids, in their order, up to 50
    of them and fewer only when the list ends there.  The page is empty
    only when the list is, and every page before the last one holds
    exactly 50 ids. *)
Theorem page_is_a_window (filtered : list Z) (page : Z) :
  let '(total, cur, page_ids) := paginate filtered page in
  (∃ before after,
     filtered = before ++ page_ids ++ after
     ∧ Z.of_nat (length before) = 50 * cur
     ∧ (length page_ids = 50%nat ∨ after = []))
  ∧ (length page_ids ≤ 50)%nat
  ∧ (filtered ≠ [] → page_ids ≠ [] ∧ 0 ≤ cur < total)
  ∧ (cur < total - 1 → length page_ids = 50%nat).
Proof.
  rewrite paginate_eq. cbv zeta.
  pose proof (total_pages_ceil filtered) as Hceil.
  unfold is_ceil_div, PAGE_SIZE in *.
  set (total := total_pages_of filtered) in *.
  set (cur := Z.max 0 (Z.min page (total - 1))).
  assert (0 ≤ total) by lia.
  assert (50 * cur ≤ Z.of_nat (length filtered)) as Hfit by lia.
  split; [|split; [|split]].
  - exists (take (Z.to_nat (cur * 50)) filtered),
      (drop 50 (drop (Z.to_nat (cur * 50)) filtered)).
    split; [by rewrite !take_drop|]. split.
    + rewrite length_take. lia.
    + destruct (decide (50 ≤ length (drop (Z.to_nat (cur * 50)) filtered))%nat).
      * left. rewrite length_take. lia.
      * right. apply drop_ge. lia.
  - rewrite length_take. lia.
  - intros Hne. assert (0 < Z.of_nat (length filtered)).
    { destruct filtered; [done|]. cbn [length]. lia. }
    assert (0 < total) by lia.
    split; [|lia].
    intros Hempty%(f_equal length).
    rewrite length_take, length_drop in Hempty.
    change (length (@nil Z)) with 0%nat in Hempty. lia.
  - intros Hlt. rewrite length_take, length_drop. lia.
Qed.

(** ** The filter, for every query *)

Section FilterResult.
Context (manager : Engine).

(** The ids left by the first stage are ids of the index, in its order. *)
Lemma search_stage_sublist (q : FilterQuery) (w w1 : world MainWindow) r :
  search_stage manager q w = (w1, r) →
  sorted_book_ids (win w1) = sorted_book_ids (win w)
  ∧ (r = Ok tt →
     filtered_ids (win w1) `sublist_of` sorted_book_ids (win w)).
Proof.
  rewrite search_stage_spec. cbn zeta.
  destruct (negb (truthy (final_q q))).
  { intros [= <- <-]. split; [done|]. by intros _. }
  destruct (_search_ids_cache (win w) !! final_q q) as [matched|].
  { intros [= <- <-]. split; [done|]. intros _. apply sublist_filter. }
  destruct (Cache.search manager (trace w) (final_q q)) as [matched|e].
  - intros [= <- <-]. split; [done|]. intros _. apply sublist_filter.
  - intros [= <- <-]. split; [done|]. done.
Qed.

Lemma apply_filter_sublist (q : FilterQuery) (w : world MainWindow) :
  filtered_ids (win (apply_filter manager q w).1)
    `sublist_of` sorted_book_ids (win w).
Proof.
  rewrite apply_filter_spec.
  destruct (search_stage manager q w) as [w1 r1] eqn:E1.
  destruct (search_stage_sublist q w w1 r1 E1) as [Hs Hf].
  destruct r1 as [[]|e]; [|apply sublist_nil_l].
  specialize (Hf eq_refl).
  rewrite invalid_stage_spec. cbn zeta.
  destruct (bool_decide _); [|done].
  destruct (Cache.all_field_for_tags _ _ _); cbn; [|apply sublist_nil_l].
  etrans; [apply sublist_filter|done].
Qed.

(** X2.  Whatever the query, the cache and the answers of the database,
    the result of [apply_filter] is a subsequence of the index: the
    filter adds no id and never changes the order, so that every id
    shown is an id of the index and an index without repetition gives a
    result without repetition. *)
Theorem filter_result_within_index (q : FilterQuery) (w : world MainWindow) :
  let result := filtered_ids (win (apply_filter manager q w).1) in
  result `sublist_of` sorted_book_ids (win w)
  ∧ (∀ bid, bid ∈ result → bid ∈ sorted_book_ids (win w))
  ∧ (NoDup (sorted_book_ids (win w)) → NoDup result).
Proof.
  cbv zeta. pose proof (apply_filter_sublist q w) as Hsub.
  split; [exact Hsub|]. split.
  - intros bid Hin. by eapply elem_of_sublist.
  - intros Hnd. by eapply sublist_NoDup.
Qed.

Lemma join_nil_inv (sep p : string) (rest : list string) :
  join sep (p :: rest) = EmptyString → p = EmptyString.
Proof.
  destruct rest as [|p' rest]; cbn [join]; [done|].
  by destruct p.
Qed.

Lemma tag_clause_nil (t : string) : tag_clause t = [] ↔ t = "invalid"%string.
Proof.
  unfold tag_clause.
  destruct (String.eqb_spec t "none") as [->|Hn]; [done|].
  destruct (String.eqb_spec t "invalid") as [->|Hi]; cbn; [done|].
  split; [done|]. intros ->. done.
Qed.

Lemma tag_clauses_nil (ts : list string) :
  ts ≫= tag_clause = [] ↔ Forall (λ t, t = "invalid"%string) ts.
Proof.
  induction ts as [|t ts IH]; [by split|].
  cbn [mbind list_bind]. rewrite Forall_cons, <- IH, <- tag_clause_nil.
  split.
  - by intros [? ?]%app_eq_nil.
  - intros [-> ->]. done.
Qed.

Lemma lang_clause_nil (l : option string) :
  lang_clause l = []
  ↔ l = None ∨ l = Some EmptyString ∨ l = Some "all"%string.
Proof.
  destruct l as [l|]; [|by split; auto].
  unfold lang_clause.
  destruct (String.eqb_spec l "all") as [->|Hne]; [by split; auto|].
  destruct l as [|c l']; [by split; auto|].
  cbn [truthy negb andb]. split; [done|].
  intros [?|[?|?]]; congruence.
Qed.

Lemma clause_not_empty (c : string) (q : FilterQuery) :
  c ∈ clauses q → c ≠ EmptyString.
Proof.
  unfold clauses. rewrite !elem_of_app. intros [H|[H|H]].
  - destruct (truthy (search q)); [|by apply elem_of_nil in H].
    apply list_elem_of_singleton in H as ->. done.
  - destruct (lang_target q) as [l|]; cbn in H; [|by apply elem_of_nil in H].
    destruct (truthy l && negb (String.eqb l "all"));
      [|by apply elem_of_nil in H].
    apply list_elem_of_singleton in H as ->. by destruct (String.eqb l "none").
  - apply list_elem_of_bind in H as (t & Hc & _).
    unfold tag_clause in Hc.
    destruct (String.eqb t "none");
      [by apply list_elem_of_singleton in Hc as ->|].
    destruct (negb (String.eqb t "invalid")); [|by apply elem_of_nil in Hc].
    by apply list_elem_of_singleton in Hc as ->.
Qed.

(** X3.  The query string is empty, so that no search is made, exactly
    when the stripped text is empty, the language box offers nothing or
    stands on the item for all languages, and no tag item other than
    [invalid] is checked. *)
Theorem final_q_empty_iff (q : FilterQuery) :
  final_q q = EmptyString
  ↔ search q = EmptyString
    ∧ (lang_target q = None ∨ lang_target q = Some EmptyString
       ∨ lang_target q = Some "all"%string)
    ∧ Forall (λ t, t = "invalid"%string) (tag_targets q).
Proof.
  rewrite <- tag_clauses_nil, <- lang_clause_nil.
  split.
  - intros Hq.
    assert (clauses q = []) as Hc.
    { unfold final_q in Hq. destruct (clauses q) as [|c cs] eqn:E; [done|].
      apply join_nil_inv in Hq.
      exfalso. apply (clause_not_empty c q); [|done]. rewrite E. by left. }
    unfold clauses in Hc.
    apply app_eq_nil in Hc as [H1 [H2 H3]%app_eq_nil].
    split; [|done]. by destruct (search q).
  - intros (Hs & Hl & Ht). unfold final_q, clauses.
    by rewrite Hs, Hl, Ht.
Qed.

(** X4.  One call of [apply_filter] asks the database at most twice.  It
    searches exactly when the query string is not empty and not in the
    search cache, once and with that string.  After that it fetches tags
    at most once, only when the [invalid] item is checked, and only for
    ids of the index. *)
Theorem apply_filter_calls (q : FilterQuery) (w : world MainWindow) :
  ∃ fetch,
    new_events w (apply_filter manager q w).1
    = (if needs_search q (win w) then [CSearch (final_q q)] else []) ++ fetch
    ∧ ("invalid"%string ∉ tag_targets q → fetch = [])
    ∧ (fetch = []
       ∨ ∃ ids, fetch = [CAllFieldFor "tags" ids]
                ∧ ids `sublist_of` sorted_book_ids (win w)).
Proof.
  rewrite apply_filter_spec.
  destruct (search_stage manager q w) as [w1 r1] eqn:E1.
  destruct (search_stage_sublist q w w1 r1 E1) as [Hs Hf].
  assert (trace w1
          = trace w ++ (if needs_search q (win w)
                        then [CSearch (final_q q)] else [])
          ∧ (r1 = Ok tt ∨ ∃ e, r1 = Raise e)) as [Ht Hr].
  { rewrite search_stage_spec in E1. cbn zeta in E1. unfold needs_search.
    destruct (truthy (final_q q)); cbn [negb andb] in *.
    - destruct (_search_ids_cache (win w) !! final_q q) as [matched|].
      + injection E1 as <- <-. rewrite bool_decide_eq_false_2 by done.
        cbn. rewrite app_nil_r. auto.
      + rewrite bool_decide_eq_true_2 by done.
        destruct (Cache.search manager (trace w) (final_q q));
          injection E1 as <- <-; cbn; eauto.
    - injection E1 as <- <-. cbn. rewrite app_nil_r. auto. }
  destruct r1 as [[]|e].
  - specialize (Hf eq_refl).
    rewrite invalid_stage_spec. cbn zeta.
    case_bool_decide as Hi.
    + exists [CAllFieldFor "tags" (filtered_ids (win w1))].
      split; [|split].
      * destruct (Cache.all_field_for_tags _ _ _); cbn [fst trace];
          rewrite Ht, <- app_assoc; apply new_events_of_trace; done.
      * done.
      * right. eauto.
    + exists []. rewrite app_nil_r. split; [|by auto].
      apply new_events_of_trace. done.
  - exists []. rewrite app_nil_r. split; [|by auto].
    apply new_events_of_trace. done.
Qed.
End FilterResult.

(** ** The cover cache *)

Section Covers.
Context (manager : Engine).

Lemma get_cover_pixmap_spec (bid : Z) (w : world MainWindow) :
  get_cover_pixmap manager bid w
  = match _pixmap_cache (win w) !! inl bid with
    | Some pix => (w, Ok (Some pix))
    | None =>
        let w1 := World (win w) (trace w ++ [CCover bid]) in
        match Cache.cover manager (trace w) bid with
        | Ok (Some data) =>
            if truthy data
            then (World (set_pixmap_cache
                           (<[inl bid := data]> (_pixmap_cache (win w))) (win w))
                        (trace w ++ [CCover bid]), Ok (Some data))
            else (w1, Ok None)
        | _ => (w1, Ok None)
        end
    end.
Proof.
  unfold get_cover_pixmap, BookManager.get_cover. unfold_monad. cbn.
  destruct (_pixmap_cache (win w) !! inl bid); [done|].
  destruct (Cache.cover manager (trace w) bid) as [[data|]|e]; try done.
  by destruct (truthy data).
Qed.

(** X7.  [get_cover_pixmap] never raises.  A cover that is in the cache
    is returned without a call to the database and without any change.
    Otherwise the database is asked once.  When it answers with a cover
    that is not empty, that cover is returned and stored under the book,
    the rest of the cache staying as it was, so that asking again returns
    it without a call.  When it answers that there is no cover, answers
    with an empty one or raises, the result is [None], nothing is cached
    and the window is left as it was. *)
Theorem cover_is_fetched_once (bid : Z) (w : world MainWindow) :
  let '(w1, r) := get_cover_pixmap manager bid w in
  (∃ pix, r = Ok pix)
  ∧ (∀ pix, _pixmap_cache (win w) !! inl bid = Some pix →
            r = Ok (Some pix) ∧ w1 = w)
  ∧ (_pixmap_cache (win w) !! inl bid = None →
     trace w1 = trace w ++ [CCover bid]
     ∧ (∀ data,
          Cache.cover manager (trace w) bid = Ok (Some data) →
          data ≠ EmptyString →
          r = Ok (Some data)
          ∧ win w1
            = set_pixmap_cache (<[inl bid := data]> (_pixmap_cache (win w)))
                (win w)
          ∧ get_cover_pixmap manager bid w1 = (w1, Ok (Some data)))
     ∧ (Cache.cover manager (trace w) bid = Ok None
        ∨ Cache.cover manager (trace w) bid = Ok (Some EmptyString)
        ∨ (∃ e, Cache.cover manager (trace w) bid = Raise e) →
        r = Ok None ∧ win w1 = win w)).
Proof.
  destruct (get_cover_pixmap manager bid w) as [w1 r] eqn:Hrun.
  rewrite get_cover_pixmap_spec in Hrun.
  destruct (_pixmap_cache (win w) !! inl bid) as [pix|] eqn:Hc.
  { injection Hrun as <- <-. split_and!; [by eexists| |done].
    by intros pix' [= <-]. }
  cbv zeta in Hrun.
  destruct (Cache.cover manager (trace w) bid) as [[data|]|e] eqn:Hcover.
  - destruct data as [|c data'] eqn:Hdata; cbn [truthy] in Hrun;
      injection Hrun as <- <-.
    + split_and!; [by eexists|done|]. intros _.
      split_and!; [done| |done]. by intros data0 [= <-].
    + split_and!; [by eexists|done|]. intros _.
      split_and!; [done| |].
      * intros data0 [= <-] _. split_and!; [done|done|].
        rewrite get_cover_pixmap_spec. cbn [win trace _pixmap_cache
          set_pixmap_cache]. by rewrite lookup_insert_eq.
      * intros [?|[?|[? ?]]]; done.
  - injection Hrun as <- <-. split_and!; [by eexists|done|]. intros _.
    split_and!; done.
  - injection Hrun as <- <-. split_and!; [by eexists|done|]. intros _.
    split_and!; done.
Qed.

Lemma lookup_pop_covers (bids : list Z) (c : gmap (Z + Z) string) (k : Z + Z) :
  pop_covers bids c !! k
  = if decide (cover_key_book k ∈ bids) then None else c !! k.
Proof.
  unfold pop_covers. revert c.
  induction bids as [|b bids IH]; intros c; cbn [foldl].
  { by destruct (decide (cover_key_book k ∈ [])) as [?%elem_of_nil|]. }
  rewrite IH. destruct (decide (cover_key_book k ∈ bids)) as [Hin|Hnin].
  - by rewrite decide_True by (by right).
  - destruct (decide (cover_key_book k = b)) as [Heq|Hne].
    + rewrite decide_True by (rewrite Heq; by left).
      destruct k as [x|x]; cbn in Heq; subst x.
      * by rewrite lookup_delete_ne, lookup_delete_eq.
      * by rewrite lookup_delete_eq.
    + rewrite decide_False by (by intros [?|?]%elem_of_cons).
      destruct k as [x|x]; cbn in Hne;
        rewrite !lookup_delete_ne by congruence; done.
Qed.

(** X8.  The invalidation after a delete drops the cached cover and the
    cached thumbnail of every deleted book and keeps every other entry;
    the invalidations after a restore and after an edit keep the whole
    cover cache. *)
Theorem invalidate_covers (r : reason) (w : MainWindow) (k : Z + Z) :
  _pixmap_cache (invalidate r w) !! k
  = match r with
    | Delete bids =>
        if decide (cover_key_book k ∈ bids) then None else _pixmap_cache w !! k
    | _ => _pixmap_cache w !! k
    end.
Proof. destruct r as [bids| |]; [apply lookup_pop_covers|done|done]. Qed.
End Covers.

(** ** The filter boxes across a reload *)

Lemma checkedData_setCheckedItems (targets : list string)
    (c : list (string * bool)) :
  checkedData (setCheckedItems targets c) = filter (λ t, t ∈ targets) (c.*1).
Proof.
  unfold checkedData, setCheckedItems.
  induction c as [|[t b] c IH]; [done|].
  cbn [fmap list_fmap]. cbn [fst snd].
  destruct (decide (t ∈ targets)) as [Hin|Hnin].
  - rewrite bool_decide_eq_true_2 by done.
    rewrite !filter_cons_True by done. cbn. f_equal. apply IH.
  - rewrite bool_decide_eq_false_2 by done.
    rewrite !filter_cons_False by (cbn; congruence). apply IH.
Qed.

Lemma setCheckedItems_fst (targets : list string) (c : list (string * bool)) :
  (setCheckedItems targets c).*1 = c.*1.
Proof.
  unfold setCheckedItems. rewrite <- list_fmap_compose.
  by apply list_fmap_ext.
Qed.

Lemma unchecked_items_data (items : list string) :
  ((λ t : string, (t, false)) <$> items).*1 = items.
Proof. rewrite <- list_fmap_compose. apply list_fmap_id. Qed.

Lemma checkedData_unchecked (items : list string) :
  checkedData ((λ t, (t, false)) <$> items) = [].
Proof.
  unfold checkedData. induction items as [|t items IH]; [done|].
  cbn [fmap list_fmap]. rewrite filter_cons_False by (cbn; congruence).
  apply IH.
Qed.

Lemma currentData_findData (items : list string) (d : string) :
  d ∈ items →
  0 ≤ findData {| combo_items := items; combo_index := 0 |} (Some d)
  ∧ currentData
      {| combo_items := items;
         combo_index :=
           findData {| combo_items := items; combo_index := 0 |} (Some d) |}
    = Some d.
Proof.
  intros Hin. unfold findData, currentData. cbn [combo_items combo_index].
  destruct (list_find (λ x, x = d) items) as [[i x]|] eqn:Hf.
  - apply list_find_Some in Hf as (Hi & -> & _).
    split; [lia|].
    destruct (Z.ltb_spec (Z.of_nat i) 0); [lia|]. by rewrite Nat2Z.id.
  - apply list_find_None in Hf. rewrite Forall_forall in Hf.
    by destruct (Hf d Hin).
Qed.

Lemma findData_absent (items : list string) (ci : Z) (d : string) :
  d ∉ items →
  findData {| combo_items := items; combo_index := ci |} (Some d) = -1.
Proof.
  intros Hnin. unfold findData. cbn [combo_items].
  destruct (list_find (λ x, x = d) items) as [[i x]|] eqn:Hf; [|done].
  apply list_find_Some in Hf as (Hi & -> & _).
  destruct Hnin. by eapply list_elem_of_lookup_2.
Qed.

Section Options.
Context (manager : Engine).

(** X10.  When the database answers with the languages and the tags,
    [_update_filter_options] offers the two fixed items followed by
    these names in both boxes and takes the tags as the known
    vocabulary.  The selection survives as far as it is still offered:
    the language stays when it is among the new items and falls back to
    the first item otherwise, and exactly those tag items are checked
    whose data was checked before. *)
Theorem filter_options_survive_reload (w : world MainWindow)
    (langs all_tags : list string) :
  Cache.get_categories manager (trace w) "languages" = Ok langs →
  Cache.get_categories manager (trace w ++ [CGetCategories "languages"]) "tags"
  = Ok all_tags →
  let '(w', r) := _update_filter_options manager w in
  r = Ok tt
  ∧ trace w' = trace w ++ [CGetCategories "languages"; CGetCategories "tags"]
  ∧ combo_items (lang_filter (win w')) = ["all"; "none"]%string ++ langs
  ∧ valid_tags (win w') = list_to_set all_tags
  ∧ (tag_filter (win w')).*1 = "none"%string :: "invalid"%string :: all_tags
  ∧ currentData (lang_filter (win w'))
    = kept_language (currentData (lang_filter (win w)))
                    (["all"; "none"]%string ++ langs)
  ∧ checkedData (tag_filter (win w'))
    = filter (λ t, t ∈ checkedData (tag_filter (win w)))
             ("none"%string :: "invalid"%string :: all_tags).
Proof.
  intros Hl Ht.
  unfold _update_filter_options, BookManager.get_all_languages,
    BookManager.get_all_tags.
  unfold mbind, M_bind, get_win, modify, call, mret, M_ret.
  cbn [win trace]. rewrite Hl. cbn [win trace lang_filter set_lang_filter
    set_tag_filter set_valid_tags tag_filter valid_tags]. rewrite Ht.
  set (items := ["all"; "none"]%string ++ langs).
  set (tag_items := "none"%string :: "invalid"%string :: all_tags).
  set (curr_l := currentData (lang_filter (win w))).
  set (curr_t := checkedData (tag_filter (win w))).
  pose proof (unchecked_items_data tag_items) as Hfst.
  assert (∀ x : MainWindow,
            currentData
              (lang_filter
                 (let idx := findData {| combo_items := items; combo_index := 0 |}
                               curr_l in
                  if 0 <=? idx
                  then set_lang_filter
                         {| combo_items := items; combo_index := idx |} x
                  else set_lang_filter
                         {| combo_items := items; combo_index := 0 |} x))
            = kept_language curr_l items) as Hlang.
  { intros x. cbv zeta. unfold kept_language.
    destruct curr_l as [d|]; [|done].
    destruct (decide (d ∈ items)) as [Hin|Hnin].
    - destruct (currentData_findData items d Hin) as [Hge Hcd].
      destruct (Z.leb_spec 0 (findData {| combo_items := items; combo_index := 0 |}
                                (Some d))); [|lia].
      exact Hcd.
    - by rewrite (findData_absent items 0 d Hnin). }
  destruct curr_t as [|t ts] eqn:Ect.
  - cbn -[items tag_items findData currentData checkedData].
    repeat split.
    + by rewrite <- app_assoc.
    + by destruct (0 <=? _).
    + by destruct (0 <=? _).
    + destruct (0 <=? _); exact Hfst.
    + specialize (Hlang (win w)). cbv zeta in Hlang.
      destruct (0 <=? _); exact Hlang.
    + assert (checkedData ((λ t : string, (t, false)) <$> tag_items) = [])
        as Hnone by apply checkedData_unchecked.
      assert (filter (λ t, t ∈ @nil string) tag_items = []) as ->.
      { clear. induction tag_items as [|x l IH]; [done|].
        rewrite filter_cons_False by (by intros ?%elem_of_nil). exact IH. }
      destruct (0 <=? _); exact Hnone.
  - cbn -[items tag_items findData currentData checkedData setCheckedItems].
    repeat split.
    + by rewrite <- app_assoc.
    + by destruct (0 <=? _).
    + by destruct (0 <=? _).
    + destruct (0 <=? _);
        cbn -[items tag_items findData setCheckedItems];
        by rewrite setCheckedItems_fst.
    + specialize (Hlang (win w)). cbv zeta in Hlang.
      destruct (0 <=? _); exact Hlang.
    + destruct (0 <=? _);
        cbn -[items tag_items findData checkedData setCheckedItems];
        by rewrite checkedData_setCheckedItems, Hfst.
Qed.
End Options.

(** ** The calls of a metadata batch, and the check marks *)

(** The end of a batch that stopped at one of its calls. *)
Ltac batch_stopped :=
  solve [ split_and!;
          [ done
          | by intros ->
          | intros _; rewrite <- ?app_assoc; cbn [take app];
            split_and!; first [done | lia] ] ].

Section Batch.
Context {W : Type} (cache : Engine).

Lemma batch_probes_calls (ids : list Z) :
  (batch_probes cache ids).*1 = batch_calls ids.
Proof. reflexivity. Qed.

(** X9.  [get_metadata_batch] only reads: it leaves the state of its
    caller as it was, and what it asks the database is a prefix of the
    seven field calls, in their fixed order and all for the given ids.
    It makes no call for an empty list.  Otherwise it stops at the first
    call that the database answers with an error, which is the error it
    raises, and it returns after all seven calls when none is. *)
Theorem get_metadata_batch_calls (ids : list Z) (w : world W) :
  let '(w', r) := BookManager.get_metadata_batch cache ids w in
  win w' = win w
  ∧ (ids = [] → trace w' = trace w ∧ r = Ok ∅)
  ∧ (ids ≠ [] →
     let '(n, err) := stops_at (trace w) (batch_probes cache ids) in
     trace w' = trace w ++ take n (batch_calls ids)
     ∧ (0 < n ≤ 7)%nat
     ∧ match err with
       | Some e => r = Raise e
       | None => n = 7%nat ∧ is_ok r = true
       end).
Proof.
  destruct ids as [|i0 ids'].
  { cbn [BookManager.get_metadata_batch]. by split_and!. }
  unfold BookManager.get_metadata_batch.
  remember (i0 :: ids') as ids eqn:Hids.
  unfold batch_probes, batch_calls.
  cbn [stops_at fmap list_fmap].
  unfold mbind, M_bind, call, mret, M_ret. cbn [win trace].
  destruct (Cache.all_field_for_title cache (trace w) ids) as [?|e1];
    cbn [error_of fst snd win trace]; [|batch_stopped].
  destruct (Cache.all_field_for_authors cache _ ids) as [?|e2];
    cbn [error_of fst snd win trace]; [|batch_stopped].
  destruct (Cache.all_field_for_tags cache _ ids) as [?|e3];
    cbn [error_of fst snd win trace]; [|batch_stopped].
  destruct (Cache.all_field_for_timestamp cache _ ids) as [?|e4];
    cbn [error_of fst snd win trace]; [|batch_stopped].
  destruct (Cache.all_field_for_publisher cache _ ids) as [?|e5];
    cbn [error_of fst snd win trace]; [|batch_stopped].
  destruct (Cache.all_field_for_pubdate cache _ ids) as [?|e6];
    cbn [error_of fst snd win trace]; [|batch_stopped].
  destruct (Cache.all_field_for_languages cache _ ids) as [?|e7];
    cbn [error_of fst snd win trace is_ok]; batch_stopped.
Qed.
End Batch.

(** A batch for the books 3 and 1 when the fetch of the tags raises: the
    third call is the last, and its error is the one of the batch. *)
Example batch_stops_at_the_tags :
  BookManager.get_metadata_batch Sample.failing_tags [3; 1] (World tt [])
  = (World tt [CAllFieldFor "title" [3; 1]; CAllFieldFor "authors" [3; 1];
               CAllFieldFor "tags" [3; 1]],
     Raise "tags unavailable").
Proof. by vm_compute. Qed.

Section Combo.

(** X11.  The check marks of a [CheckableComboBox].  After
    [setCheckedItems], [currentData] gives the items' data that is among
    the targets, in the order of the items: a target that is not offered
    is dropped.  Setting the same targets again changes nothing, and
    when no two items carry the same data, setting the current data
    leaves the box as it is. *)
Theorem checked_items_round_trip (targets : list string)
    (c : list (string * bool)) :
  checkedData (setCheckedItems targets c) = filter (λ t, t ∈ targets) (c.*1)
  ∧ setCheckedItems targets (setCheckedItems targets c)
    = setCheckedItems targets c
  ∧ (NoDup (c.*1) → setCheckedItems (checkedData c) c = c).
Proof.
  split; [apply checkedData_setCheckedItems|]. split.
  - unfold setCheckedItems. rewrite <- list_fmap_compose.
    by apply list_fmap_ext.
  - intros Hnd. unfold setCheckedItems, checkedData.
    etrans; [|apply (list_fmap_id c)]. apply list_fmap_ext.
    intros i [t b] Hi. cbn [fst id]. f_equal.
    destruct b.
    + apply bool_decide_eq_true_2. apply list_elem_of_fmap.
      exists (t, true). split; [done|].
      apply list_elem_of_filter. split; [done|].
      by eapply list_elem_of_lookup_2.
    + apply bool_decide_eq_false_2.
      intros ([t' b'] & Ht & Hin)%list_elem_of_fmap. cbn in Ht. subst t'.
      apply list_elem_of_filter in Hin as [Hb Hin]. cbn in Hb. subst b'.
      apply list_elem_of_lookup in Hin as [j Hj].
      assert (i = j) as ->.
      { eapply NoDup_lookup; [exact Hnd| |].
        - by rewrite list_lookup_fmap, Hi.
        - by rewrite list_lookup_fmap, Hj. }
      congruence.
Qed.
End Combo.

(** ** The table after a refresh *)

#[export] Instance same_table_refl : Reflexive same_table.
Proof. by intros w. Qed.

#[export] Instance same_table_trans : Transitive same_table.
Proof.
  intros a b c (? & ? & ? & ?) (? & ? & ? & ?). repeat split; congruence.
Qed.

Lemma size_list_to_set_le (l : list Z) :
  (size (list_to_set l : gset Z) ≤ length l)%nat.
Proof.
  induction l as [|x l IH]; [cbn; by rewrite size_empty|].
  cbn [list_to_set length]. rewrite size_union_alt, size_singleton.
  assert (list_to_set l ∖ {[x]} ⊆ (list_to_set l : gset Z)) as Hsub
    by apply subseteq_difference_l, reflexivity.
  apply subseteq_size in Hsub. lia.
Qed.

Section View.
Context (manager : Engine).

Lemma for_each_returns {W A} (body : A → M W unit) (xs : list A) :
  (∀ x w, (body x w).2 = Ok tt) → ∀ w, (for_each body xs w).2 = Ok tt.
Proof.
  intros Hb. induction xs as [|x xs IH]; intros w; [done|].
  cbn [for_each]. unfold mbind, M_bind.
  specialize (Hb x w). destruct (body x w) as [w1 [[]|e]]; [apply IH|done].
Qed.

Lemma render_row_returns (bid : Z) (w : world MainWindow) :
  (render_row manager bid w).2 = Ok tt.
Proof.
  unfold render_row. unfold mbind, M_bind, get_win.
  destruct (books (win w) !! bid); [|done].
  rewrite get_cover_pixmap_spec.
  destruct (_pixmap_cache (win w) !! inl bid); [done|].
  destruct (Cache.cover manager (trace w) bid) as [[data|]|e]; try done.
  by destruct (truthy data).
Qed.

Lemma render_row_same_table (bid : Z) : frame same_table (render_row manager bid).
Proof.
  unfold render_row, get_cover_pixmap, BookManager.get_cover.
  repeat frame_step.
  apply frame_modify. intros x. by destruct (_pixmap_cache x !! inr bid).
Qed.

Lemma get_metadata_batch_win {W} (ids : list Z) (w : world W) :
  win (BookManager.get_metadata_batch manager ids w).1 = win w.
Proof.
  apply (symmetry (A:=W)).
  revert w. change (frame (W:=W) eq (BookManager.get_metadata_batch manager ids)).
  unfold BookManager.get_metadata_batch. repeat frame_step.
Qed.

Lemma get_metadata_batch_dom {W} (ids : list Z) (w w' : world W)
    (m : gmap Z BookMetadata.t) :
  BookManager.get_metadata_batch manager ids w = (w', Ok m) →
  dom m = list_to_set ids.
Proof.
  destruct ids as [|i0 ids']; [by intros [= <- <-]|].
  unfold BookManager.get_metadata_batch.
  remember (i0 :: ids') as ids eqn:Hids. clear Hids.
  unfold mbind, M_bind, call, mret, M_ret. cbn [win trace].
  repeat match goal with
         | |- context [match ?x with Ok _ => _ | Raise _ => _ end] =>
             destruct x; [|done]
         end.
  intros [= <- <-].
  match goal with
  | |- dom (foldl (λ r k, <[k := ?f k]> r) _ _) = _ => apply (dom_foldl_insert f)
  end.
Qed.

Lemma refresh_table_spec (ft : option string) (w : world MainWindow) :
  refresh_table manager ft w
  = let w1 := (apply_filter manager (current_query ft (win w)) w).1 in
    let '(total, page, page_ids) :=
      paginate (filtered_ids (win w1)) (current_page (win w1)) in
    let w2 := World (set_current_page page (set_total_pages total (win w1)))
                    (trace w1) in
    match BookManager.get_metadata_batch manager page_ids w2 with
    | (w3, Ok metas) =>
        for_each (render_row manager) page_ids
                 (World (set_books metas (win w3)) (trace w3))
    | (w3, Raise e) => (w3, Raise e)
    end.
Proof.
  unfold refresh_table. unfold mbind, M_bind at 1 2 3. unfold get_win.
  cbn [win]. cbv zeta.
  pose proof (apply_filter_returns manager (current_query ft (win w)) w) as Hr.
  destruct (apply_filter manager (current_query ft (win w)) w) as [w1 r].
  cbn [snd fst] in *. subst r.
  destruct (paginate (filtered_ids (win w1)) (current_page (win w1)))
    as [[total page] page_ids].
  unfold mbind, M_bind, modify. cbn [win trace].
  by destruct (BookManager.get_metadata_batch manager page_ids _) as [w3 [m|e]].
Qed.

Lemma refresh_table_post (ft : option string) (w : world MainWindow) :
  let '(w', r) := refresh_table manager ft w in
  paged (win w')
  ∧ current_page (win w')
    = Z.max 0 (Z.min (current_page (win w)) (total_pages (win w') - 1))
  ∧ filtered_ids (win w') `sublist_of` sorted_book_ids (win w)
  ∧ (r = Ok tt →
     dom (books (win w'))
     = list_to_set (page_ids_of (filtered_ids (win w')) (current_page (win w')))).
Proof.
  rewrite refresh_table_spec. cbv zeta.
  pose proof (apply_filter_sublist manager (current_query ft (win w)) w)
    as Hsub.
  assert (current_page (win (apply_filter manager (current_query ft (win w)) w).1)
          = current_page (win w)) as Hcp.
  { rewrite apply_filter_spec, search_stage_spec. cbv zeta.
    destruct (negb _); [|destruct (_ !! _); [|destruct (Cache.search _ _ _)]];
      try rewrite invalid_stage_spec; cbv zeta; cbn [win trace];
      try (destruct (bool_decide _); [destruct (Cache.all_field_for_tags _ _ _)|]);
      done. }
  destruct (apply_filter manager (current_query ft (win w)) w) as [w1 r1].
  cbn [fst] in *.
  rewrite paginate_eq. cbv beta iota zeta.
  set (filtered := filtered_ids (win w1)) in *.
  set (total := total_pages_of filtered).
  set (page := Z.max 0 (Z.min (current_page (win w1)) (total - 1))).
  set (page_ids := take 50 (drop (Z.to_nat (page * PAGE_SIZE)) filtered)).
  set (w2 := World _ (trace w1)).
  pose proof (get_metadata_batch_win page_ids w2) as Hwin.
  destruct (BookManager.get_metadata_batch manager page_ids w2)
    as [w3 [metas|e]] eqn:Ebatch; cbn [fst] in Hwin.
  - pose proof (frame_for_each same_table (render_row manager) page_ids
                  render_row_same_table
                  (World (set_books metas (win w3)) (trace w3)))
      as (Hb & Hf & Hc & Ht).
    pose proof (for_each_returns (render_row manager) page_ids render_row_returns
                  (World (set_books metas (win w3)) (trace w3))) as Hr.
    destruct (for_each (render_row manager) page_ids _) as [w4 r4].
    cbn [fst snd win] in *. subst r4.
    rewrite Hwin in *. cbn in Hb, Hf, Hc, Ht.
    assert (page = Z.max 0 (Z.min page (total - 1))) as Hidem by lia.
    unfold paged. rewrite Hf, Hc, Ht, Hb, <- Hcp. fold filtered total page.
    repeat split; try done.
    intros _. rewrite (get_metadata_batch_dom _ _ _ _ Ebatch).
    f_equal. unfold page_ids_of. rewrite paginate_eq. cbv zeta. cbn [snd].
    fold total. by rewrite <- Hidem.
  - cbn [win]. rewrite Hwin. unfold w2, paged. cbn -[total_pages_of].
    fold filtered total. rewrite <- Hcp. fold page.
    repeat split; try done. lia.
Qed.

(** X5.  After any refresh of the table, also one that fails, the page
    counters agree with the filtered list and the page is the requested
    one brought into range.  When the refresh returns, the books the
    window holds are exactly those of the current page of the filtered
    list, at most 50. *)
Theorem refresh_table_view (ft : option string) (w : world MainWindow) :
  let '(w', r) := refresh_table manager ft w in
  total_pages (win w') = total_pages_of (filtered_ids (win w'))
  ∧ current_page (win w')
    = Z.max 0 (Z.min (current_page (win w)) (total_pages (win w') - 1))
  ∧ (r = Ok tt →
     dom (books (win w'))
     = list_to_set (page_ids_of (filtered_ids (win w')) (current_page (win w')))
     ∧ size (dom (books (win w'))) ≤ 50)%nat.
Proof.
  pose proof (refresh_table_post ft w) as H.
  destruct (refresh_table manager ft w) as [w' r].
  destruct H as ([Htp _] & Hcp & _ & Hbooks).
  split; [exact Htp|]. split; [exact Hcp|].
  intros Hr. specialize (Hbooks Hr). split; [exact Hbooks|].
  rewrite Hbooks. etrans; [apply size_list_to_set_le|].
  unfold page_ids_of. rewrite paginate_eq. cbv zeta. cbn [snd].
  rewrite length_take. lia.
Qed.

Lemma prev_page_eq (w : world MainWindow) :
  prev_page manager w
  = if 0 <? current_page (win w)
    then refresh_table manager None
           (World (set_current_page (current_page (win w) - 1) (win w)) (trace w))
    else (w, Ok tt).
Proof.
  unfold prev_page. unfold mbind, M_bind at 1. unfold get_win. cbn [win].
  by destruct (0 <? current_page (win w)).
Qed.

Lemma next_page_eq (w : world MainWindow) :
  next_page manager w
  = if current_page (win w) <? total_pages (win w) - 1
    then refresh_table manager None
           (World (set_current_page (current_page (win w) + 1) (win w)) (trace w))
    else (w, Ok tt).
Proof.
  unfold next_page. unfold mbind, M_bind at 1. unfold get_win. cbn [win].
  by destruct (current_page (win w) <? total_pages (win w) - 1).
Qed.

(** X6.  Changing the page keeps the page counters in agreement with the
    filtered list.  Off the first page [prev_page] shows the page before,
    and off the last page [next_page] shows the page after: the page is
    the one asked for, brought into the range of the list as the refresh
    filtered it again, so exactly one page back or forth when the number
    of pages stayed.  On the first page [prev_page], and on the last page
    [next_page], do nothing at all. *)
Theorem page_navigation (w : world MainWindow) :
  paged (win w) →
  let page := current_page (win w) in
  let w1 := (prev_page manager w).1 in
  let w2 := (next_page manager w).1 in
  paged (win w1) ∧ paged (win w2)
  ∧ (0 < page →
     current_page (win w1)
     = Z.max 0 (Z.min (page - 1) (total_pages (win w1) - 1))
     ∧ (total_pages (win w1) = total_pages (win w) →
        current_page (win w1) = page - 1))
  ∧ (page < total_pages (win w) - 1 →
     current_page (win w2)
     = Z.max 0 (Z.min (page + 1) (total_pages (win w2) - 1))
     ∧ (total_pages (win w2) = total_pages (win w) →
        current_page (win w2) = page + 1))
  ∧ 0 ≤ current_page (win w1) ≤ Z.max 0 (page - 1)
  ∧ 0 ≤ current_page (win w2) ≤ page + 1
  ∧ (page = 0 → prev_page manager w = (w, Ok tt))
  ∧ (total_pages (win w) ≤ page + 1 → next_page manager w = (w, Ok tt)).
Proof.
  intros [Htp Hcp]. cbv zeta.
  rewrite prev_page_eq, next_page_eq.
  pose proof (refresh_table_post None
                (World (set_current_page (current_page (win w) - 1) (win w))
                       (trace w))) as Hprev.
  pose proof (refresh_table_post None
                (World (set_current_page (current_page (win w) + 1) (win w))
                       (trace w))) as Hnext.
  destruct (refresh_table manager None
              (World (set_current_page (current_page (win w) - 1) (win w)) _))
    as [wp rp].
  destruct (refresh_table manager None
              (World (set_current_page (current_page (win w) + 1) (win w)) _))
    as [wn rn].
  cbn [win current_page set_current_page] in Hprev, Hnext.
  destruct Hprev as ([? ?] & ? & _), Hnext as ([? ?] & ? & _).
  destruct (Z.ltb_spec 0 (current_page (win w))) as [Hp|Hp];
    destruct (Z.ltb_spec (current_page (win w)) (total_pages (win w) - 1))
      as [Hn|Hn];
    cbn [fst]; unfold paged; split_and!; try done; try lia;
    intros; split_and!; try done; try lia.
Qed.
End View.

(** ** The handlers of the window *)

#[export] Instance keeps_ok_refl : Reflexive keeps_ok.
Proof. intros w Hw. exact Hw. Qed.

#[export] Instance keeps_ok_trans : Transitive keeps_ok.
Proof. intros a b c Hab Hbc Ha. apply Hbc, Hab, Ha. Qed.

#[export] Instance same_lists_refl : Reflexive same_lists.
Proof. by intros w. Qed.

#[export] Instance same_lists_trans : Transitive same_lists.
Proof.
  intros a b c [[? ?] ?] [[? ?] ?]. repeat split; congruence.
Qed.

Lemma frame_same_lists_ok {A} (m : M MainWindow A) :
  frame same_lists m → frame keeps_ok m.
Proof.
  intros Hm w [Hc Hs]. destruct (Hm w) as [[Hi Hk] Hf].
  split.
  - intros ids. rewrite Hi, Hk. apply Hc.
  - by rewrite Hf, Hi.
Qed.

Ltac emits_auto :=
  repeat first
    [ apply emits_ret | apply emits_get_win | apply emits_modify
    | apply emits_call; solve [auto]
    | apply emits_emit; solve [auto]
    | apply emits_bind; [|intros ?]
    | apply emits_try_except; [|intros ?]
    | apply emits_for_each; intros ?
    | match goal with
      | |- emits _ (match ?x with _ => _ end) => destruct x
      | |- emits _ (if ?x then _ else _) => destruct x
      | |- emits _ (let '(_, _) := ?x in _) => destruct x
      end ].

Lemma emits_weaken {W A} (P Q : event → Prop) (m : M W A) :
  (∀ ev, P ev → Q ev) → emits P m → emits Q m.
Proof.
  intros HPQ Hm w. destruct (Hm w) as (evs & Ht & HP).
  exists evs. split; [done|]. eapply Forall_impl; eauto.
Qed.

Section Actions.
Context (manager : Engine).

Lemma refresh_table_reads ft : emits reads_only (refresh_table manager ft).
Proof.
  unfold refresh_table.
  apply emits_bind; [apply emits_get_win|intros ?].
  apply emits_bind.
  { unfold apply_filter, filter_body, search_stage, invalid_stage,
      BookManager.search. emits_auto. }
  intros _. apply emits_bind; [apply emits_get_win|intros ?].
  destruct (paginate _ _) as [[total page] page_ids].
  unfold BookManager.get_metadata_batch, render_row, get_cover_pixmap,
    BookManager.get_cover.
  emits_auto.
Qed.

Lemma load_books_reads keep_page : emits reads_only (load_books manager keep_page).
Proof.
  unfold load_books.
  apply emits_try_except; [|intros e; by apply emits_emit].
  apply emits_bind.
  { unfold refresh_index, BookManager.get_book_ids_sorted_by_timestamp.
    emits_auto. }
  intros _. apply emits_bind; [apply emits_modify|intros _].
  apply emits_bind; [destruct keep_page; emits_auto|intros _].
  apply emits_bind; [|intros _; apply refresh_table_reads].
  unfold _update_filter_options, BookManager.get_all_languages,
    BookManager.get_all_tags.
  emits_auto.
Qed.

(** X12.  Of the handlers [refresh_table], [prev_page], [next_page],
    [load_books], [delete_selected] and the callback that completes an
    edit, one changes the database: a confirmed [delete_selected] may
    remove exactly the selected books, to the trash and never for good.
    A declined [delete_selected] calls nothing at all.  Whatever the
    database answers, refreshing, paging, reloading and completing an
    edit only read and show dialogs: they remove no book, write no field
    and open no bulk update.  (The trash browser, whose dialog restores
    books, and the worker of an edit, which sets the fields, are not
    among these handlers.) *)
Theorem handlers_never_write (a : action) (w : world MainWindow) :
  calls_followed a = true →
  Forall (allowed a) (new_events w (handler manager a w).1).
Proof.
  intros Ha. apply emits_new_events.
  destruct a as [ft| | |keep_page|sel reply_yes| |success error_msg];
    cbn [handler].
  - apply refresh_table_reads.
  - unfold prev_page. apply emits_bind; [apply emits_get_win|intros ?].
    destruct (0 <? _); [|apply emits_ret].
    apply emits_bind; [apply emits_modify|intros _]. apply refresh_table_reads.
  - unfold next_page. apply emits_bind; [apply emits_get_win|intros ?].
    destruct (_ <? _); [|apply emits_ret].
    apply emits_bind; [apply emits_modify|intros _]. apply refresh_table_reads.
  - apply load_books_reads.
  - unfold delete_selected. destruct sel as [|b sel'].
    { apply emits_emit. by destruct reply_yes. }
    destruct reply_yes; [|apply emits_ret].
    apply emits_try_except; [|intros e; by apply emits_emit].
    apply emits_bind.
    { unfold BookManager.delete_books. by apply emits_call. }
    intros _. apply emits_bind; [apply emits_modify|intros _].
    apply emits_bind; [by apply emits_emit|intros _].
    eapply emits_weaken; [|apply load_books_reads].
    intros ev Hev. by destruct ev.
  - discriminate Ha.
  - unfold on_finished. destruct success; [|by apply emits_emit].
    apply emits_bind; [apply emits_modify|intros _].
    apply emits_bind; [apply load_books_reads|intros _]. by apply emits_emit.
Qed.

(** X13.  An error of the database never escapes from a reload, a delete
    or the completion of an edit: these handlers always return.  (A
    refresh of the table and a change of page let an error of the
    metadata fetch through.) *)
Theorem handlers_contain_errors (a : action) (w : world MainWindow) :
  contains_errors a = true → (handler manager a w).2 = Ok tt.
Proof.
  assert (∀ keep_page w0, (load_books manager keep_page w0).2 = Ok tt) as Hload.
  { intros keep_page w0. apply load_books_returns. }
  destruct a as [ft| | |keep_page|sel reply_yes| |success error_msg];
    try done; intros _; cbn [handler].
  - apply Hload.
  - unfold delete_selected. destruct sel as [|b sel']; [done|].
    destruct reply_yes; [|done].
    unfold try_except.
    match goal with
    | |- context [match ?m w with _ => _ end] => destruct (m w) as [w1 [[]|e]]
    end; done.
  - unfold on_finished. destruct success; [|done].
    unfold mbind, M_bind, emit, modify.
    match goal with
    | |- context [load_books manager true ?w0] =>
        specialize (Hload true w0); destruct (load_books manager true w0) as [? r]
    end.
    cbn [snd] in Hload. by subst r.
Qed.

Lemma refresh_table_keeps_ok ft : frame keeps_ok (refresh_table manager ft).
Proof.
  intros w [Hc Hs].
  pose proof (refresh_table_same_index manager ft w) as [Hi Hk].
  pose proof (refresh_table_post manager ft w) as Hpost.
  destruct (refresh_table manager ft w) as [w' r]. cbn [fst] in *.
  destruct Hpost as (_ & _ & Hsub & _).
  split.
  - intros ids. rewrite Hi, Hk. apply Hc.
  - by rewrite Hi.
Qed.

Lemma update_filter_options_same_lists :
  frame same_lists (_update_filter_options manager).
Proof.
  unfold _update_filter_options, BookManager.get_all_languages,
    BookManager.get_all_tags.
  repeat frame_step.
  apply frame_modify. intros x. by destruct (0 <=? findData _ _).
Qed.

Lemma load_books_keeps_ok keep_page : frame keeps_ok (load_books manager keep_page).
Proof.
  intros w Hok.
  assert (∀ w1 : world MainWindow,
            index_consistent (win w1) →
            window_ok (win (after_index manager keep_page w1).1)) as Hrest.
  { intros w1 Hc.
    assert (after_index manager keep_page w1
            = ((if keep_page then mret tt else modify (set_current_page 0)) ;;
               _update_filter_options manager ;;
               refresh_table manager None)
                (World (set_filtered_ids (sorted_book_ids (win w1)) (win w1))
                       (trace w1))) as -> by reflexivity.
    match goal with
    | |- window_ok (win (?m ?w2).1) =>
        assert (frame keeps_ok m) as Hf; [|by apply Hf]
    end.
    apply frame_bind; try apply _.
    { destruct keep_page; [apply frame_ret; apply _|].
      apply frame_modify. intros x Hx. exact Hx. }
    intros _. apply frame_bind; try apply _.
    { apply frame_same_lists_ok, update_filter_options_same_lists. }
    intros _. apply refresh_table_keeps_ok. }
  rewrite load_books_eq. unfold try_except, mbind, M_bind.
  destruct Hok as [Hc Hs].
  assert ((refresh_index manager keep_page w).2 = Ok tt
          ∧ index_consistent (win (refresh_index manager keep_page w).1)
          ∨ (∃ e, (refresh_index manager keep_page w).2 = Raise e)
            ∧ win (refresh_index manager keep_page w).1 = win w) as Hidx.
  { destruct (_cached_sorted_ids (win w)) as [cached|] eqn:Ec.
    - destruct keep_page.
      + rewrite (refresh_index_reuse manager w cached Ec). left.
        split; [done|]. intros ids. cbn. congruence.
      + rewrite refresh_index_rebuild by auto.
        destruct (Cache.multisort manager (trace w) false); [|by eauto].
        left. split; [done|]. intros ids'. cbn. congruence.
    - rewrite refresh_index_rebuild by auto.
      destruct (Cache.multisort manager (trace w) false); [|by eauto].
      left. split; [done|]. intros ids'. cbn. congruence. }
  destruct (refresh_index manager keep_page w) as [w1 r1]. cbn [fst snd] in Hidx.
  destruct Hidx as [[-> Hc1]|[[e ->] Hw]].
  - specialize (Hrest w1 Hc1).
    destruct (after_index manager keep_page w1) as [w2 [[]|e]]; done.
  - unfold emit. cbn [fst win]. rewrite Hw. by split.
Qed.

Lemma invalidate_keeps_ok r :
  frame (W:=MainWindow) keeps_ok (modify (invalidate r)).
Proof.
  apply frame_modify. intros x [Hc Hs]. split.
  - intros ids. destruct r; cbn; try done. apply Hc.
  - by destruct r.
Qed.

Lemma handler_keeps_ok (a : action) : frame keeps_ok (handler manager a).
Proof.
  destruct a as [ft| | |keep_page|sel reply_yes| |success error_msg];
    cbn [handler].
  - apply refresh_table_keeps_ok.
  - unfold prev_page. apply frame_bind; try apply _; [apply frame_get_win; apply _|].
    intros ?. destruct (0 <? _); [|apply frame_ret; apply _].
    apply frame_bind; try apply _; [|intros _; apply refresh_table_keeps_ok].
    apply frame_modify. intros x Hx. exact Hx.
  - unfold next_page. apply frame_bind; try apply _; [apply frame_get_win; apply _|].
    intros ?. destruct (_ <? _); [|apply frame_ret; apply _].
    apply frame_bind; try apply _; [|intros _; apply refresh_table_keeps_ok].
    apply frame_modify. intros x Hx. exact Hx.
  - apply load_books_keeps_ok.
  - unfold delete_selected. destruct sel as [|b sel']; [apply frame_emit; apply _|].
    destruct reply_yes; [|apply frame_ret; apply _].
    apply frame_try_except; try apply _; [|intros e; apply frame_emit; apply _].
    apply frame_bind; try apply _; [apply frame_call; apply _|intros _].
    apply frame_bind; try apply _; [apply invalidate_keeps_ok|intros _].
    apply frame_bind; try apply _; [apply frame_emit; apply _|intros _].
    apply load_books_keeps_ok.
  - unfold browse_trash.
    apply frame_bind; try apply _; [apply frame_emit; apply _|intros _].
    apply frame_bind; try apply _; [apply invalidate_keeps_ok|intros _].
    apply load_books_keeps_ok.
  - unfold on_finished. destruct success; [|apply frame_emit; apply _].
    apply frame_bind; try apply _; [apply invalidate_keeps_ok|intros _].
    apply frame_bind; try apply _; [apply load_books_keeps_ok|intros _].
    apply frame_emit; apply _.
Qed.

(** X14.  Two facts about the lists of the window hold for good once they
    hold: the kept index, when there is one, is the index the window
    works with, and the filtered list is a subsequence of that index.
    Every sequence of actions keeps them, whatever the database answers
    and wherever an error ends the sequence. *)
Theorem window_lists_stay_sound (acts : list action) (w : world MainWindow) :
  window_ok (win w) →
  window_ok (win (for_each (handler manager) acts w).1).
Proof.
  apply (frame_for_each keeps_ok (handler manager) acts handler_keeps_ok w).
Qed.

(** X15.  When the index cannot be fetched, [load_books] shows the error
    and leaves the whole window as it was: the table goes on showing the
    earlier state. *)
Theorem load_books_index_failure (keep_page : bool) (w : world MainWindow)
    (msg : string) :
  _cached_sorted_ids (win w) = None ∨ keep_page = false →
  Cache.multisort manager (trace w) false = Raise msg →
  load_books manager keep_page w
  = (World (win w)
           (trace w ++ [CMultisort false;
                        QMessageBox Critical "msg_load_failed" msg]),
     Ok tt).
Proof.
  intros Hc Hm. rewrite load_books_eq. unfold try_except, mbind, M_bind.
  rewrite refresh_index_rebuild by done. rewrite Hm.
  unfold emit. cbn [win trace]. by rewrite <- app_assoc.
Qed.
End Actions.

(** ** Dates *)

Section Dates.
Import Strptime.

Lemma first_match_inv {R} (alts : list piece) (s : string)
    (k : Z → string → option R) (r : R) :
  first_match alts s k = Some r →
  ∃ alt v s', alt ∈ alts ∧ alt s = Some (v, s') ∧ k v s' = Some r.
Proof.
  induction alts as [|alt alts IH]; [done|]. cbn [first_match].
  destruct (alt s) as [[v s']|] eqn:Ea.
  - destruct (k v s') as [r'|] eqn:Ek.
    + intros [= ->]. exists alt, v, s'. split; [by left|done].
    + intros (a & v' & s'' & Hin & H)%IH. exists a, v', s''. split; [by right|done].
  - intros (a & v' & s'' & Hin & H)%IH. exists a, v', s''. split; [by right|done].
Qed.

Lemma between_spec lo hi c : between lo hi c = true ↔ lo ≤ code c ≤ hi.
Proof. unfold between. rewrite andb_true_iff, !Z.leb_le. done. Qed.

Lemma is_char_spec n c : is_char n c = true ↔ code c = n.
Proof. unfold is_char. apply Z.eqb_eq. Qed.

Lemma month_alts_range alt s v s' :
  alt ∈ month_alts → alt s = Some (v, s') → 1 ≤ v ≤ 12.
Proof.
  unfold month_alts. intros Hin Halt.
  repeat (apply elem_of_cons in Hin as [->|Hin]); [| | |by apply elem_of_nil in Hin];
    unfold two, one, decimal, digit in Halt;
    destruct s as [|a [|b rest]]; try done;
    repeat match type of Halt with
           | context [if ?c then _ else _] => destruct c eqn:?; [|done]
           end;
    injection Halt as <- _;
    repeat match goal with
           | H : _ && _ = true |- _ => apply andb_true_iff in H as [? ?]
           | H : between _ _ _ = true |- _ => apply between_spec in H
           | H : is_char _ _ = true |- _ => apply is_char_spec in H
           end; lia.
Qed.

Lemma day_alts_range alt s v s' :
  alt ∈ day_alts → alt s = Some (v, s') → 1 ≤ v ≤ 31.
Proof.
  unfold day_alts. intros Hin Halt.
  repeat (apply elem_of_cons in Hin as [->|Hin]); [| | | | |by apply elem_of_nil in Hin];
    unfold two, one, decimal, digit, isdigit in Halt;
    destruct s as [|a [|b rest]]; try done;
    repeat match type of Halt with
           | context [if ?c then _ else _] => destruct c eqn:?; [|done]
           end;
    injection Halt as <- _;
    repeat match goal with
           | H : _ && _ = true |- _ => apply andb_true_iff in H as [? ?]
           | H : between _ _ _ = true |- _ => apply between_spec in H
           | H : is_char _ _ = true |- _ => apply is_char_spec in H
           end; lia.
Qed.

Lemma regex_match_eq (s : string) :
  regex_match s
  = match year s with
    | Some (y, s1) =>
        match dash s1 with
        | Some s2 =>
            first_match month_alts s2 (λ m s3,
              match dash s3 with
              | Some s4 => first_match day_alts s4 (λ d s5, Some (y, m, d, s5))
              | None => None
              end)
        | None => None
        end
    | None => None
    end.
Proof.
  unfold regex_match. destruct (year s) as [[y s1]|]; [|done].
  cbn [mbind option_bind]. by destruct (dash s1).
Qed.

(** What [strptime] accepts is a date of the calendar. *)
Lemma strptime_ymd_sound (s : string) (y m d : Z) :
  strptime_ymd s = Ok (y, m, d) →
  1 ≤ y ≤ 9999 ∧ 1 ≤ m ≤ 12 ∧ 1 ≤ d ≤ days_in_month y m.
Proof.
  unfold strptime_ymd.
  destruct (regex_match s) as [[[[y' m'] d'] rest]|] eqn:Hre; [|done].
  destruct (truthy rest); [done|].
  destruct ((1 <=? y') && (y' <=? 9999) && (d' <=? days_in_month y' m')) eqn:Hok;
    [|done].
  intros [= -> -> ->].
  apply andb_true_iff in Hok as [[Hy1 Hy2]%andb_true_iff Hd].
  apply Z.leb_le in Hy1, Hy2, Hd.
  rewrite regex_match_eq in Hre.
  destruct (year s) as [[y0 s1]|]; [|done].
  destruct (dash s1) as [s2|]; [|done].
  apply first_match_inv in Hre as (am & vm & s3 & Hm & Hma & Hre).
  destruct (dash s3) as [s4|]; [|done].
  apply first_match_inv in Hre as (ad & vd & s5 & Hd' & Hda & Hre).
  injection Hre as -> -> -> ->.
  pose proof (month_alts_range _ _ _ _ Hm Hma).
  pose proof (day_alts_range _ _ _ _ Hd' Hda).
  lia.
Qed.

Lemma first_match_fmap {R R'} (f : R → R') (alts : list piece) (s : string)
    (k : Z → string → option R) :
  first_match alts s (λ v s', f <$> k v s') = f <$> first_match alts s k.
Proof.
  induction alts as [|alt alts IH]; [done|]. cbn [first_match].
  destruct (alt s) as [[v s']|]; [|done].
  by destruct (k v s').
Qed.

Lemma first_match_ext {R} (alts : list piece) (s : string)
    (k k' : Z → string → option R) :
  (∀ v s', k v s' = k' v s') → first_match alts s k = first_match alts s k'.
Proof.
  intros Hk. induction alts as [|alt alts IH]; [done|]. cbn [first_match].
  destruct (alt s) as [[v s']|]; [|done]. by rewrite Hk, IH.
Qed.

Lemma regex_match_year (y : Z) (a b c d : ascii) (s1 : string) :
  year (String a (String b (String c (String d s1)))) = Some (y, s1) →
  regex_match (String a (String b (String c (String d s1))))
  = (λ '(m, d, rest), (y, m, d, rest)) <$> month_day_match s1.
Proof.
  intros Hy. rewrite regex_match_eq, Hy. unfold month_day_match.
  destruct (dash s1) as [s2|]; [|done].
  rewrite <- first_match_fmap. apply first_match_ext. intros m s3.
  destruct (dash s3) as [s4|]; [|done].
  by rewrite <- first_match_fmap.
Qed.

Lemma year_pad4 (y : Z) (rest : string) :
  0 ≤ y ≤ 9999 → year (pad4 y rest) = Some (y, rest).
Proof.
  intros Hy.
  assert (forallb (λ y, match year (pad4 y EmptyString) with
                        | Some (v, EmptyString) => v =? y
                        | _ => false
                        end) (seqZ 0 10000) = true) as Hall by (by vm_compute).
  rewrite forallb_forall in Hall.
  specialize (Hall y). rewrite <- list_elem_of_In, elem_of_seqZ in Hall.
  specialize (Hall ltac:(lia)).
  unfold pad4, pad2, year in *.
  destruct (isdigit _ && isdigit _ && isdigit _ && isdigit _); [|done].
  apply Z.eqb_eq in Hall. by rewrite Hall.
Qed.

Lemma month_day_pad2 (m d : Z) :
  1 ≤ m ≤ 12 → 1 ≤ d ≤ 31 →
  month_day_match (String "-" (pad2 m (String "-" (pad2 d EmptyString))))
  = Some (m, d, EmptyString).
Proof.
  intros Hm Hd.
  assert (forallb (λ m, forallb (λ d,
            match month_day_match
                    (String "-" (pad2 m (String "-" (pad2 d EmptyString)))) with
            | Some (m', d', EmptyString) => (m' =? m) && (d' =? d)
            | _ => false
            end) (seqZ 1 31)) (seqZ 1 12) = true) as Hall by (by vm_compute).
  rewrite forallb_forall in Hall.
  specialize (Hall m). rewrite <- list_elem_of_In, elem_of_seqZ in Hall.
  specialize (Hall ltac:(lia)).
  rewrite forallb_forall in Hall.
  specialize (Hall d). rewrite <- list_elem_of_In, elem_of_seqZ in Hall.
  specialize (Hall ltac:(lia)).
  destruct (month_day_match _) as [[[m' d'] [|? ?]]|]; try done.
  apply andb_true_iff in Hall as [->%Z.eqb_eq ->%Z.eqb_eq]. done.
Qed.

(** Every date of the calendar, written as [YYYY-MM-DD], is accepted and
    read as itself. *)
Lemma strptime_ymd_iso (y m d : Z) :
  1 ≤ y ≤ 9999 → 1 ≤ m ≤ 12 → 1 ≤ d ≤ days_in_month y m →
  strptime_ymd (iso_date y m d) = Ok (y, m, d).
Proof.
  intros Hy Hm Hd.
  assert (d ≤ 31) by (unfold days_in_month in Hd; repeat case_match; lia).
  unfold strptime_ymd, iso_date.
  pose proof (year_pad4 y (String "-" (pad2 m (String "-" (pad2 d EmptyString))))
                ltac:(lia)) as Hyear.
  unfold pad4 at 1 in Hyear. unfold pad2 at 1 in Hyear.
  unfold pad4 at 1. unfold pad2 at 1.
  rewrite (regex_match_year _ _ _ _ _ _ Hyear).
  rewrite month_day_pad2 by lia. cbn [fmap option_fmap option_map truthy].
  destruct (Z.leb_spec 1 y); [|lia]. destruct (Z.leb_spec y 9999); [|lia].
  destruct (Z.leb_spec d (days_in_month y m)); [|lia]. done.
Qed.

End Dates.

(** ** The worker: what it writes *)

Lemma emits_for_each_in {W A} (P : event → Prop) (body : A → M W unit)
    (xs : list A) :
  (∀ x, x ∈ xs → emits P (body x)) → emits P (for_each body xs).
Proof.
  induction xs as [|x xs IH]; intros Hb; [apply emits_ret|].
  cbn [for_each]. apply emits_bind.
  - apply Hb. by left.
  - intros _. apply IH. intros y Hy. apply Hb. by right.
Qed.

Lemma emits_and {W A} (P Q : event → Prop) (m : M W A) :
  emits P m → emits Q m → emits (λ ev, P ev ∧ Q ev) m.
Proof.
  intros HP HQ w. destruct (HP w) as (evs & Ht & HPs).
  destruct (HQ w) as (evs' & Ht' & HQs).
  rewrite Ht in Ht'. apply app_inv_head in Ht'. subst evs'.
  exists evs. split; [done|]. by apply Forall_and.
Qed.

Lemma enumerate_from_elem {A} (xs : list A) (i j : Z) (x : A) :
  (j, x) ∈ enumerate_from i xs → x ∈ xs.
Proof.
  revert i. induction xs as [|y xs IH]; intros i; cbn [enumerate_from].
  - by intros ?%elem_of_nil.
  - intros [[= _ ->]|Hin]%elem_of_cons; [by left|]. right. by eapply IH.
Qed.

Lemma enumerate_from_lookup {A} (xs : list A) (i : Z) (k : nat) :
  enumerate_from i xs !! k = (λ x, (i + Z.of_nat k, x)) <$> xs !! k.
Proof.
  revert i k. induction xs as [|y xs IH]; intros i k; [done|].
  destruct k as [|k]; cbn [enumerate_from lookup list_lookup fmap option_fmap option_map].
  - by rewrite Z.add_0_r.
  - rewrite IH. destruct (xs !! k); cbn; [|done]. do 2 f_equal. lia.
Qed.

Lemma enumerate_from_snd {A} (xs : list A) (i : Z) :
  (enumerate_from i xs).*2 = xs.
Proof.
  revert i. induction xs as [|y xs IH]; intros i; [done|].
  cbn. by rewrite IH.
Qed.

Section WorkerWrites.
Context {W : Type} (manager : Engine).
Implicit Types (w : world W) (bid : Z) (v : value).

Lemma strptime_calendar (v dt : value) :
  Strptime.strptime v = Ok dt → calendar_date dt.
Proof.
  unfold Strptime.strptime. destruct v as [s| |]; try done.
  destruct (Strptime.strptime_ymd s) as [[[y m] d]|e] eqn:E; [|done].
  intros [= <-]. exists y, m, d. split; [done|].
  by apply strptime_ymd_sound in E.
Qed.

(** One entry of the update: the trace grows by the call of
    [field_write], if any; an error is possible only for a field other
    than the date. *)
Lemma update_field_trace bid (fv : string * value) w :
  let '(w', r) := UpdateWorker.update_field manager bid fv w in
  win w' = win w
  ∧ trace w' = trace w ++ option_list (field_write bid fv)
  ∧ (fv.1 = "pubdate"%string → r = Ok tt).
Proof.
  destruct fv as [f v]. unfold field_write. cbn [fst snd].
  destruct (String.eqb_spec f "pubdate") as [->|Hf].
  - rewrite update_field_pubdate.
    destruct (Strptime.strptime v) as [dt|e]; cbn [option_list];
      [done|by rewrite app_nil_r].
  - rewrite update_field_other by done. done.
Qed.

Lemma update_field_asked (bids : list Z) (updates : list (string * value))
    bid fv :
  bid ∈ bids → fv ∈ updates →
  emits (W:=W) (asked bids updates) (UpdateWorker.update_field manager bid fv).
Proof.
  intros Hb Hfv w.
  pose proof (update_field_trace bid fv w) as H.
  destruct (UpdateWorker.update_field manager bid fv w) as [w' r].
  destruct H as (_ & Ht & _). cbn [fst].
  exists (option_list (field_write bid fv)). split; [done|].
  destruct (field_write bid fv) as [ev|] eqn:E; cbn [option_list]; [|done].
  constructor; [|done].
  unfold field_write in E.
  destruct (String.eqb_spec fv.1 "pubdate") as [Hp|Hp].
  - destruct (Strptime.strptime fv.2) as [dt|e] eqn:Es; [|done].
    injection E as <-. cbn. split; [done|]. split.
    + exists fv. split; [done|]. unfold field_write.
      rewrite Hp. cbn [String.eqb Ascii.eqb Bool.eqb]. rewrite <- Hp.
      by rewrite Es.
    + intros _. by eapply strptime_calendar.
  - injection E as <-. cbn. split; [done|]. split; [|done].
    exists fv. split; [done|]. unfold field_write.
    by destruct (String.eqb_spec fv.1 "pubdate").
Qed.

Lemma update_book_asked (bids : list Z) (updates : list (string * value))
    (total : Z) (ib : Z * Z) :
  ib.2 ∈ bids →
  emits (W:=W) (λ ev, asked bids updates ev ∧ is_loop_event ev = true)
    (UpdateWorker.update_book manager updates total ib).
Proof.
  intros Hb. destruct ib as [i bid]. cbn [snd] in Hb.
  unfold UpdateWorker.update_book.
  apply emits_bind.
  - apply emits_for_each_in. intros fv Hfv. apply emits_and.
    + by apply update_field_asked.
    + intros w. pose proof (update_field_trace bid fv w) as H.
      destruct (UpdateWorker.update_field manager bid fv w) as [w' r].
      destruct H as (_ & Ht & _). cbn [fst].
      exists (option_list (field_write bid fv)). split; [done|].
      unfold field_write.
      destruct (String.eqb fv.1 "pubdate"); [destruct (Strptime.strptime _)|];
        cbn; repeat constructor.
  - intros _. apply emits_bind.
    + intros w. exists []. unfold lift. cbn. by rewrite app_nil_r.
    + intros p. by apply emits_emit.
Qed.

Lemma worker_loop_asked (bids : list Z) (updates : list (string * value)) :
  emits (W:=W) (λ ev, asked bids updates ev ∧ is_loop_event ev = true)
    (for_each (UpdateWorker.update_book manager updates (Z.of_nat (length bids)))
              (enumerate bids)).
Proof.
  apply emits_for_each_in. intros [i bid] Hin.
  apply update_book_asked. cbn. by eapply enumerate_from_elem.
Qed.

Lemma worker_loop_win (bids : list Z) (updates : list (string * value)) w :
  win (worker_loop manager bids updates w).1 = win w.
Proof.
  unfold worker_loop.
  match goal with
  | |- win (?m ?w0).1 = _ =>
      assert (frame (W:=W) eq m) as Hf; [|by rewrite <- (Hf w0)]
  end.
  apply frame_for_each; try apply _. intros [i bid].
  unfold UpdateWorker.update_book. apply frame_bind; try apply _.
  - apply frame_for_each; try apply _. intros fv w0.
    pose proof (update_field_trace bid fv w0) as H.
    destruct (UpdateWorker.update_field manager bid fv w0) as [w' r].
    destruct H as (H & _). cbn [fst]. by rewrite H.
  - intros _. apply frame_bind; try apply _; [by intros w0|].
    intros p. apply frame_emit. apply _.
Qed.

(** The run from the events of its loop. *)
Lemma run_trace (bids : list Z) (updates : list (string * value)) w :
  ∃ body ending,
    UpdateWorker.run manager bids updates w
    = (World (win w) (trace w ++ CStartBulkUpdate :: body ++ ending), Ok tt)
    ∧ Forall (λ ev, asked bids updates ev ∧ is_loop_event ev = true) body
    ∧ match begin_answer manager (trace w) with
      | Raise e => body = [] ∧ ending = [SFinished false e]
      | Ok _ =>
          ∃ w1 r,
            worker_loop manager bids updates w = (w1, r)
            ∧ trace w1 = trace w ++ CStartBulkUpdate :: body
            ∧ ending = [CEndBulkUpdate;
                        report r (commit_answer manager (trace w1))]
      end.
Proof.
  rewrite run_spec.
  destruct (begin_answer manager (trace w)) as [[]|e].
  - pose proof (worker_loop_win bids updates w) as Hwin.
    pose proof (worker_loop_asked bids updates
                  (World (win w) (trace w ++ [CStartBulkUpdate])))
      as (body & Ht & HP).
    fold (worker_loop manager bids updates w) in Ht.
    destruct (worker_loop manager bids updates w) as [w1 r].
    cbn [fst win trace] in *.
    exists body, [CEndBulkUpdate; report r (commit_answer manager (trace w1))].
    split; [|split; [done|]].
    + rewrite Hwin, Ht, <- !app_assoc. done.
    + exists w1, r. rewrite Ht, <- app_assoc. done.
  - exists [], [SFinished false e]. done.
Qed.

(** X18.  The worker never raises, and what it adds to the trace is a
    fixed protocol: the opening bracket, then writes and progress
    signals only, then, exactly when the opening bracket answered, the
    commit bracket, and last the one [finished] signal.  When the
    opening bracket raises, nothing is written, the commit bracket is
    not called and the failure is reported with that error. *)
Theorem run_protocol (bids : list Z) (updates : list (string * value)) w :
  ∃ body ok msg,
    Forall (λ ev, is_loop_event ev = true) body
    ∧ match begin_answer manager (trace w) with
      | Ok _ =>
          UpdateWorker.run manager bids updates w
          = (World (win w)
                   (trace w ++ [CStartBulkUpdate] ++ body
                            ++ [CEndBulkUpdate; SFinished ok msg]),
             Ok tt)
      | Raise e =>
          UpdateWorker.run manager bids updates w
          = (World (win w)
                   (trace w ++ [CStartBulkUpdate; SFinished false e]),
             Ok tt)
      end.
Proof.
  destruct (run_trace bids updates w) as (body & ending & Hrun & Hbody & Hend).
  destruct (begin_answer manager (trace w)) as [[]|e].
  - destruct Hend as (w1 & r & _ & _ & ->).
    assert (∃ ok msg, report r (commit_answer manager (trace w1))
                      = SFinished ok msg) as (ok & msg & Hrep).
    { unfold report. destruct (commit_answer _ _), r; eauto. }
    exists body, ok, msg. split.
    + eapply Forall_impl; [exact Hbody|]. by intros ev [_ ?].
    + by rewrite Hrun, Hrep.
  - destruct Hend as [-> ->]. exists [], false, e. split; [done|].
    exact Hrun.
Qed.

(** X19.  Whatever the database answers, the worker writes only what it
    was asked to write: for an update whose date text is ASCII, every
    field it sets belongs to one of the given books and is an entry of
    the update, with the value of that entry, and the date field is only
    ever set to a date of the calendar, the one its text parses to.  The
    worker makes no other call than these writes and the two brackets. *)
Theorem worker_writes_only_what_was_asked (bids : list Z)
    (updates : list (string * value)) w :
  ascii_dates updates →
  Forall (asked bids updates)
         (new_events w (UpdateWorker.run manager bids updates w).1).
Proof.
  intros _.
  destruct (run_trace bids updates w) as (body & ending & Hrun & Hbody & Hend).
  rewrite Hrun. cbn [fst]. rewrite new_events_app.
  constructor; [done|]. apply Forall_app. split.
  - eapply Forall_impl; [exact Hbody|]. by intros ev [? _].
  - destruct (begin_answer manager (trace w)) as [[]|e].
    + destruct Hend as (w1 & r & _ & _ & ->).
      repeat constructor. unfold report.
      by destruct (commit_answer _ _), r.
    + destruct Hend as [_ ->]. by repeat constructor.
Qed.
End WorkerWrites.

(** ** The worker: the trace of the loop *)

Lemma percent_table_eq n : percent_table n = (λ k, percent_entry k n) <$> seqZ 1 n.
Proof. reflexivity. Qed.

Lemma percent_up_to_50 (k n : Z) :
  1 ≤ k ≤ n → n ≤ 50 → Float.percent k n = Ok (percent_entry k n).
Proof.
  intros Hk Hn. unfold percent_entry.
  pose proof percent_exact_up_to_50 as Hall.
  rewrite forallb_forall in Hall.
  specialize (Hall n). rewrite <- list_elem_of_In, elem_of_seqZ in Hall.
  specialize (Hall ltac:(lia)).
  rewrite forallb_forall in Hall.
  specialize (Hall k). rewrite <- list_elem_of_In, elem_of_seqZ in Hall.
  specialize (Hall ltac:(lia)).
  destruct ((k =? 29) && (n =? 50)) eqn:E.
  - apply andb_true_iff in E as [->%Z.eqb_eq ->%Z.eqb_eq]. by vm_compute.
  - destruct (Float.percent k n) as [p|e]; [|done].
    by apply Z.eqb_eq in Hall as ->.
Qed.

Lemma percent_entry_mono (a b n : Z) :
  1 ≤ a → a ≤ b → b ≤ n → n ≤ 50 → percent_entry a n ≤ percent_entry b n.
Proof.
  intros Ha Hab Hb Hn. unfold percent_entry.
  pose proof (Z.div_le_mono (100 * a) (100 * b) n ltac:(lia) ltac:(lia)).
  destruct (Z.eqb_spec n 50) as [->|Hn50]; rewrite ?andb_false_r, ?andb_true_r;
    [|done].
  assert (∀ k, (100 * k) `div` 50 = 2 * k) as Hdiv.
  { intros k. replace (100 * k) with (2 * k * 50) by lia. by apply Z.div_mul. }
  rewrite !Hdiv.
  destruct (Z.eqb_spec a 29) as [->|?], (Z.eqb_spec b 29) as [->|?]; lia.
Qed.

Lemma percent_entry_range (k n : Z) :
  1 ≤ k → k ≤ n → 0 ≤ percent_entry k n ≤ 100.
Proof.
  intros Hk Hn. unfold percent_entry.
  destruct ((k =? 29) && (n =? 50)); [lia|].
  split.
  - apply Z.div_pos; lia.
  - apply Z.div_le_upper_bound; lia.
Qed.

Lemma percent_entry_last (n : Z) : 1 ≤ n → percent_entry n n = 100.
Proof.
  intros Hn. unfold percent_entry.
  destruct (Z.eqb_spec n 29) as [->|?]; cbn [andb].
  - done.
  - rewrite Z.div_mul by lia. done.
Qed.

Lemma percent_table_lookup (n : Z) (i : nat) :
  percent_table n !! i
  = if decide (Z.of_nat i < n) then Some (percent_entry (1 + Z.of_nat i) n)
    else None.
Proof.
  rewrite percent_table_eq, list_lookup_fmap.
  case_decide as Hi.
  - rewrite lookup_seqZ_lt by lia. done.
  - rewrite lookup_seqZ_ge by lia. done.
Qed.

Lemma field_write_is_set_field (bid : Z) (fv : string * value) (ev : event) :
  field_write bid fv = Some ev → is_set_field ev = true.
Proof.
  unfold field_write.
  destruct (String.eqb fv.1 "pubdate"); [destruct (Strptime.strptime fv.2)|];
    by intros [= <-].
Qed.

Lemma filter_book_writes (updates : list (string * value)) (bid : Z) :
  filter (λ ev, is_set_field ev = true) (book_writes updates bid)
  = book_writes updates bid.
Proof.
  unfold book_writes. induction updates as [|fv updates IH]; [done|].
  cbn [omap list_omap].
  destruct (field_write bid fv) as [ev|] eqn:E; [|exact IH].
  rewrite filter_cons_True by (by eapply field_write_is_set_field).
  by rewrite IH.
Qed.

Lemma progress_book_writes (updates : list (string * value)) (bid : Z) :
  progress_values (book_writes updates bid) = [].
Proof.
  unfold book_writes, progress_values.
  induction updates as [|fv updates IH]; [done|].
  cbn [omap list_omap].
  destruct (field_write bid fv) as [ev|] eqn:E; [|exact IH].
  apply field_write_is_set_field in E. destruct ev; try done.
Qed.

Section WorkerLoop.
Context {W : Type} (manager : Engine).
Implicit Types (w : world W) (bid : Z) (v : value).

Lemma update_fields_writes bid (updates : list (string * value)) w :
  let '(w1, r) := for_each (UpdateWorker.update_field manager bid) updates w in
  ∃ done_, trace w1 = trace w ++ book_writes done_ bid
           ∧ (r = Ok tt → done_ = updates).
Proof.
  revert w. induction updates as [|fv updates IH]; intros w.
  { cbn. exists []. by rewrite app_nil_r. }
  cbn [for_each]. unfold mbind, M_bind.
  pose proof (update_field_trace manager bid fv w) as H.
  destruct (UpdateWorker.update_field manager bid fv w) as [w0 r0].
  destruct H as (_ & Ht & _).
  destruct r0 as [[]|e].
  - specialize (IH w0).
    destruct (for_each (UpdateWorker.update_field manager bid) updates w0)
      as [w1 r].
    destruct IH as (done_ & Ht1 & Hr).
    exists (fv :: done_). unfold book_writes in *. cbn [omap list_omap].
    split.
    + rewrite Ht1, Ht, <- app_assoc. f_equal.
      by destruct (field_write bid fv).
    + intros Hok. by rewrite (Hr Hok).
  - exists [fv]. unfold book_writes. cbn [omap list_omap]. split; [|done].
    rewrite Ht. by destruct (field_write bid fv).
Qed.

(** One book: when it completes, its fields were written and one
    progress value follows; when it does not, no progress is reported. *)
Lemma update_book_trace (updates : list (string * value)) (total i bid : Z) w :
  let '(w1, r) := UpdateWorker.update_book manager updates total (i, bid) w in
  ∃ evs, trace w1 = trace w ++ evs
    ∧ match r with
      | Ok _ => ∃ p, evs = book_writes updates bid ++ [SProgress p]
                     ∧ Float.percent (i + 1) total = Ok p
      | Raise _ => progress_values evs = []
      end.
Proof.
  unfold UpdateWorker.update_book. unfold mbind, M_bind, lift, emit.
  pose proof (update_fields_writes bid updates w) as H.
  destruct (for_each (UpdateWorker.update_field manager bid) updates w)
    as [w0 [[]|e]].
  - destruct H as (done_ & Ht & Hr). rewrite (Hr eq_refl) in *.
    destruct (Float.percent (i + 1) total) as [p|e].
    + eexists. cbn [trace]. rewrite Ht, <- app_assoc. split; [done|].
      exists p. done.
    + eexists. split; [exact Ht|]. apply progress_book_writes.
  - destruct H as (done_ & Ht & _). eexists. split; [exact Ht|].
    apply progress_book_writes.
Qed.

(** The loop: the books that completed, in order, and nothing reported
    for the book at which an error ended it. *)
Lemma loop_trace (updates : list (string * value)) (total : Z)
    (ibs : list (Z * Z)) w :
  let '(w1, r) :=
    for_each (UpdateWorker.update_book manager updates total) ibs w in
  ∃ evs k,
    trace w1 = trace w ++ evs
    ∧ (k ≤ length ibs)%nat
    ∧ Forall2 (λ ib p, Float.percent (ib.1 + 1) total = Ok p)
              (take k ibs) (progress_values evs)
    ∧ (r = Ok tt →
       k = length ibs
       ∧ filter (λ ev, is_set_field ev = true) evs
         = ibs.*2 ≫= book_writes updates)
    ∧ ((∃ e, r = Raise e) → (k < length ibs)%nat).
Proof.
  revert w. induction ibs as [|[i bid] ibs IH]; intros w.
  { cbn. exists [], 0%nat. rewrite app_nil_r.
    split; [done|]. split; [done|]. split; [constructor|].
    split; [done|]. by intros [e ?]. }
  cbn [for_each]. unfold mbind, M_bind.
  pose proof (update_book_trace updates total i bid w) as H.
  destruct (UpdateWorker.update_book manager updates total (i, bid) w)
    as [w0 [[]|e]].
  - destruct H as (evs0 & Ht0 & p & -> & Hp).
    specialize (IH w0).
    destruct (for_each (UpdateWorker.update_book manager updates total) ibs w0)
      as [w1 r].
    destruct IH as (evs & k & Ht & Hk & HF & Hr & Hfail).
    exists ((book_writes updates bid ++ [SProgress p]) ++ evs), (S k).
    split; [by rewrite Ht, Ht0, <- !app_assoc|].
    split; [cbn; lia|]. split; [|split; [|intros He; specialize (Hfail He); cbn; lia]].
    + rewrite !progress_values_app.
      rewrite progress_book_writes. cbn. by constructor.
    + intros Hok. destruct (Hr Hok) as [-> Hw]. split; [done|].
      rewrite !filter_app, filter_book_writes, Hw.
      rewrite filter_cons_False by done. cbn. by rewrite <- app_assoc.
  - destruct H as (evs0 & Ht0 & Hp).
    exists evs0, 0%nat. split; [done|]. split; [lia|].
    split; [rewrite Hp; constructor|]. split; [done|].
    intros _. cbn. lia.
Qed.

(** The progress values of a loop over at most 50 books. *)
Lemma loop_progress_table (bids : list Z) (updates : list (string * value)) w :
  (length bids ≤ 50)%nat →
  let '(w1, r) := worker_loop manager bids updates w in
  ∃ evs,
    trace w1 = trace w ++ CStartBulkUpdate :: evs
    ∧ progress_values evs `prefix_of` percent_table (Z.of_nat (length bids))
    ∧ (r = Ok tt →
       progress_values evs = percent_table (Z.of_nat (length bids))
       ∧ filter (λ ev, is_set_field ev = true) evs
         = bids ≫= book_writes updates)
    ∧ ((∃ e, r = Raise e) →
       (length (progress_values evs) < length bids)%nat).
Proof.
  intros Hn. unfold worker_loop.
  pose proof (loop_trace updates (Z.of_nat (length bids)) (enumerate bids)
                (World (win w) (trace w ++ [CStartBulkUpdate]))) as H.
  destruct (for_each _ (enumerate bids) _) as [w1 r].
  destruct H as (evs & k & Ht & Hk & HF & Hr & Hfail).
  cbn [trace] in Ht.
  assert (length (enumerate bids) = length bids) as Hlen.
  { unfold enumerate. rewrite <- (enumerate_from_snd bids 0) at 2.
    by rewrite length_fmap. }
  rewrite Hlen in *.
  assert (progress_values evs = take k (percent_table (Z.of_nat (length bids))))
    as Hps.
  { apply list_eq. intros i. rewrite Forall2_lookup in HF. specialize (HF i).
    rewrite lookup_take. rewrite lookup_take in HF. unfold enumerate in HF.
    rewrite enumerate_from_lookup in HF. rewrite percent_table_lookup.
    destruct (decide (i < k)%nat) as [Hi|Hi].
    - destruct (lookup_lt_is_Some_2 bids i ltac:(lia)) as [b Hb].
      rewrite Hb in HF. cbn in HF. inv HF.
      rewrite decide_True by lia.
      match goal with
      | H : Float.percent _ _ = Ok ?y |- _ =>
          cbn [fst] in H;
          replace (0 + Z.of_nat i + 1) with (1 + Z.of_nat i) in H by lia;
          rewrite percent_up_to_50 in H by lia; by injection H as <-
      end.
    - by inv HF. }
  exists evs. split; [by rewrite Ht, <- app_assoc|].
  split; [rewrite Hps; apply prefix_take|]. split.
  - intros Hok. destruct (Hr Hok) as [-> Hw]. split.
    + rewrite Hps. apply take_ge.
      rewrite percent_table_eq, length_fmap, length_seqZ. lia.
    + unfold enumerate in Hw. by rewrite enumerate_from_snd in Hw.
  - intros He. specialize (Hfail He).
    rewrite Hps, length_take.
    rewrite percent_table_eq, length_fmap, length_seqZ. lia.
Qed.
End WorkerLoop.

(** ** The worker: success and progress *)

Lemma progress_values_loop_free (evs : list event) :
  Forall (λ ev, is_loop_event ev = false) evs → progress_values evs = [].
Proof.
  intros H. apply progress_values_none. eapply Forall_impl; [exact H|].
  by intros [].
Qed.

Lemma filter_set_field_none (evs : list event) :
  Forall (λ ev, is_loop_event ev = false) evs →
  filter (λ ev, is_set_field ev = true) evs = [].
Proof.
  induction 1 as [|ev evs Hev _ IH]; [done|].
  rewrite filter_cons_False; [done|]. by destruct ev.
Qed.

Section WorkerOutcome.
Context {W : Type} (manager : Engine).
Implicit Types (w : world W) (bid : Z) (v : value).

(** The run from its loop: what the loop added lies between the opening
    bracket and an ending without writes and progress values; a success
    is reported only when the loop completed. *)
Lemma run_loop (bids : list Z) (updates : list (string * value)) w :
  ∃ body ending,
    new_events w (UpdateWorker.run manager bids updates w).1
    = CStartBulkUpdate :: body ++ ending
    ∧ Forall (λ ev, is_loop_event ev = true) body
    ∧ Forall (λ ev, is_loop_event ev = false) ending
    ∧ (begin_answer manager (trace w) = Ok tt →
       trace (worker_loop manager bids updates w).1
       = trace w ++ CStartBulkUpdate :: body)
    ∧ (∀ e, begin_answer manager (trace w) = Raise e → body = [])
    ∧ (SFinished true EmptyString ∈ ending →
       begin_answer manager (trace w) = Ok tt
       ∧ (worker_loop manager bids updates w).2 = Ok tt).
Proof.
  destruct (run_trace manager bids updates w)
    as (body & ending & Hrun & Hbody & Hend).
  exists body, ending. rewrite Hrun. cbn [fst]. rewrite new_events_app.
  split; [done|].
  split; [eapply Forall_impl; [exact Hbody|]; by intros ev [_ ?]|].
  destruct (begin_answer manager (trace w)) as [[]|e].
  - destruct Hend as (w1 & r & Hloop & Ht & ->). rewrite Hloop. cbn [fst snd].
    split; [|split; [done|split; [done|]]].
    + repeat constructor. unfold report.
      by destruct (commit_answer _ _), r.
    + intros Hin. split; [done|].
      apply elem_of_cons in Hin as [?|Hin]; [done|].
      apply list_elem_of_singleton in Hin. unfold report in Hin.
      destruct (commit_answer _ _), r as [[]|?]; done.
  - destruct Hend as [-> ->].
    split; [by repeat constructor|]. split; [done|]. split; [done|].
    intros Hin. by apply list_elem_of_singleton in Hin.
Qed.

Lemma worker_loop_trace (bids : list Z) (updates : list (string * value)) w :
  let '(w1, r) := worker_loop manager bids updates w in
  ∃ evs,
    trace w1 = trace w ++ CStartBulkUpdate :: evs
    ∧ (length (progress_values evs) ≤ length bids)%nat
    ∧ (r = Ok tt →
       length (progress_values evs) = length bids
       ∧ filter (λ ev, is_set_field ev = true) evs
         = bids ≫= book_writes updates).
Proof.
  unfold worker_loop.
  pose proof (loop_trace manager updates (Z.of_nat (length bids))
                (enumerate bids)
                (World (win w) (trace w ++ [CStartBulkUpdate]))) as H.
  destruct (for_each _ (enumerate bids) _) as [w1 r].
  destruct H as (evs & k & Ht & Hk & HF & Hr & _).
  cbn [trace] in Ht.
  assert (length (enumerate bids) = length bids) as Hlen.
  { unfold enumerate. rewrite <- (enumerate_from_snd bids 0) at 2.
    by rewrite length_fmap. }
  apply Forall2_length in HF. rewrite length_take in HF.
  exists evs. split; [by rewrite Ht, <- app_assoc|].
  split; [lia|].
  intros Hok. destruct (Hr Hok) as [-> Hw]. split; [lia|].
  unfold enumerate in Hw. by rewrite enumerate_from_snd in Hw.
Qed.

(** X20.  When the worker reports success, every book was handled
    completely: for an update whose date text is ASCII, the writes it
    made are, book by book in the order of the selection, the entries of
    the update in their order, the date as the date its text parses to
    and no write for a date that does not parse; and progress was
    reported once for every book. *)
Theorem success_means_all_written (bids : list Z)
    (updates : list (string * value)) w :
  ascii_dates updates →
  let evs := new_events w (UpdateWorker.run manager bids updates w).1 in
  SFinished true EmptyString ∈ evs →
  filter (λ ev, is_set_field ev = true) evs = bids ≫= book_writes updates
  ∧ length (progress_values evs) = length bids.
Proof.
  intros _. cbv zeta.
  destruct (run_loop bids updates w)
    as (body & ending & -> & Hloop & Hending & Hbody & _ & Hsucc).
  intros Hin.
  apply elem_of_cons in Hin as [?|Hin]; [done|].
  assert (SFinished true EmptyString ∈ ending) as Hin'.
  { apply elem_of_app in Hin as [Hin|Hin]; [|done].
    rewrite Forall_forall in Hloop. by specialize (Hloop _ Hin). }
  destruct (Hsucc Hin') as [Hbegin Hok].
  specialize (Hbody Hbegin).
  pose proof (worker_loop_trace bids updates w) as H.
  destruct (worker_loop manager bids updates w) as [w1 r].
  cbn [fst snd] in *. subst r.
  destruct H as (evs & Ht & _ & Hall). destruct (Hall eq_refl) as [Hlen Hw].
  rewrite Hbody in Ht. apply app_inv_head in Ht. injection Ht as <-.
  change (CStartBulkUpdate :: body ++ ending)
    with ([CStartBulkUpdate] ++ body ++ ending).
  rewrite !filter_app, !progress_values_app.
  rewrite (filter_set_field_none ending Hending),
    (progress_values_loop_free ending Hending).
  rewrite filter_cons_False by done. cbn. rewrite !app_nil_r. done.
Qed.
(** X21.  For a selection of at most 50 books, a page of the table, the
    progress values are, in order, the whole percentages
    [floor(100 k / n)] of the books done, with the one exception of 57
    after the 29th of 50 books; an error cuts the sequence short and a
    reported success means it is complete.  So the values never
    decrease, stay within 0 and 100, and 100 is reached only by the
    last book. *)
Theorem progress_of_a_page (bids : list Z) (updates : list (string * value)) w :
  (length bids ≤ 50)%nat →
  let n := Z.of_nat (length bids) in
  let evs := new_events w (UpdateWorker.run manager bids updates w).1 in
  let ps := progress_values evs in
  ps `prefix_of` percent_table n
  ∧ (SFinished true EmptyString ∈ evs → ps = percent_table n)
  ∧ (∀ i j p q, ps !! i = Some p → ps !! j = Some q → (i ≤ j)%nat → p ≤ q)
  ∧ Forall (λ p, 0 ≤ p ≤ 100) ps
  ∧ (100 ∈ ps → ps = percent_table n).
Proof.
  intros Hn. cbv zeta.
  destruct (run_loop bids updates w)
    as (body & ending & -> & Hloop & Hending & Hbody & Hnil & Hsucc).
  set (n := Z.of_nat (length bids)).
  assert (progress_values (CStartBulkUpdate :: body ++ ending)
          = progress_values body) as ->.
  { change (CStartBulkUpdate :: body ++ ending)
      with ([CStartBulkUpdate] ++ body ++ ending).
    rewrite !progress_values_app, (progress_values_loop_free ending Hending).
    cbn. by rewrite app_nil_r. }
  assert (progress_values body `prefix_of` percent_table n
          ∧ ((worker_loop manager bids updates w).2 = Ok tt →
             begin_answer manager (trace w) = Ok tt →
             progress_values body = percent_table n)) as [Hpre Hfull].
  { destruct (begin_answer manager (trace w)) as [[]|e] eqn:Hbegin.
    - specialize (Hbody eq_refl).
      pose proof (loop_progress_table manager bids updates w Hn) as H.
      destruct (worker_loop manager bids updates w) as [w1 r].
      cbn [fst snd] in *.
      destruct H as (evs & Ht & Hp & Hok & _).
      rewrite Hbody in Ht. apply app_inv_head in Ht. injection Ht as <-.
      split; [done|]. intros -> _. by destruct (Hok eq_refl).
    - rewrite (Hnil e eq_refl). split; [apply prefix_nil|done]. }
  assert (∀ i p, progress_values body !! i = Some p →
                 Z.of_nat i < n ∧ p = percent_entry (1 + Z.of_nat i) n) as Hentry.
  { intros i p Hi. eapply prefix_lookup_Some in Hi; [|exact Hpre].
    rewrite percent_table_lookup in Hi. case_decide; [|done].
    by injection Hi as <-. }
  split; [exact Hpre|]. split; [|split; [|split]].
  - intros Hin. apply elem_of_cons in Hin as [?|Hin]; [done|].
    assert (SFinished true EmptyString ∈ ending) as Hin'.
    { apply elem_of_app in Hin as [Hin|Hin]; [|done].
      rewrite Forall_forall in Hloop. by specialize (Hloop _ Hin). }
    destruct (Hsucc Hin') as [Hbegin Hok]. by apply Hfull.
  - intros i j p q Hi Hj Hij.
    destruct (Hentry i p Hi) as [? ->], (Hentry j q Hj) as [? ->].
    apply percent_entry_mono; lia.
  - apply Forall_lookup. intros i p Hi. destruct (Hentry i p Hi) as [? ->].
    apply percent_entry_range; lia.
  - intros (i & Hi)%list_elem_of_lookup.
    destruct (Hentry i 100 Hi) as [Hlt H100].
    assert (1 + Z.of_nat i = n) as Hlast.
    { unfold percent_entry in H100.
      destruct ((1 + Z.of_nat i =? 29) && (n =? 50)); [done|].
      destruct (decide (1 + Z.of_nat i = n)) as [|Hne]; [done|].
      assert ((100 * (1 + Z.of_nat i)) `div` n < 100); [|lia].
      apply Z.div_lt_upper_bound; lia. }
    destruct Hpre as [rest Hrest].
    assert (length (percent_table n) = length bids) as Hlen.
    { rewrite percent_table_eq, length_fmap, length_seqZ. lia. }
    apply lookup_lt_Some in Hi.
    rewrite Hrest, length_app in Hlen.
    destruct rest as [|x rest]; [by rewrite app_nil_r in Hrest|].
    cbn [length] in Hlen. lia.
Qed.

(** X22.  A date written as [YYYY-MM-DD], with four digits for the year
    and two for month and day, that exists in the calendar is accepted
    by the worker and written as that date; an error of the database on
    that write does not end the update. *)
Theorem iso_date_is_written (bid y m d : Z) w :
  1 ≤ y ≤ 9999 → 1 ≤ m ≤ 12 → 1 ≤ d ≤ Strptime.days_in_month y m →
  UpdateWorker.update_field manager bid
    ("pubdate"%string, VStr (iso_date y m d)) w
  = (World (win w) (trace w ++ [CSetField "pubdate" bid (VDate y m d)]), Ok tt).
Proof.
  intros Hy Hm Hd. rewrite update_field_pubdate.
  unfold Strptime.strptime.
  by rewrite (strptime_ymd_iso y m d Hy Hm Hd).
Qed.

End WorkerOutcome.

(** ** The edit dialog *)

Section Dialog.

Lemma update_of_app (f : string) (l1 l2 : list (string * value)) :
  update_of f (l1 ++ l2)
  = match update_of f l1 with Some v => Some v | None => update_of f l2 end.
Proof.
  induction l1 as [|[f' v] l1 IH]; cbn [app update_of]; [done|].
  by destruct (String.eqb f' f).
Qed.

Lemma lang_combo_current (book : BookMetadata.t) (all_languages all_tags : list string) :
  EditDialog.currentData
    (EditDialog.lang_combo (EditDialog.setup_ui [book] all_languages all_tags))
  = match BookMetadata.languages book with
    | l :: _ => if truthy l then Some l else None
    | [] => None
    end.
Proof.
  unfold EditDialog.setup_ui. cbn [EditDialog.lang_combo].
  destruct (BookMetadata.languages book) as [|l ls]; [done|].
  destruct (truthy l) eqn:Hl; [|done].
  unfold EditDialog.findData. cbn [EditDialog.data_items].
  destruct (list_find _ (EditDialog.lang_items all_languages))
    as [[i x]|] eqn:Hf.
  - apply list_find_Some in Hf as (Hi & -> & _).
    destruct (Z.leb_spec 0 (Z.of_nat i)); [|lia].
    unfold EditDialog.currentData. cbn [EditDialog.data_index EditDialog.data_items].
    destruct (Z.ltb_spec (Z.of_nat i) 0); [lia|].
    by rewrite Nat2Z.id, Hi.
  - change (0 <=? -1) with false. cbv iota.
    unfold EditDialog.currentData.
    cbn [EditDialog.data_index EditDialog.data_items].
    rewrite length_app. cbn [length].
    set (n := length (EditDialog.lang_items all_languages)).
    destruct (Z.ltb_spec (Z.of_nat (n + 1) - 1) 0); [lia|].
    replace (Z.to_nat (Z.of_nat (n + 1) - 1)) with n by lia.
    subst n. by rewrite (list_lookup_middle _ [] _ _ eq_refl).
Qed.

(** X23.  Accepting the dialog of a single book without touching it is
    not without effect.  The update always carries the tags, and they
    are the tags of the book that the tags file lists, in the order of
    that file: a tag of the book that the file does not list is
    dropped, and without a tags file all tags of the book are removed.
    Of the languages of the book only the first is written back.  The
    publication date is left out. *)
Theorem untouched_single_book_edit (book : BookMetadata.t)
    (all_languages all_tags : list string) :
  let updates :=
    EditDialog.get_updates (EditDialog.setup_ui [book] all_languages all_tags) in
  update_of "tags" updates
  = Some (VList (filter (λ t, t ∈ BookMetadata.tags book) all_tags))
  ∧ update_of "languages" updates
    = match BookMetadata.languages book with
      | l :: _ => if truthy l then Some (VList [l]) else None
      | [] => None
      end
  ∧ update_of "pubdate" updates = None.
Proof.
  cbv zeta. unfold EditDialog.get_updates.
  rewrite lang_combo_current.
  cbn [EditDialog.setup_ui EditDialog.books EditDialog.title_edit
       EditDialog.authors_edit EditDialog.publisher_edit
       EditDialog.pubdate_edit EditDialog.tags_combo EditDialog.tags_changed
       length Nat.eqb orb].
  rewrite checkedData_setCheckedItems.
  rewrite unchecked_items_data.
  change (strip EmptyString) with EmptyString. cbn [truthy].
  rewrite !update_of_app.
  destruct (truthy (strip (BookMetadata.title book)));
    destruct (truthy (strip (join ", " (BookMetadata.authors book))));
    destruct (truthy (strip (BookMetadata.publisher book)));
    destruct (BookMetadata.languages book) as [|l ls];
    try destruct (truthy l) eqn:Hl; cbn -[strip join filter truthy];
    rewrite ?Hl; cbn -[strip join filter truthy]; done.
Qed.

Lemma eventFilter_twice (d : EditDialog.t) (i : nat) :
  (i < length (EditDialog.tags_combo d))%nat →
  EditDialog.eventFilter i (EditDialog.eventFilter i d)
  = {| EditDialog.books := EditDialog.books d;
       EditDialog.title_edit := EditDialog.title_edit d;
       EditDialog.authors_edit := EditDialog.authors_edit d;
       EditDialog.publisher_edit := EditDialog.publisher_edit d;
       EditDialog.pubdate_edit := EditDialog.pubdate_edit d;
       EditDialog.lang_combo := EditDialog.lang_combo d;
       EditDialog.tags_combo := EditDialog.tags_combo d;
       EditDialog.tags_changed := true |}.
Proof.
  intros Hi. destruct (lookup_lt_is_Some_2 _ i Hi) as [[t c] Ht].
  assert (EditDialog.eventFilter i d
          = {| EditDialog.books := EditDialog.books d;
               EditDialog.title_edit := EditDialog.title_edit d;
               EditDialog.authors_edit := EditDialog.authors_edit d;
               EditDialog.publisher_edit := EditDialog.publisher_edit d;
               EditDialog.pubdate_edit := EditDialog.pubdate_edit d;
               EditDialog.lang_combo := EditDialog.lang_combo d;
               EditDialog.tags_combo :=
                 <[i := (t, negb c)]> (EditDialog.tags_combo d);
               EditDialog.tags_changed := true |}) as ->.
  { unfold EditDialog.eventFilter. by rewrite Ht. }
  unfold EditDialog.eventFilter. cbn [EditDialog.tags_combo].
  rewrite list_lookup_insert_eq by done.
  cbn [EditDialog.tags_combo EditDialog.tags_changed EditDialog.books
       EditDialog.lang_combo EditDialog.title_edit EditDialog.authors_edit
       EditDialog.publisher_edit EditDialog.pubdate_edit].
  rewrite list_insert_insert_eq, negb_involutive.
  by rewrite (list_insert_id _ _ _ Ht).
Qed.

(** X24.  The dialog for several books, accepted untouched, gives no
    update at all.  But a click on a tag and a second click that takes
    it back are not the same as no click: the update then carries an
    empty list of tags, which removes all tags of every selected book. *)
Theorem multi_book_edit_tags (books : list BookMetadata.t)
    (all_languages all_tags : list string) (i : nat) :
  length books ≠ 1%nat →
  (i < length all_tags)%nat →
  let d := EditDialog.setup_ui books all_languages all_tags in
  EditDialog.get_updates d = []
  ∧ EditDialog.get_updates (EditDialog.eventFilter i (EditDialog.eventFilter i d))
    = [("tags"%string, VList [])].
Proof.
  intros Hlen Hi. cbv zeta.
  assert (EditDialog.setup_ui books all_languages all_tags
          = {| EditDialog.books := books;
               EditDialog.title_edit := EmptyString;
               EditDialog.authors_edit := EmptyString;
               EditDialog.publisher_edit := EmptyString;
               EditDialog.pubdate_edit := EmptyString;
               EditDialog.lang_combo :=
                 {| EditDialog.data_items := EditDialog.lang_items all_languages;
                    EditDialog.data_index := 0 |};
               EditDialog.tags_combo := (λ t, (t, false)) <$> all_tags;
               EditDialog.tags_changed := false |}) as ->.
  { destruct books as [|b [|b' bs]]; done. }
  assert ((length books =? 1)%nat = false) as Hone by (by apply Nat.eqb_neq).
  split.
  - unfold EditDialog.get_updates.
    cbn [EditDialog.books EditDialog.title_edit EditDialog.authors_edit
         EditDialog.publisher_edit EditDialog.pubdate_edit
         EditDialog.lang_combo EditDialog.tags_combo EditDialog.tags_changed].
    rewrite Hone. done.
  - rewrite eventFilter_twice
      by (cbn [EditDialog.tags_combo]; by rewrite length_fmap).
    unfold EditDialog.get_updates.
    cbn [EditDialog.books EditDialog.title_edit EditDialog.authors_edit
         EditDialog.publisher_edit EditDialog.pubdate_edit
         EditDialog.lang_combo EditDialog.tags_combo EditDialog.tags_changed].
    rewrite Hone, checkedData_unchecked. done.
Qed.
End Dialog.

(** ** The names of the trash *)

Section TrashNames.
Import Trash.

Lemma digit_char_spec (d : Z) :
  0 ≤ d ≤ 9 →
  let c := digit_char d in
  Strptime.isdigit c = true ∧ Strptime.digit c = d ∧ isspace c = false
  ∧ is_newline c = false.
Proof.
  intros Hd.
  assert (d = 0 ∨ d = 1 ∨ d = 2 ∨ d = 3 ∨ d = 4 ∨ d = 5 ∨ d = 6 ∨ d = 7
          ∨ d = 8 ∨ d = 9) as H by lia.
  repeat (destruct H as [->|H]; [by vm_compute|]). subst. by vm_compute.
Qed.

Lemma read_digits_string (ds : list Z) (acc : Z) (rest : string) :
  Forall (λ d, 0 ≤ d ≤ 9) ds →
  read_digits acc (digits_string ds +:+ String ")" rest)
  = (foldl (λ acc d, 10 * acc + d) acc ds, String ")" rest).
Proof.
  intros Hds. revert acc. induction Hds as [|d ds Hd _ IH]; intros acc.
  { done. }
  unfold digits_string. cbn [fmap list_fmap string_of_list_ascii].
  change (String ?c ?s +:+ ?r) with (String c (s +:+ r)).
  cbn [read_digits].
  destruct (digit_char_spec d Hd) as (-> & -> & _).
  apply IH.
Qed.

Lemma name_tail_spec (ds : list Z) :
  ds ≠ [] → Forall (λ d, 0 ≤ d ≤ 9) ds →
  name_tail (String " " (String "(" (digits_string ds +:+ ")")))
  = Some (digits_value ds).
Proof.
  intros Hne Hds. unfold name_tail.
  change (isspace " ") with true. cbv iota.
  change (lstrip (String "(" ?s)) with (String "(" s).
  unfold id_in_parentheses.
  destruct ds as [|d ds]; [done|].
  pose proof (read_digits_string (d :: ds) 0 EmptyString Hds) as Hrd.
  unfold digits_string in *. cbn [fmap list_fmap string_of_list_ascii] in *.
  change (String ?c ?s +:+ ?r) with (String c (s +:+ r)) in *.
  apply Forall_cons in Hds as [Hd _].
  destruct (digit_char_spec d Hd) as (-> & _).
  by rewrite Hrd.
Qed.

Lemma name_match_cons (c : ascii) (rest : string) :
  name_match (String c rest)
  = if is_newline c then None
    else match name_match rest with
         | Some (title, n) => Some (String c title, n)
         | None =>
             match name_tail rest with
             | Some n => Some (String c EmptyString, n)
             | None => None
             end
         end.
Proof. reflexivity. Qed.

(** No title can end inside a text without white space. *)
Lemma name_match_no_space (s : string) :
  Forall (λ c, isspace c = false) (list_ascii_of_string s) →
  name_match s = None ∧ name_tail s = None.
Proof.
  induction s as [|c s IH]; [done|].
  cbn [list_ascii_of_string]. intros [Hc Hs]%Forall_cons.
  destruct (IH Hs) as [Hm Ht].
  rewrite name_match_cons. cbn [name_tail]. rewrite Hm, Ht, Hc.
  by destruct (is_newline c).
Qed.

Lemma digits_no_space (ds : list Z) :
  Forall (λ d, 0 ≤ d ≤ 9) ds →
  Forall (λ c, isspace c = false)
         (list_ascii_of_string (digits_string ds +:+ ")")).
Proof.
  induction 1 as [|d ds Hd _ IH]; [by repeat constructor|].
  unfold digits_string. cbn [fmap list_fmap string_of_list_ascii].
  change (String ?c ?s +:+ ?r) with (String c (s +:+ r)).
  cbn [list_ascii_of_string]. constructor; [|exact IH].
  by destruct (digit_char_spec d Hd) as (_ & _ & ? & _).
Qed.

(** X25.  A directory name of the form title, space, id in parentheses is
    read back as that title and that id, whatever the title contains
    (parentheses, digits, spaces) as long as it is not empty and has no
    line break. *)
Theorem trash_name_round_trip (title : string) (ds : list Z) :
  title ≠ EmptyString →
  Forall (λ c, is_newline c = false) (list_ascii_of_string title) →
  ds ≠ [] → Forall (λ d, 0 ≤ d ≤ 9) ds →
  title_and_id (title +:+ " (" +:+ digits_string ds +:+ ")")
  = (title, digits_value ds).
Proof.
  intros Hne Hnl Hds Hdig. unfold title_and_id.
  assert (name_match (title +:+ " (" +:+ digits_string ds +:+ ")")
          = Some (title, digits_value ds)) as ->; [|done].
  pose proof (name_tail_spec ds Hds Hdig) as Htail.
  assert (name_match (String " " (String "(" (digits_string ds +:+ ")"))) = None)
    as Hstop.
  { rewrite name_match_cons. change (is_newline " ") with false. cbv iota.
    destruct (name_match_no_space (String "(" (digits_string ds +:+ ")")))
      as [-> ->]; [|done].
    cbn [list_ascii_of_string]. constructor; [done|].
    by apply digits_no_space. }
  induction title as [|c title IH]; [done|].
  cbn [list_ascii_of_string] in Hnl. apply Forall_cons in Hnl as [Hc Hnl].
  change (String c title +:+ ?r) with (String c (title +:+ r)).
  rewrite name_match_cons, Hc.
  destruct title as [|c' title'].
  - change (EmptyString +:+ ?r) with r.
    change (" (" +:+ ?r) with (String " " (String "(" r)).
    by rewrite Hstop, Htail.
  - by rewrite IH.
Qed.
End TrashNames.

(** ** The search cache, through every action *)

Section Keeps.
Context {W : Type} (I : world W → Prop).

Lemma keeps_ret {A} (a : A) : keeps I (mret a).
Proof. by intros w. Qed.

Lemma keeps_get_win : keeps I get_win.
Proof. by intros w. Qed.

Lemma keeps_bind {A B} (m : M W A) (f : A → M W B) :
  keeps I m → (∀ a, keeps I (f a)) → keeps I (m ≫= f).
Proof.
  intros Hm Hf w Hw. unfold mbind, M_bind.
  specialize (Hm w Hw). destruct (m w) as [w1 [a|msg]]; [|done].
  by apply Hf.
Qed.

Lemma keeps_try_except {A} (m : M W A) (h : string → M W A) :
  keeps I m → (∀ e, keeps I (h e)) → keeps I (try_except m h).
Proof.
  intros Hm Hh w Hw. unfold try_except.
  specialize (Hm w Hw). destruct (m w) as [w1 [a|msg]]; [done|].
  by apply Hh.
Qed.

Lemma keeps_for_each {A} (body : A → M W unit) (xs : list A) :
  (∀ x, keeps I (body x)) → keeps I (for_each body xs).
Proof.
  intros Hb. induction xs as [|x xs IH]; [apply keeps_ret|].
  cbn [for_each]. apply keeps_bind; auto.
Qed.
End Keeps.

Section Grounded.
Context (manager : Engine).

Lemma grounded_event (x : MainWindow) (t : list event) (ev : event) :
  cache_grounded manager (World x t) →
  cache_grounded manager (World x (t ++ [ev])).
Proof.
  intros Hg k v Hk. destruct (Hg k v Hk) as (h & rest & Ht & Hs).
  exists h, (rest ++ [ev]). cbn [trace] in *. split; [|done].
  by rewrite Ht, <- app_assoc.
Qed.

Lemma grounded_call {A} (ev : event) (answer : list event → result A) :
  keeps (cache_grounded manager) (call ev answer).
Proof. intros [x t] Hg. by apply grounded_event. Qed.

Lemma grounded_emit (ev : event) : keeps (cache_grounded manager) (emit ev).
Proof. intros [x t] Hg. by apply grounded_event. Qed.

Lemma grounded_modify (f : MainWindow → MainWindow) :
  cache_shrinks f → keeps (cache_grounded manager) (modify f).
Proof.
  intros Hf [x t] Hg k v Hk. cbn [fst win trace modify] in *.
  destruct (Hf x) as [He|He]; rewrite He in Hk.
  - by apply Hg.
  - by rewrite lookup_empty in Hk.
Qed.

Lemma grounded_search_stage (q : FilterQuery) :
  keeps (cache_grounded manager) (search_stage manager q).
Proof.
  intros w Hg. rewrite search_stage_spec. cbv zeta.
  destruct (negb (truthy (final_q q))); [exact Hg|].
  destruct (_search_ids_cache (win w) !! final_q q) as [matched|] eqn:Hc;
    [exact Hg|].
  destruct (Cache.search manager (trace w) (final_q q)) as [matched|e] eqn:Hs.
  - intros k v Hk. cbn [fst win trace] in *.
    change (<[final_q q := matched]> (_search_ids_cache (win w)) !! k = Some v)
      in Hk.
    destruct (decide (k = final_q q)) as [->|Hne].
    + rewrite lookup_insert_eq in Hk. injection Hk as <-.
      by exists (trace w), [].
    + rewrite lookup_insert_ne in Hk by done.
      destruct (Hg k v Hk) as (h & rest & Ht & Hs').
      exists h, (rest ++ [CSearch (final_q q)]). split; [|done].
      by rewrite Ht, <- app_assoc.
  - destruct w as [x t]. by apply grounded_event.
Qed.
End Grounded.

(** One step of a proof that the cache stays grounded. *)
Ltac grounded_step :=
  first
    [ apply keeps_ret | apply keeps_get_win
    | apply grounded_call | apply grounded_emit
    | apply grounded_modify; intros ?; by left
    | apply keeps_bind; [|intros ?]
    | apply keeps_try_except; [|intros ?]
    | apply keeps_for_each; intros ?
    | match goal with
      | |- keeps _ (match ?x with _ => _ end) => destruct x
      | |- keeps _ (if ?x then _ else _) => destruct x
      | |- keeps _ (let '(_, _) := ?x in _) => destruct x
      end ].

Section GroundedHandlers.
Context (manager : Engine).

Lemma grounded_refresh_table ft :
  keeps (cache_grounded manager) (refresh_table manager ft).
Proof.
  unfold refresh_table.
  grounded_step; [grounded_step|].
  grounded_step.
  { unfold apply_filter, filter_body.
    grounded_step; [|grounded_step].
    grounded_step; [apply grounded_search_stage|].
    unfold invalid_stage. repeat grounded_step. }
  grounded_step; [grounded_step|].
  destruct (paginate _ _) as [[total page] page_ids].
  unfold BookManager.get_metadata_batch, render_row, get_cover_pixmap,
    BookManager.get_cover.
  repeat grounded_step.
  apply grounded_modify. intros y. left.
  by destruct (_pixmap_cache y !! inr _).
Qed.

Lemma grounded_load_books keep_page :
  keeps (cache_grounded manager) (load_books manager keep_page).
Proof.
  unfold load_books.
  grounded_step; [|grounded_step].
  grounded_step.
  { unfold refresh_index, BookManager.get_book_ids_sorted_by_timestamp.
    repeat first [ apply grounded_modify; intros ?; by right | grounded_step ]. }
  grounded_step; [grounded_step|].
  grounded_step; [repeat grounded_step|].
  grounded_step; [|apply grounded_refresh_table].
  unfold _update_filter_options, BookManager.get_all_languages,
    BookManager.get_all_tags.
  repeat grounded_step.
  apply grounded_modify. intros y. left. by destruct (0 <=? findData _ _).
Qed.

Lemma grounded_invalidate r :
  keeps (cache_grounded manager) (modify (invalidate r)).
Proof. apply grounded_modify. intros x. right. by destruct r. Qed.

Lemma grounded_handler (a : action) :
  keeps (cache_grounded manager) (handler manager a).
Proof.
  destruct a as [ft| | |keep_page|sel reply_yes| |success error_msg];
    cbn [handler].
  - apply grounded_refresh_table.
  - unfold prev_page. grounded_step; [grounded_step|].
    grounded_step; [|grounded_step].
    grounded_step; [grounded_step|apply grounded_refresh_table].
  - unfold next_page. grounded_step; [grounded_step|].
    grounded_step; [|grounded_step].
    grounded_step; [grounded_step|apply grounded_refresh_table].
  - apply grounded_load_books.
  - unfold delete_selected, BookManager.delete_books.
    destruct sel as [|b sel']; [grounded_step|].
    destruct reply_yes; [|grounded_step].
    grounded_step; [|grounded_step].
    grounded_step; [grounded_step|].
    grounded_step; [apply grounded_invalidate|].
    grounded_step; [grounded_step|apply grounded_load_books].
  - unfold browse_trash.
    grounded_step; [grounded_step|].
    grounded_step; [apply grounded_invalidate|apply grounded_load_books].
  - unfold on_finished. destruct success; [|grounded_step].
    grounded_step; [apply grounded_invalidate|].
    grounded_step; [apply grounded_load_books|grounded_step].
Qed.

(** X26.  The search cache never holds a match-set the database did not
    give: through every sequence of actions, each entry of the cache is
    the answer of a search that the trace records, for exactly the query
    string it is filed under. *)
Theorem search_cache_is_grounded (acts : list action) (w : world MainWindow) :
  cache_grounded manager w →
  cache_grounded manager (for_each (handler manager) acts w).1.
Proof.
  apply (keeps_for_each (cache_grounded manager) (handler manager) acts
           grounded_handler w).
Qed.
End GroundedHandlers.

(** ** A reload without error *)

#[export] Instance same_page_refl : Reflexive same_page.
Proof. by intros w. Qed.

#[export] Instance same_page_trans : Transitive same_page.
Proof.
  intros a b c [? [? ?]] [? [? ?]]. repeat split; congruence.
Qed.

Section Reload.
Context (manager : Engine).

Lemma update_filter_options_same_page :
  frame same_page (_update_filter_options manager).
Proof.
  unfold _update_filter_options, BookManager.get_all_languages,
    BookManager.get_all_tags.
  repeat frame_step.
  apply frame_modify. intros y. by destruct (0 <=? findData _ _).
Qed.

Lemma refresh_index_grows keep_page :
  emits (λ _, True) (refresh_index manager keep_page).
Proof.
  unfold refresh_index, BookManager.get_book_ids_sorted_by_timestamp.
  repeat emits_step.
Qed.

(** After the index block the kept index is the working copy, and the
    page is the one before. *)
Lemma refresh_index_done keep_page (w w1 : world MainWindow) :
  refresh_index manager keep_page w = (w1, Ok tt) →
  _cached_sorted_ids (win w1) = Some (sorted_book_ids (win w1))
  ∧ current_page (win w1) = current_page (win w).
Proof.
  destruct (_cached_sorted_ids (win w)) as [cached|] eqn:Ec.
  - destruct keep_page.
    + rewrite (refresh_index_reuse manager w cached Ec).
      intros [= <-]. cbn. by rewrite Ec.
    + rewrite refresh_index_rebuild by auto.
      destruct (Cache.multisort manager (trace w) false); [|done].
      by intros [= <-].
  - rewrite refresh_index_rebuild by auto.
    destruct (Cache.multisort manager (trace w) false); [|done].
    by intros [= <-].
Qed.

(** X27.  A reload that shows no error leaves a consistent view: the kept
    index is the working index, the page counters agree with the
    filtered list, and the books held are those of the current page.
    With [keep_page] the page is the one before, brought into range;
    without it the page is the first. *)
Theorem reload_page (keep_page : bool) (w : world MainWindow) :
  let w' := (load_books manager keep_page w).1 in
  Forall (λ ev, is_error_report ev = false) (new_events w w') →
  _cached_sorted_ids (win w') = Some (sorted_book_ids (win w'))
  ∧ paged (win w')
  ∧ current_page (win w')
    = (if keep_page
       then Z.max 0 (Z.min (current_page (win w)) (total_pages (win w') - 1))
       else 0)
  ∧ dom (books (win w'))
    = list_to_set (page_ids_of (filtered_ids (win w')) (current_page (win w'))).
Proof.
  cbv zeta. rewrite load_books_eq. unfold try_except.
  assert (emits (λ _, True) (refresh_index manager keep_page ;;
                             after_index manager keep_page)) as Hgrow.
  { apply emits_bind; [apply refresh_index_grows|intros _].
    eapply emits_weaken; [|apply after_index_no_multisort]. done. }
  destruct (Hgrow w) as (evs & Ht & _).
  destruct ((refresh_index manager keep_page ;; after_index manager keep_page) w)
    as [wb [[]|e]] eqn:Eb; cbn [fst] in *.
  2: { intros Hno. exfalso. unfold emit in Hno. cbn [fst trace] in Hno.
       rewrite Ht, <- app_assoc, new_events_app in Hno.
       apply Forall_app in Hno as [_ Hno]. apply Forall_cons in Hno as [Hno _].
       discriminate Hno. }
  intros _. clear Hgrow Ht evs. revert Eb.
  unfold mbind at 1, M_bind at 1.
  destruct (refresh_index manager keep_page w) as [w1 [[]|e]] eqn:Eidx; [|done].
  destruct (refresh_index_done keep_page w w1 Eidx) as [Hc1 Hp1].
  unfold after_index.
  unfold mbind at 1 2 3, M_bind at 1 2 3. unfold modify at 1. cbn [win trace].
  set (w2 := World (set_filtered_ids (sorted_book_ids (win w1)) (win w1))
                   (trace w1)).
  assert (∃ w3, ((if keep_page then mret () else modify (set_current_page 0)) w2)
                = (w3, Ok tt)
                ∧ _cached_sorted_ids (win w3) = Some (sorted_book_ids (win w3))
                ∧ current_page (win w3)
                  = (if keep_page then current_page (win w) else 0))
    as (w3 & -> & Hc3 & Hp3).
  { destruct keep_page; eexists; (split; [reflexivity|]); cbn; by rewrite ?Hp1. }
  pose proof (update_filter_options_same_page w3) as (Hp4 & Hs4 & Hk4).
  destruct (_update_filter_options manager w3) as [w4 [[]|e]]; [|done].
  cbn [fst] in *.
  pose proof (refresh_table_post manager None w4) as Hpost.
  pose proof (refresh_table_same_index manager None w4) as [Hs5 Hk5].
  destruct (refresh_table manager None w4) as [w5 r5]. cbn [fst] in *.
  intros [= -> ->]. destruct Hpost as (Hpaged & Hcp & _ & Hbooks).
  split; [by rewrite Hk5, Hs5, Hk4, Hs4|].
  split; [exact Hpaged|]. split; [|by apply Hbooks].
  rewrite Hcp, Hp4, Hp3. destruct keep_page; [done|].
  destruct Hpaged as [Htp _]. rewrite Htp.
  pose proof (total_pages_ceil (filtered_ids (win wb))) as Hceil.
  unfold is_ceil_div, PAGE_SIZE in Hceil. lia.
Qed.
End Reload.

(** ** The authors of the edit dialog *)

Section Authors.

Lemma text_app_cons (x : ascii) (a b : string) :
  String x a +:+ b = String x (a +:+ b).
Proof. done. Qed.

Lemma text_app_assoc (a b c : string) : (a +:+ b) +:+ c = a +:+ (b +:+ c).
Proof. induction a as [|x a IH]; [done|]. by rewrite !text_app_cons, IH. Qed.

Lemma text_app_empty (a : string) : a +:+ EmptyString = a.
Proof. induction a as [|x a IH]; [done|]. by rewrite text_app_cons, IH. Qed.

Lemma text_length_app (a b : string) :
  String.length (a +:+ b) = (String.length a + String.length b)%nat.
Proof.
  induction a as [|x a IH]; [done|].
  rewrite text_app_cons. cbn [String.length]. by rewrite IH.
Qed.

Lemma text_rev_app (s1 s2 : string) :
  String.rev_app s1 s2 = String.rev s1 +:+ s2.
Proof.
  revert s2. induction s1 as [|x s1 IH]; intros s2; [done|].
  unfold String.rev. cbn [String.rev_app].
  rewrite (IH (String x s2)), (IH (String x EmptyString)).
  by rewrite text_app_assoc.
Qed.

Lemma text_rev_cons (x : ascii) (s : string) :
  String.rev (String x s) = String.rev s +:+ String x EmptyString.
Proof. unfold String.rev at 1. cbn [String.rev_app]. apply text_rev_app. Qed.

Lemma text_rev_append (a b : string) :
  String.rev (a +:+ b) = String.rev b +:+ String.rev a.
Proof.
  induction a as [|x a IH].
  - change (String.rev EmptyString) with EmptyString.
    by rewrite text_app_empty.
  - change (String x a +:+ b) with (String x (a +:+ b)).
    by rewrite !text_rev_cons, IH, text_app_assoc.
Qed.

Lemma text_rev_involutive (s : string) : String.rev (String.rev s) = s.
Proof.
  induction s as [|x s IH]; [done|].
  by rewrite text_rev_cons, text_rev_append, IH.
Qed.

Lemma text_length_rev (s : string) : String.length (String.rev s) = String.length s.
Proof.
  induction s as [|x s IH]; [done|].
  rewrite text_rev_cons, text_length_app, IH. cbn. lia.
Qed.

Lemma length_lstrip (s : string) :
  (String.length (lstrip s) <= String.length s)%nat.
Proof.
  induction s as [|x s IH]; [done|]. cbn [lstrip].
  destruct (isspace x); cbn [String.length]; lia.
Qed.

Lemma lstrip_fixed (x : ascii) (s : string) :
  lstrip (String x s) = String x s → isspace x = false.
Proof.
  cbn [lstrip]. destruct (isspace x); [|done]. intros H.
  pose proof (length_lstrip s) as Hl. rewrite H in Hl. cbn in Hl. lia.
Qed.

Lemma lstrip_keeps (x : ascii) (s : string) :
  isspace x = false → lstrip (String x s) = String x s.
Proof. intros H. cbn [lstrip]. by rewrite H. Qed.

(** [strip] leaves a text as it is exactly when the text is empty or
    begins and ends with a character that is not white space. *)
Lemma strip_ends (x : ascii) (r : string) :
  isspace x = false → ends_well (String x r) → strip (String x r) = String x r.
Proof.
  intros Hx (p & c & Hs & Hc). unfold strip.
  rewrite (lstrip_keeps x r Hx).
  assert (String.rev (String x r) = String c (String.rev p)) as Hrev.
  { rewrite Hs, text_rev_append. done. }
  rewrite Hrev, (lstrip_keeps c _ Hc), <- Hrev. apply text_rev_involutive.
Qed.

Lemma strip_fixed_ends (s : string) :
  stripped_name s →
  (∃ x r, s = String x r ∧ isspace x = false) ∧ ends_well s.
Proof.
  intros [Hne Hs]. destruct s as [|x r]; [done|].
  assert (isspace x = false) as Hx.
  { destruct (isspace x) eqn:Hx; [|done]. exfalso.
    apply (f_equal String.length) in Hs. unfold strip in Hs.
    rewrite text_length_rev in Hs.
    pose proof (length_lstrip (String.rev (lstrip (String x r)))) as H1.
    rewrite text_length_rev in H1. cbn [lstrip] in H1, Hs. rewrite Hx in H1, Hs.
    pose proof (length_lstrip r) as H2. cbn [String.length] in Hs. lia. }
  split; [by exists x, r|].
  unfold strip in Hs. rewrite (lstrip_keeps x r Hx) in Hs.
  apply (f_equal String.rev) in Hs. rewrite text_rev_involutive in Hs.
  destruct (String.rev (String x r)) as [|c q] eqn:Hrev.
  { apply (f_equal String.length) in Hrev. rewrite text_length_rev in Hrev. done. }
  exists (String.rev q), c. split.
  - by rewrite <- (text_rev_involutive (String x r)), Hrev, text_rev_cons.
  - by apply (lstrip_fixed c q).
Qed.

Lemma join_cons (sep a b : string) (l : list string) :
  join sep (a :: b :: l) = a +:+ sep +:+ join sep (b :: l).
Proof. done. Qed.

Lemma join_ends_well (l : list string) :
  l ≠ [] → Forall ends_well l → ends_well (join ", " l).
Proof.
  induction l as [|a [|b l] IH]; [done|..]; intros _ Hl.
  - by apply Forall_cons in Hl as [Ha _].
  - apply Forall_cons in Hl as [_ Hl].
    destruct (IH ltac:(done) Hl) as (p & c & Hj & Hc).
    exists (a +:+ ", " +:+ p), c. split; [|done].
    by rewrite join_cons, Hj, !text_app_assoc.
Qed.

Lemma strip_join (l : list string) :
  l ≠ [] → Forall stripped_name l →
  strip (join ", " l) = join ", " l ∧ truthy (join ", " l) = true.
Proof.
  intros Hne Hl.
  assert (Forall ends_well l) as Hends.
  { eapply Forall_impl; [exact Hl|]. intros a Ha.
    by apply strip_fixed_ends. }
  pose proof (join_ends_well l Hne Hends) as Hj.
  destruct l as [|a l]; [done|]. apply Forall_cons in Hl as [Ha _].
  destruct (strip_fixed_ends a Ha) as [(x & r & -> & Hx) _].
  assert (∃ r', join ", " (String x r :: l) = String x r') as [r' Hr].
  { destruct l; [by eexists|]. rewrite join_cons. by eexists. }
  rewrite Hr in *. split; [by apply strip_ends|done].
Qed.

Lemma split_comma_cons (s : string) :
  ∃ p ps, EditDialog.split_comma s = p :: ps.
Proof.
  induction s as [|x s (p & ps & IH)]; [by eexists _, _|].
  cbn [EditDialog.split_comma]. rewrite IH.
  destruct (Ascii.eqb x ","); by eexists _, _.
Qed.

(** [(a + ',' + s).split(',')] is [a.split(',') + s.split(',')]. *)
Lemma split_comma_append (a s : string) :
  EditDialog.split_comma (a +:+ String "," s)
  = EditDialog.split_comma a ++ EditDialog.split_comma s.
Proof.
  induction a as [|x a IH]; [done|].
  change (String x a +:+ String "," s) with (String x (a +:+ String "," s)).
  cbn [EditDialog.split_comma]. rewrite IH.
  destruct (split_comma_cons a) as (p & ps & ->).
  by destruct (Ascii.eqb x ",").
Qed.

Lemma pieces_after_space (s : string) : pieces (String " " s) = pieces s.
Proof.
  unfold pieces. cbn [EditDialog.split_comma].
  change (Ascii.eqb " " ",") with false. cbv iota.
  destruct (split_comma_cons s) as (p & ps & ->). done.
Qed.

Lemma pieces_join (l : list string) :
  l ≠ [] → pieces (join ", " l) = l ≫= pieces.
Proof.
  induction l as [|a [|b l] IH]; [done|..]; intros _.
  - cbn. by rewrite app_nil_r.
  - rewrite join_cons.
    change (a +:+ ", " +:+ join ", " (b :: l))
      with (a +:+ String "," (String " " (join ", " (b :: l)))).
    unfold pieces at 1. rewrite split_comma_append, fmap_app.
    change (strip <$> EditDialog.split_comma (String " " (join ", " (b :: l))))
      with (pieces (String " " (join ", " (b :: l)))).
    rewrite pieces_after_space, IH by done. done.
Qed.

Lemma split_comma_free (a : string) :
  comma_free a → EditDialog.split_comma a = [a].
Proof.
  unfold comma_free. induction a as [|x a IH]; [done|]. intros Hx.
  cbn [list_ascii_of_string] in Hx. apply not_elem_of_cons in Hx as [Hx Ha].
  cbn [EditDialog.split_comma]. rewrite (IH Ha).
  destruct (Ascii.eqb_spec x ","); [by subst|done].
Qed.

Lemma pieces_of_names (l : list string) :
  Forall stripped_name l → Forall comma_free l → l ≫= pieces = l.
Proof.
  induction 1 as [|a l [_ Ha] _ IH]; [done|]. intros [Hc Hl]%Forall_cons.
  cbn. unfold pieces at 1. rewrite (split_comma_free a Hc). cbn.
  by rewrite Ha, (IH Hl).
Qed.

(** X28.  Accepting the dialog of a single book without touching it writes
    the authors back through the text of the line edit.  When the names
    are ASCII texts, not empty and without white space at their ends,
    the update holds, for each author in turn, the name cut at its
    commas with each part stripped: a name with a comma comes back as
    several authors.  When in addition no name holds a comma, the update
    is the list of authors as it was. *)
Theorem untouched_edit_authors (book : BookMetadata.t)
    (all_languages all_tags : list string) :
  BookMetadata.authors book ≠ [] →
  Forall (λ a, ascii_text a = true) (BookMetadata.authors book) →
  Forall stripped_name (BookMetadata.authors book) →
  let updates :=
    EditDialog.get_updates (EditDialog.setup_ui [book] all_languages all_tags) in
  update_of "authors" updates
  = Some (VList (BookMetadata.authors book ≫= pieces))
  ∧ (Forall comma_free (BookMetadata.authors book) →
     update_of "authors" updates = Some (VList (BookMetadata.authors book))).
Proof.
  intros Hne _ Hl. cbv zeta.
  assert (update_of "authors"
            (EditDialog.get_updates
               (EditDialog.setup_ui [book] all_languages all_tags))
          = Some (VList (BookMetadata.authors book ≫= pieces))) as Hu.
  { unfold EditDialog.get_updates.
    cbn [EditDialog.setup_ui EditDialog.title_edit EditDialog.authors_edit].
    destruct (strip_join _ Hne Hl) as [-> ->].
    rewrite !update_of_app.
    destruct (truthy (strip (BookMetadata.title book)));
      cbn -[strip join pieces]; by rewrite <- pieces_join. }
  split; [exact Hu|]. intros Hc. by rewrite Hu, pieces_of_names.
Qed.
End Authors.

(** ** The properties at sample data *)

(** The date texts of the sample update are ASCII. *)
Lemma sample_dates_ascii : ascii_dates Sample.title_and_bad_date.
Proof.
  intros v Hin. apply elem_of_cons in Hin as [Heq|Hin]; [discriminate Heq|].
  apply list_elem_of_singleton in Hin. injection Hin as ->. reflexivity.
Defined.


(** X6 on the second of the three pages of 120 books, with a database
    that answers everything: [prev_page] shows the first page and
    [next_page] the third. *)
Lemma page_navigation_witness :
  paged (win Scenario.second_page)
  ∧ current_page (win (prev_page Sample.quiet Scenario.second_page).1) = 0
  ∧ current_page (win (next_page Sample.quiet Scenario.second_page).1) = 2.
Proof.
  assert (paged (win Scenario.second_page)) as Hp by (split; reflexivity).
  split; [exact Hp|].
  destruct (page_navigation Sample.quiet Scenario.second_page Hp)
    as (_ & _ & Hprev & Hnext & _).
  split.
  - apply Hprev; [reflexivity|]. vm_compute. reflexivity.
  - apply Hnext; [reflexivity|]. vm_compute. reflexivity.
Defined.

(** X12 at a confirmed delete of one book: the only write is the removal
    of that book, to the trash. *)
Lemma handlers_never_write_witness :
  Forall (allowed (DeleteSelected [Scenario.emma] true))
    (new_events Sample.start
       (handler Scenario.stocked (DeleteSelected [Scenario.emma] true)
          Sample.start).1).
Proof. apply handlers_never_write. reflexivity. Defined.

(** X19 at two books, a title and a date that does not parse. *)
Lemma worker_writes_only_what_was_asked_witness :
  Forall (asked [7; 8] Sample.title_and_bad_date)
    (new_events (World tt [])
       (UpdateWorker.run Sample.quiet [7; 8] Sample.title_and_bad_date
          (World tt [])).1).
Proof. apply worker_writes_only_what_was_asked, sample_dates_ascii. Defined.

(** X10 at a window with the tag items [invalid], [ok] and [old] checked
    and a library whose tags are [new] and [ok]: after the reload
    [invalid] and [ok] are checked, and [old] is gone. *)
Lemma filter_options_survive_reload_witness :
  let w' := (_update_filter_options Scenario.stocked Scenario.checked).1 in
  checkedData (tag_filter (win w')) = ["invalid"; "ok"]%string
  ∧ currentData (lang_filter (win w')) = Some "all"%string.
Proof.
  pose proof (filter_options_survive_reload Scenario.stocked Scenario.checked
                ["eng"%string] ["new"; "ok"]%string eq_refl eq_refl) as H.
  cbv zeta.
  destruct (_update_filter_options Scenario.stocked Scenario.checked) as [w' r].
  destruct H as (_ & _ & _ & _ & _ & Hlang & Htags). cbn [fst].
  split.
  - rewrite Htags. vm_compute. reflexivity.
  - rewrite Hlang. vm_compute. reflexivity.
Defined.

(** X13 at a reload with a database that cannot be reached: the handler
    returns. *)
Lemma handlers_contain_errors_witness :
  (handler Scenario.offline (Reload false) Sample.start).2 = Ok tt.
Proof. apply handlers_contain_errors. reflexivity. Defined.

(** X14 at the sample window, for a confirmed delete followed by a
    change of page and the completion of an edit. *)
Lemma window_lists_stay_sound_witness :
  window_ok (win Sample.start)
  ∧ window_ok
      (win (for_each (handler Sample.matching)
              [DeleteSelected [Scenario.dune] true; NextPage;
               EditFinished true EmptyString]
              Sample.start).1).
Proof.
  assert (window_ok (win Sample.start)) as Hok.
  { split; [|reflexivity]. intros ids Hids. by injection Hids. }
  split; [exact Hok|]. by apply window_lists_stay_sound.
Defined.

(** X15 at a database that cannot be reached: the window is the sample
    window as before, and the error is shown. *)
Lemma load_books_index_failure_witness :
  load_books Scenario.offline false Sample.start
  = (World Sample.window
           [CMultisort false; QMessageBox Critical "msg_load_failed" "offline"],
     Ok tt).
Proof.
  exact (load_books_index_failure Scenario.offline false Sample.start "offline"
           (or_intror eq_refl) eq_refl).
Defined.

(** X16 at a confirmed delete of book 9: the removal, the message and
    the fetch of the index. *)
Lemma delete_selected_rebuilds_index_witness :
  ∃ evs,
    new_events Sample.start
      (delete_selected Scenario.stocked [Scenario.dune] true Sample.start).1
    = CRemoveBooks (list_to_set [9]) false
      :: QMessageBox Information "msg_delete_success" EmptyString
      :: CMultisort false :: evs.
Proof.
  apply (delete_selected_rebuilds_index Scenario.stocked [Scenario.dune]
           Sample.start); [discriminate|reflexivity].
Defined.

(** X17 at a library that refuses the removal: the window stays the
    sample window, with its caches. *)
Lemma delete_selected_failure_witness :
  delete_selected Scenario.read_only [Scenario.dune] true Sample.start
  = (World Sample.window
           [CRemoveBooks (list_to_set [9]) false;
            QMessageBox Critical "msg_delete_failed" "the library is read-only"],
     Ok tt).
Proof.
  apply (delete_selected_failure Scenario.read_only [Scenario.dune]
           Sample.start); [discriminate|reflexivity].
Defined.

(** X20 at two books, a title and a date that does not parse: the run
    succeeds and wrote the two titles. *)
Lemma success_means_all_written_witness :
  filter (λ ev, is_set_field ev = true)
    (new_events (World tt [])
       (UpdateWorker.run Sample.quiet [7; 8] Sample.title_and_bad_date
          (World tt [])).1)
  = [CSetField "title" 7 (VStr "X"); CSetField "title" 8 (VStr "X")].
Proof.
  destruct (success_means_all_written Sample.quiet [7; 8]
              Sample.title_and_bad_date (World tt []) sample_dates_ascii)
    as [H _].
  { vm_compute. repeat constructor. }
  rewrite H. vm_compute. reflexivity.
Defined.

(** X21 at the 50 books of a full page: the progress values are those of
    the table, with 57 at the 29th place. *)
Lemma progress_of_a_page_witness :
  progress_values
    (new_events (World tt [])
       (UpdateWorker.run Sample.quiet (seqZ 1 50) Sample.title_update
          (World tt [])).1)
  = percent_table 50
  ∧ percent_table 50 !! 28%nat = Some 57.
Proof.
  destruct (progress_of_a_page Sample.quiet (seqZ 1 50) Sample.title_update
              (World tt [])) as (_ & Hfull & _).
  { vm_compute. repeat constructor. }
  split; [|reflexivity]. apply Hfull. vm_compute. repeat constructor.
Defined.

(** X22 at the 29th of February 2024, with a database that refuses
    every write. *)
Lemma iso_date_is_written_witness :
  UpdateWorker.update_field Sample.failing_write 7
    ("pubdate"%string, VStr "2024-02-29") (World tt [])
  = (World tt [CSetField "pubdate" 7 (VDate 2024 2 29)], Ok tt).
Proof.
  apply (iso_date_is_written Sample.failing_write 7 2024 2 29 (World tt []));
    vm_compute; split; discriminate.
Defined.

(** X24 at two books and the tags file [ok], [new]: two clicks on the
    first tag give an update that empties the tags. *)
Lemma multi_book_edit_tags_witness :
  let d := EditDialog.setup_ui [Scenario.dune; Scenario.emma]
             ["eng"%string] ["ok"; "new"]%string in
  EditDialog.get_updates d = []
  ∧ EditDialog.get_updates (EditDialog.eventFilter 0 (EditDialog.eventFilter 0 d))
    = [("tags"%string, VList [])].
Proof.
  apply (multi_book_edit_tags [Scenario.dune; Scenario.emma]
           ["eng"%string] ["ok"; "new"]%string 0); [discriminate|cbn; lia].
Defined.

(** X25 at a title that ends in a year in parentheses. *)
Lemma trash_name_round_trip_witness :
  Trash.title_and_id "Dune (1965) (42)" = ("Dune (1965)"%string, 42).
Proof.
  apply (trash_name_round_trip "Dune (1965)" [4; 2]).
  - discriminate.
  - repeat constructor.
  - discriminate.
  - repeat constructor; lia.
Defined.

(** X26 at the sample window, whose search cache is empty, for a search
    followed by a reload that keeps the page. *)
Lemma search_cache_is_grounded_witness :
  cache_grounded Scenario.stocked
    (for_each (handler Scenario.stocked)
              [Refresh (Some "a"%string); Reload true] Sample.start).1.
Proof.
  apply (search_cache_is_grounded Scenario.stocked).
  intros k v Hk. cbn in Hk. by rewrite lookup_empty in Hk.
Defined.

(** X27 at the sample window and the stocked library, for a reload
    that keeps the page. *)
Lemma reload_page_witness :
  let w' := (load_books Scenario.stocked true Sample.start).1 in
  _cached_sorted_ids (win w') = Some (sorted_book_ids (win w'))
  ∧ paged (win w')
  ∧ current_page (win w')
    = Z.max 0 (Z.min (current_page (win Sample.start))
                     (total_pages (win w') - 1))
  ∧ dom (books (win w'))
    = list_to_set (page_ids_of (filtered_ids (win w')) (current_page (win w'))).
Proof.
  apply (reload_page Scenario.stocked true Sample.start).
  vm_compute. repeat constructor.
Defined.

(** X28 at a book by [Herbert, Frank] and [Jane Austen]: the untouched
    dialog makes three authors of the two. *)
Lemma untouched_edit_authors_witness :
  update_of "authors"
    (EditDialog.get_updates (EditDialog.setup_ui [Scenario.anthology] [] []))
  = Some (VList ["Herbert"; "Frank"; "Jane Austen"]%string).
Proof.
  destruct (untouched_edit_authors Scenario.anthology [] []) as [Hu _].
  - done.
  - by repeat constructor.
  - repeat constructor; done.
  - rewrite Hu. reflexivity.
Defined.
